(** * json-tools-next: the tab store and the Monaco JSON editor component

    A shallow embedding of [useTabStore.ts] (the zustand tab store) and of
    the [MonacoJsonEditor] component: validation, auto-repair, jump to the
    error line, unescape, field sorting, comment removal and the debounced
    validation of edits.  The [MonacoDiffEditor] component and the hover
    and status timers of [MonacoOperationBar] are embedded the same way.

    - JavaScript strings are sequences of UTF-16 code units; a code unit is
      an [N].
    - React state, refs, the timer queue with its millisecond clock, the
      notifications and the texts handed to the parent are one explicit
      state record, threaded through the functions.
    - [JSON.parse], [jsonrepair] and the two parse-error extractors are
      parameters of the development (the class [Platform]); a function
      that throws returns [None].
    - The helpers of [@/utils/json] that the component calls and the
      editing widget are modelled from the specification, and say so.
    - Layout and rendering are left out.

    The definitions come first, then the facts about them, then the
    properties of the specification. *)

From Stdlib Require Import ZArith NArith Lia Ascii String.
From stdpp Require Import base tactics option list strings pretty.

Local Open Scope N_scope.

(* ===================================================================== *)
(** ** JavaScript strings *)
(* ===================================================================== *)

Module JS.

(** A JavaScript string: its UTF-16 code units. *)
Definition jsstring := list N.

(** The code units of an ASCII literal. *)
Definition u16 (s : string) : jsstring :=
  N_of_ascii <$> list_ascii_of_string s.

(** ECMAScript [WhiteSpace] and [LineTerminator] code points, all of them
    in the Basic Multilingual Plane: what [String.prototype.trim] strips. *)
Definition isWhiteSpace (c : N) : bool :=
  (c =? 9) || (c =? 10) || (c =? 11) || (c =? 12) || (c =? 13) || (c =? 32)
  || (c =? 160) || (c =? 5760) || ((8192 <=? c) && (c <=? 8202))
  || (c =? 8232) || (c =? 8233) || (c =? 8239) || (c =? 8287)
  || (c =? 12288) || (c =? 65279).

Fixpoint trimStart (s : jsstring) : jsstring :=
  match s with
  | c :: rest => if isWhiteSpace c then trimStart rest else s
  | [] => []
  end.

Definition trimEnd (s : jsstring) : jsstring :=
  reverse (trimStart (reverse s)).

(** [s.trim()] *)
Definition trim (s : jsstring) : jsstring := trimEnd (trimStart s).

(** [x || dflt] on strings: the empty string is the only falsy string. *)
Definition or_else (x dflt : jsstring) : jsstring :=
  match x with [] => dflt | _ => x end.

(** [`${n}`] for a non-negative integer [n]. *)
Definition of_number (n : N) : jsstring := u16 (pretty n).

End JS.
Import JS.

(* ===================================================================== *)
(** ** The tab store ([useTabStore.ts]) *)
(* ===================================================================== *)

Module TabStore.

Record TabItem := mkTabItem {
  key : jsstring;
  title : jsstring;
  content : jsstring;
  closable : option bool;
}.

(** The data fields of the zustand store. *)
Record TabStore := mkTabStore {
  tabs : list TabItem;
  activeTabKey : jsstring;
  nextKey : N;
}.

(** [{ key: "1", title: "New Tab 1", content: "首页内容", closable: true }] *)
Definition defaultTab : TabItem :=
  {| key := u16 "1"; title := u16 "New Tab 1";
     content := [39318; 39029; 20869; 23481]; closable := Some true |}.

Definition initial : TabStore :=
  {| tabs := [defaultTab]; activeTabKey := u16 "1"; nextKey := 2 |}.

(** [Array.prototype.findIndex]: the first index whose element satisfies
    the predicate, [-1] when there is none. *)
Definition findIndex (P : TabItem → Prop) `{∀ x, Decision (P x)}
    (l : list TabItem) : Z :=
  match list_find P l with
  | Some (i, _) => Z.of_nat i
  | None => (-1)%Z
  end.

(** [Array.prototype.find] *)
Definition find (P : TabItem → Prop) `{∀ x, Decision (P x)}
    (l : list TabItem) : option TabItem :=
  snd <$> list_find P l.

(** The relative index of [Array.prototype.slice]: a negative index counts
    from the end, and the result is clamped to [0 .. len]. *)
Definition relIndex (len : nat) (i : Z) : nat :=
  if (i <? 0)%Z then Z.to_nat (Z.max (Z.of_nat len + i) 0)
  else Z.to_nat (Z.min i (Z.of_nat len)).

(** [l.slice(start, end)] *)
Definition slice (start end_ : Z) (l : list TabItem) : list TabItem :=
  let k := relIndex (length l) start in
  let f := relIndex (length l) end_ in
  take (f - k) (drop k l).

(** [l.slice(start)] *)
Definition sliceFrom (start : Z) (l : list TabItem) : list TabItem :=
  drop (relIndex (length l) start) l.

Definition addTab (state : TabStore) : TabStore :=
  let newTabKey := of_number (nextKey state) in
  let newTab :=
    {| key := of_number (nextKey state);
       title := u16 "New Tab " ++ newTabKey;
       content := u16 "New Tab " ++ newTabKey ++ [32; 30340; 20869; 23481];
       closable := Some true |} in
  {| tabs := tabs state ++ [newTab];
     activeTabKey := newTabKey;
     nextKey := nextKey state + 1 |}.

Definition renameTab (k newTitle : jsstring) (state : TabStore) : TabStore :=
  match trim newTitle with
  | [] => state
  | _ =>
    let updatedTabs :=
      (λ tab, if decide (key tab = k)
              then {| key := key tab; title := trim newTitle;
                      content := content tab; closable := closable tab |}
              else tab) <$> tabs state in
    {| tabs := updatedTabs; activeTabKey := activeTabKey state;
       nextKey := nextKey state |}
  end.

(** Closes every tab and keeps the default first tab. *)
Definition closeAllTabs (state : TabStore) : TabStore :=
  {| tabs := [defaultTab]; activeTabKey := u16 "1"; nextKey := 2 |}.

Definition closeTab (keyToRemove : jsstring) (state : TabStore) : TabStore :=
  if decide (length (tabs state) = 1%nat) then closeAllTabs state
  else
    let updatedTabs := filter (λ tab, key tab ≠ keyToRemove) (tabs state) in
    let newActiveTab :=
      if decide (keyToRemove = activeTabKey state)
      then match last updatedTabs with
           | Some tab => or_else (key tab) (u16 "1")
           | None => u16 "1"
           end
      else activeTabKey state in
    {| tabs := updatedTabs; activeTabKey := newActiveTab;
       nextKey := nextKey state |}.

Definition setActiveTab (k : jsstring) (state : TabStore) : TabStore :=
  {| tabs := tabs state; activeTabKey := k; nextKey := nextKey state |}.

Definition closeOtherTabs (currentKey : jsstring) (state : TabStore)
    : TabStore :=
  let currentTab := find (λ tab, key tab = currentKey) (tabs state) in
  {| tabs := match currentTab with Some tab => [tab] | None => [] end;
     activeTabKey := currentKey; nextKey := nextKey state |}.

Definition closeLeftTabs (currentKey : jsstring) (state : TabStore)
    : TabStore :=
  let currentIndex := findIndex (λ tab, key tab = currentKey) (tabs state) in
  {| tabs := sliceFrom currentIndex (tabs state);
     activeTabKey := currentKey; nextKey := nextKey state |}.

Definition closeRightTabs (currentKey : jsstring) (state : TabStore)
    : TabStore :=
  let currentIndex := findIndex (λ tab, key tab = currentKey) (tabs state) in
  {| tabs := slice 0 (currentIndex + 1) (tabs state);
     activeTabKey := currentKey; nextKey := nextKey state |}.

(** The store's update functions, as the actions a client can dispatch. *)
Inductive action :=
| AddTab
| CloseTab (keyToRemove : jsstring)
| SetActiveTab (k : jsstring)
| RenameTab (k newTitle : jsstring)
| CloseOtherTabs (currentKey : jsstring)
| CloseLeftTabs (currentKey : jsstring)
| CloseRightTabs (currentKey : jsstring)
| CloseAllTabs.

Definition dispatch (a : action) (state : TabStore) : TabStore :=
  match a with
  | AddTab => addTab state
  | CloseTab k => closeTab k state
  | SetActiveTab k => setActiveTab k state
  | RenameTab k t => renameTab k t state
  | CloseOtherTabs k => closeOtherTabs k state
  | CloseLeftTabs k => closeLeftTabs k state
  | CloseRightTabs k => closeRightTabs k state
  | CloseAllTabs => closeAllTabs state
  end.

(** The states the store can be in: the initial store, updated by any
    sequence of its own functions. *)
Inductive reachable : TabStore → Prop :=
| reachable_initial : reachable initial
| reachable_dispatch a state :
    reachable state → reachable (dispatch a state).

(** Keys are the decimal renderings of the numbers handed out so far, and
    no two tabs share one. *)
Definition keys_fresh (state : TabStore) : Prop :=
  NoDup (key <$> tabs state) ∧
  ∀ tab, tab ∈ tabs state →
    ∃ n, n < nextKey state ∧ key tab = of_number n.

(** [activeTab()]: the tab the active key names, the first tab when there
    is none. *)
Definition activeTab (state : TabStore) : option TabItem :=
  match find (λ tab, key tab = activeTabKey state) (tabs state) with
  | Some tab => Some tab
  | None => tabs state !! 0%nat
  end.

Definition getTabByKey (k : jsstring) (state : TabStore) : option TabItem :=
  find (λ tab, key tab = k) (tabs state).

(** The tab [addTab] creates in [state]. *)
Definition newTabOf (state : TabStore) : TabItem :=
  {| key := of_number (nextKey state);
     title := u16 "New Tab " ++ of_number (nextKey state);
     content := u16 "New Tab " ++ of_number (nextKey state)
                  ++ [32; 30340; 20869; 23481];
     closable := Some true |}.

(** The action names an open tab wherever it is given the key of the tab
    to activate or to keep, as the tab bar does. *)
Definition addressed (a : action) (state : TabStore) : Prop :=
  match a with
  | SetActiveTab k | CloseOtherTabs k | CloseLeftTabs k | CloseRightTabs k =>
    k ∈ key <$> tabs state
  | _ => True
  end.

(** The states the tab bar drives the store into. *)
Inductive operated : TabStore → Prop :=
| operated_initial : operated initial
| operated_dispatch a state :
    operated state → addressed a state → operated (dispatch a state).

End TabStore.

(* ===================================================================== *)
(** ** JSON values and the text utilities of [@/utils/json] *)
(* ===================================================================== *)

Module Json.

(** The value [JSON.parse] returns.  A number is kept as its canonical
    JavaScript rendering ([Number::toString]), which is what every use in
    the component observes; an object is its members in property order. *)
#[warnings="-register-all"] Inductive JsonValue :=
| JNull
| JBool (b : bool)
| JNumber (repr : jsstring)
| JString (s : jsstring)
| JArray (items : list JsonValue)
| JObject (members : list (jsstring * JsonValue)).

(** An ASCII literal in which the apostrophe stands for the double quote. *)
Definition lit (s : string) : jsstring :=
  (λ c, if c =? 39 then 34 else c) <$> u16 s.

(** [parts.join(sep)] *)
Fixpoint join (sep : jsstring) (parts : list jsstring) : jsstring :=
  match parts with
  | [] => []
  | [x] => x
  | x :: rest => x ++ sep ++ join sep rest
  end.

(** The abstract operation [ToString], applied by [JSON.parse] to its
    argument: an array joins its elements with commas, [null] elements
    rendering as nothing. *)
Fixpoint ToString (v : JsonValue) : jsstring :=
  match v with
  | JNull => u16 "null"
  | JBool true => u16 "true"
  | JBool false => u16 "false"
  | JNumber repr => repr
  | JString s => s
  | JArray items =>
      join (u16 ",")
        (map (λ x, match x with JNull => [] | _ => ToString x end) items)
  | JObject _ => u16 "[object Object]"
  end.

(** *** [JSON.stringify(value, null, space)] *)

Definition hexDigit (d : N) : N := if d <? 10 then 48 + d else 87 + d.

(** [\uXXXX], in lower-case hexadecimal. *)
Definition unicodeEscape (c : N) : jsstring :=
  [92; 117; hexDigit (c / 4096 mod 16); hexDigit (c / 256 mod 16);
   hexDigit (c / 16 mod 16); hexDigit (c mod 16)].

Definition isLeadingSurrogate (c : N) : bool := (55296 <=? c) && (c <=? 56319).
Definition isTrailingSurrogate (c : N) : bool := (56320 <=? c) && (c <=? 57343).

Fixpoint quoteChars (s : jsstring) : jsstring :=
  match s with
  | [] => []
  | c :: rest =>
    if c =? 8 then [92; 98] ++ quoteChars rest
    else if c =? 9 then [92; 116] ++ quoteChars rest
    else if c =? 10 then [92; 110] ++ quoteChars rest
    else if c =? 12 then [92; 102] ++ quoteChars rest
    else if c =? 13 then [92; 114] ++ quoteChars rest
    else if c =? 34 then [92; 34] ++ quoteChars rest
    else if c =? 92 then [92; 92] ++ quoteChars rest
    else if c <? 32 then unicodeEscape c ++ quoteChars rest
    else if isLeadingSurrogate c then
      match rest with
      | d :: rest' =>
        if isTrailingSurrogate d then c :: d :: quoteChars rest'
        else unicodeEscape c ++ quoteChars rest
      | [] => unicodeEscape c
      end
    else if isTrailingSurrogate c then unicodeEscape c ++ quoteChars rest
    else c :: quoteChars rest
  end.

(** [QuoteJSONString] *)
Definition quoteJSONString (s : jsstring) : jsstring :=
  [34] ++ quoteChars s ++ [34].

(** [SerializeJSONProperty] with the given [gap], at the indentation
    [indent]. *)
Fixpoint serialize (gap indent : jsstring) (v : JsonValue) : jsstring :=
  match v with
  | JNull => u16 "null"
  | JBool true => u16 "true"
  | JBool false => u16 "false"
  | JNumber repr => repr
  | JString s => quoteJSONString s
  | JArray items =>
    let partial := map (serialize gap (indent ++ gap)) items in
    match partial, gap with
    | [], _ => u16 "[]"
    | _, [] => u16 "[" ++ join (u16 ",") partial ++ u16 "]"
    | _, _ =>
      u16 "[" ++ [10] ++ (indent ++ gap)
        ++ join (u16 "," ++ [10] ++ (indent ++ gap)) partial
        ++ [10] ++ indent ++ u16 "]"
    end
  | JObject members =>
    let partial :=
      map (λ '(k, x),
             quoteJSONString k ++ u16 ":"
               ++ match gap with [] => [] | _ => [32] end
               ++ serialize gap (indent ++ gap) x) members in
    match partial, gap with
    | [], _ => u16 "{}"
    | _, [] => u16 "{" ++ join (u16 ",") partial ++ u16 "}"
    | _, _ =>
      u16 "{" ++ [10] ++ (indent ++ gap)
        ++ join (u16 "," ++ [10] ++ (indent ++ gap)) partial
        ++ [10] ++ indent ++ u16 "}"
    end
  end.

(** [JSON.stringify(value, null, space)] for a numeric [space]: the gap is
    [space] blanks, at most ten. *)
Definition JSON_stringify (space : nat) (v : JsonValue) : jsstring :=
  serialize (replicate (space `min` 10) 32) [] v.

(** *** [isArrayOrObject] *)

(** Modelled from the spec: [isArrayOrObject] of [@/utils/json], whose
    source is not part of the repository files at hand.  Section 4.5: the
    final result must be "a composite (object/array) value"; scalars are
    rejected. *)
Definition isArrayOrObject (v : JsonValue) : bool :=
  match v with
  | JArray _ | JObject _ => true
  | _ => false
  end.

(** *** [sortJson] *)

Inductive SortOrder := asc | desc.

(** Lexicographic comparison of two strings, unit by unit. *)
Fixpoint compareStrings (a b : jsstring) : comparison :=
  match a, b with
  | [], [] => Eq
  | [], _ :: _ => Lt
  | _ :: _, [] => Gt
  | x :: a', y :: b' =>
    match x ?= y with
    | Eq => compareStrings a' b'
    | c => c
    end
  end.

(** [a] may stand before [b] in the given order. *)
Definition inOrder (order : SortOrder) (a b : jsstring) : bool :=
  match order, compareStrings a b with
  | asc, Gt => false
  | desc, Lt => false
  | _, _ => true
  end.

Fixpoint insertMember (order : SortOrder) (m : jsstring * JsonValue)
    (l : list (jsstring * JsonValue)) : list (jsstring * JsonValue) :=
  match l with
  | [] => [m]
  | x :: rest =>
    if inOrder order (fst m) (fst x) then m :: l
    else x :: insertMember order m rest
  end.

Definition sortMembers (order : SortOrder)
    (l : list (jsstring * JsonValue)) : list (jsstring * JsonValue) :=
  foldr (insertMember order) [] l.

(** Modelled from the spec: the key reordering of [sortJson] of
    [@/utils/json], whose source is not part of the repository files at
    hand.  Section 4.3: mapping nodes re-emit their keys sorted by
    lexicographic comparison of the key strings, recursing into each value;
    list nodes keep their element order, their elements being sorted
    internally; scalars pass through unchanged. *)
Fixpoint sortKeys (order : SortOrder) (v : JsonValue) : JsonValue :=
  match v with
  | JArray items => JArray (map (sortKeys order) items)
  | JObject members =>
    JObject (sortMembers order
               (map (λ '(k, x), (k, sortKeys order x)) members))
  | _ => v
  end.

(** Modelled from the spec: [sortJson] of [@/utils/json].  Section 4.3:
    [sortKeys(value, order) -> string], pretty-printed JSON text with a
    stable indentation whose width is a presentation choice; the width is
    the parameter [indent] here. *)
Definition sortJson (indent : nat) (jsonObj : JsonValue) (order : SortOrder)
    : jsstring :=
  JSON_stringify indent (sortKeys order jsonObj).

(** *** [removeJsonComments] *)

(** Where the scanner stands: in plain text, inside a string literal,
    right after a backslash inside a string literal, inside a [//] comment
    or inside a block comment. *)
Inductive ScanMode := Code | Str | StrEscape | LineComment | BlockComment.

(** Modelled from the spec: [removeJsonComments] of [@/utils/json], whose
    source is not part of the repository files at hand.  Section 4.4: it
    removes [//...] line comments and [/* ... */] block comments that are
    not inside string literals, tracking quote state and escape sequences
    while scanning, and leaves string contents untouched.  A line comment
    ends before the line break, which is kept. *)
Fixpoint scan (m : ScanMode) (s : jsstring) : jsstring :=
  match s with
  | [] => []
  | c :: rest =>
    match m with
    | Code =>
      if c =? 34 then c :: scan Str rest
      else if c =? 47 then
        match rest with
        | d :: rest' =>
          if d =? 47 then scan LineComment rest'
          else if d =? 42 then scan BlockComment rest'
          else c :: scan Code rest
        | [] => [c]
        end
      else c :: scan Code rest
    | Str =>
      if c =? 92 then c :: scan StrEscape rest
      else if c =? 34 then c :: scan Code rest
      else c :: scan Str rest
    | StrEscape => c :: scan Str rest
    | LineComment =>
      if (c =? 10) || (c =? 13) then c :: scan Code rest
      else scan LineComment rest
    | BlockComment =>
      if c =? 42 then
        match rest with
        | d :: rest' =>
          if d =? 47 then scan Code rest' else scan BlockComment rest
        | [] => []
        end
      else scan BlockComment rest
    end
  end.

(** Modelled from the spec: [removeJsonComments] of [@/utils/json], the
    [stripComments(text) -> string] of section 4.4: the scan of the whole
    text, which starts in plain text. *)
Definition removeJsonComments (text : jsstring) : jsstring := scan Code text.

(** The mode in which the text a scan has produced is read again: what a
    comment leaves behind is plain text. *)
Definition resume (m : ScanMode) : ScanMode :=
  match m with
  | LineComment | BlockComment => Code
  | _ => m
  end.

End Json.

(* ===================================================================== *)
(** ** The [MonacoJsonEditor] component *)
(* ===================================================================== *)

Module Editor.
Import Json.

(** [JsonErrorInfo] of [@/utils/json]: a message with a line and a column;
    line 0 stands for "no position". *)
Record JsonErrorInfo := mkJsonErrorInfo {
  message : jsstring;
  line : Z;
  column : Z;
}.

(** The libraries the component calls.  A function that throws returns
    [None]. *)
Class Platform := {
  (** [JSON.parse]; [None] is a [SyntaxError]. *)
  JSON_parse : jsstring → option JsonValue;
  (** [jsonrepair]; [None] is its [JSONRepairError]. *)
  jsonrepair : jsstring → option jsstring;
  (** [jsonParseError] and [json5ParseError] of [@/utils/json]; [None] is
      [undefined], the text is valid. *)
  jsonParseError : jsstring → option JsonErrorInfo;
  json5ParseError : jsstring → option JsonErrorInfo;
  (** The indentation [sortJson] prints with. *)
  sortIndent : nat;
}.

(** *** The Monaco editor *)

(** A text model: its content and its language.  The undo history of the
    widget is not modelled: the component pushes no undo stop, so how its
    edits are grouped into undo steps is the widget's matter. *)
Record TextModel := mkTextModel {
  value : jsstring;
  languageId : jsstring;
}.

Record CodeEditor := mkCodeEditor {
  model : option TextModel;
  (** the line last scrolled to the centre of the view *)
  revealedLine : option Z;
}.

(** [editor.getValue()]: an editor without a model has no text. *)
Definition getValue (ed : CodeEditor) : jsstring :=
  match model ed with
  | Some m => value m
  | None => []
  end.

(** Modelled from the spec: [replaceAll(text)] of the editing
    collaborator of section 6.  The whole content becomes [text] at once,
    and the language stays. *)
Definition replaceAll (text : jsstring) (m : TextModel) : TextModel :=
  {| value := text; languageId := languageId m |}.

Definition revealLineInCenter (lineNumber : Z) (ed : CodeEditor)
    : CodeEditor :=
  {| model := model ed; revealedLine := Some lineNumber |}.

(** *** Notifications and timers *)

Inductive ToastKind := ToastSuccess | ToastError | ToastWarning.

Record Toast := mkToast {
  kind : ToastKind;
  text : jsstring;
}.

(** What a pending timer runs: the debounced validation of the text its
    closure captured, or the removal of the error-line highlight. *)
Inductive Task :=
| ValidateTask (val : jsstring)
| ClearErrorDecorations.

Record Timer := mkTimer {
  tid : N;
  due : N;
  task : Task;
}.

(** *** The component state *)

Record State := mkState {
  (** [editorRef.current] *)
  editorRef : option CodeEditor;
  (** the [parseJsonError] React state *)
  parseJsonError : option JsonErrorInfo;
  (** [isOpen] of the error-details dialog *)
  jsonErrorDetailsModel : bool;
  (** [parseJsonErrorTimeoutRef.current] *)
  parseJsonErrorTimeoutRef : option N;
  (** [errorDecorationsRef.current]: the lines the collection highlights *)
  errorDecorationsRef : option (list Z);
  (** the clock, in milliseconds *)
  now : N;
  (** the pending timers, in creation order *)
  timers : list Timer;
  nextTimerId : N;
  (** the notifications shown, most recent first *)
  toasts : list Toast;
  (** the texts handed to [onUpdateValue], most recent first *)
  updates : list jsstring;
}.

Definition set_editorRef (x : option CodeEditor) (s : State) : State :=
  mkState x (parseJsonError s) (jsonErrorDetailsModel s)
    (parseJsonErrorTimeoutRef s) (errorDecorationsRef s) (now s) (timers s)
    (nextTimerId s) (toasts s) (updates s).

Definition setParseJsonError (x : option JsonErrorInfo) (s : State) : State :=
  mkState (editorRef s) x (jsonErrorDetailsModel s)
    (parseJsonErrorTimeoutRef s) (errorDecorationsRef s) (now s) (timers s)
    (nextTimerId s) (toasts s) (updates s).

Definition set_jsonErrorDetailsModel (x : bool) (s : State) : State :=
  mkState (editorRef s) (parseJsonError s) x
    (parseJsonErrorTimeoutRef s) (errorDecorationsRef s) (now s) (timers s)
    (nextTimerId s) (toasts s) (updates s).

Definition set_parseJsonErrorTimeoutRef (x : option N) (s : State) : State :=
  mkState (editorRef s) (parseJsonError s) (jsonErrorDetailsModel s)
    x (errorDecorationsRef s) (now s) (timers s)
    (nextTimerId s) (toasts s) (updates s).

Definition set_errorDecorationsRef (x : option (list Z)) (s : State) : State :=
  mkState (editorRef s) (parseJsonError s) (jsonErrorDetailsModel s)
    (parseJsonErrorTimeoutRef s) x (now s) (timers s)
    (nextTimerId s) (toasts s) (updates s).

Definition set_now (x : N) (s : State) : State :=
  mkState (editorRef s) (parseJsonError s) (jsonErrorDetailsModel s)
    (parseJsonErrorTimeoutRef s) (errorDecorationsRef s) x (timers s)
    (nextTimerId s) (toasts s) (updates s).

Definition set_timers (x : list Timer) (s : State) : State :=
  mkState (editorRef s) (parseJsonError s) (jsonErrorDetailsModel s)
    (parseJsonErrorTimeoutRef s) (errorDecorationsRef s) (now s) x
    (nextTimerId s) (toasts s) (updates s).

Definition set_nextTimerId (x : N) (s : State) : State :=
  mkState (editorRef s) (parseJsonError s) (jsonErrorDetailsModel s)
    (parseJsonErrorTimeoutRef s) (errorDecorationsRef s) (now s) (timers s)
    x (toasts s) (updates s).

(** [toast.success], [toast.error], [toast.warning] *)
Definition toast (k : ToastKind) (msg : jsstring) (s : State) : State :=
  mkState (editorRef s) (parseJsonError s) (jsonErrorDetailsModel s)
    (parseJsonErrorTimeoutRef s) (errorDecorationsRef s) (now s) (timers s)
    (nextTimerId s) ({| kind := k; text := msg |} :: toasts s) (updates s).

(** The [onUpdateValue] property: the parent is handed the text. *)
Definition onUpdateValue (val : jsstring) (s : State) : State :=
  mkState (editorRef s) (parseJsonError s) (jsonErrorDetailsModel s)
    (parseJsonErrorTimeoutRef s) (errorDecorationsRef s) (now s) (timers s)
    (nextTimerId s) (toasts s) (val :: updates s).

(** [onOpen] and [onClose] of the disclosure of the error-details dialog *)
Definition openJsonErrorDetailsModel (s : State) : State :=
  set_jsonErrorDetailsModel true s.

Definition closeJsonErrorDetailsModel (s : State) : State :=
  set_jsonErrorDetailsModel false s.

(** [setTimeout(task, delay)]: the identifier handed back is fresh. *)
Definition setTimeout (t : Task) (delay : N) (s : State) : N * State :=
  (nextTimerId s,
   set_nextTimerId (nextTimerId s + 1)
     (set_timers
        (timers s ++ [{| tid := nextTimerId s; due := now s + delay;
                         task := t |}]) s)).

(** [clearTimeout(id)] *)
Definition clearTimeout (id : N) (s : State) : State :=
  set_timers (filter (λ tm, tid tm ≠ id) (timers s)) s.

(** [editorRef.current?.getModel()?.getLanguageId()] *)
Definition currentLanguageId (s : State) : option jsstring :=
  match editorRef s with
  | Some ed => languageId <$> model ed
  | None => None
  end.

(** The messages of the notifications. *)
Definition msgNoContent : jsstring := [26242; 26080; 20869; 23481].
Definition msgRepaired : jsstring := [20462; 22797; 25104; 21151].
Definition msgRepairFailed : jsstring :=
  [20462; 22797; 22833; 36133; 65292; 21487; 33021; 19981; 26159; 26377;
   25928; 30340; 32; 74; 115; 111; 110; 32; 25968; 25454].
Definition msgLocateFailed : jsstring :=
  [19968; 38190; 23450; 20301; 22833; 36133].
Definition msgLocated : jsstring :=
  [19968; 38190; 23450; 20301; 25104; 21151].
Definition msgNoData : jsstring := [26242; 26080; 25968; 25454].
Definition msgNotJson : jsstring :=
  [19981; 26159; 26377; 25928; 30340; 32; 74; 83; 79; 78; 32; 25968; 25454;
   65292; 26080; 27861; 36827; 34892; 35299; 30721; 25805; 20316].
Definition msgNotEscaped : jsstring :=
  [19981; 26159; 26377; 25928; 30340; 36716; 20041; 32; 74; 83; 79; 78; 32;
   23383; 31526; 20018; 65292; 26080; 27861; 36827; 34892; 35299; 30721;
   25805; 20316].

(** What a call leaves behind: it returns, or an exception escapes it. *)
Inductive Outcome (A : Type) :=
| Returned (result : A) (s : State)
| Thrown (s : State).
Arguments Returned {A} result s.
Arguments Thrown {A} s.

Inductive MoreActionKey := unescape | del_comment.

(** *** Debouncing: the vocabulary *)

Definition isValidation (t : Task) : Prop :=
  match t with
  | ValidateTask _ => True
  | ClearErrorDecorations => False
  end.

#[export] Instance isValidation_dec (t : Task) : Decision (isValidation t).
Proof. destruct t; simpl; apply _. Defined.

(** The validations waiting in the timer queue. *)
Definition pendingValidations (s : State) : list Timer :=
  filter (λ tm, isValidation (task tm)) (timers s).

(** The validations among the tasks that ran. *)
Definition validations (ran : list Task) : list Task :=
  filter isValidation ran.

(** The editor is mounted on a JSON or JSON5 buffer. *)
Definition jsonBuffer (s : State) : Prop :=
  ∃ ed m, editorRef s = Some ed ∧ model ed = Some m ∧
    (languageId m = u16 "json" ∨ languageId m = u16 "json5").

(** Timer identifiers are positive and below the next one to hand out, as
    [setTimeout] makes them, and a waiting validation is the one
    [parseJsonErrorTimeoutRef] refers to. *)
Definition debounced (s : State) : Prop :=
  0 < nextTimerId s ∧
  ∀ tm, tm ∈ timers s →
    0 < tid tm < nextTimerId s ∧
    (isValidation (task tm) → parseJsonErrorTimeoutRef s = Some (tid tm)).

(** Everything in the state but the editor and the parse error is the
    same. *)
Definition same_outside_buffer (s s' : State) : Prop :=
  jsonErrorDetailsModel s' = jsonErrorDetailsModel s ∧
  parseJsonErrorTimeoutRef s' = parseJsonErrorTimeoutRef s ∧
  errorDecorationsRef s' = errorDecorationsRef s ∧
  now s' = now s ∧ timers s' = timers s ∧ nextTimerId s' = nextTimerId s ∧
  toasts s' = toasts s ∧ updates s' = updates s.

(** The delay a task is scheduled with. *)
Definition delay (t : Task) : N :=
  match t with
  | ValidateTask _ => 1000
  | ClearErrorDecorations => 5000
  end.

(** At most one validation is waiting, and every waiting timer is due
    after [now], within the delay its task was scheduled with. *)
Definition scheduled (s : State) : Prop :=
  (length (pendingValidations s) ≤ 1)%nat ∧
  ∀ tm, tm ∈ timers s → now s < due tm ≤ now s + delay (task tm).



Section Component.
Context {P : Platform}.

(** Validates the editor content. *)
Definition editorValueValidate (val : jsstring) (s : State) : bool * State :=
  match trim val with
  | [] => (true, setParseJsonError None s)
  | _ =>
    let jsonErr :=
      if decide (currentLanguageId s = Some (u16 "json5"))
      then json5ParseError val
      else jsonParseError val in
    match jsonErr with
    | Some e => (false, setParseJsonError (Some e) s)
    | None => (true, setParseJsonError None s)
    end
  end.

(** The listener registered with [editor.onDidChangeModelContent]. *)
Definition onDidChangeModelContent (s : State) : State :=
  match editorRef s with
  | None => s
  | Some ed =>
    let val := getValue ed in
    let languageId := currentLanguageId s in
    let s1 :=
      if decide (languageId = Some (u16 "json")
                 ∨ languageId = Some (u16 "json5"))
      then
        let s2 :=
          match parseJsonErrorTimeoutRef s with
          | Some id => if id =? 0 then s else clearTimeout id s
          | None => s
          end in
        let '(id, s3) := setTimeout (ValidateTask val) 1000 s2 in
        set_parseJsonErrorTimeoutRef (Some id) s3
      else s in
    onUpdateValue val s1
  end.

(** The content of the model has become [text], and the content listener
    runs. *)
Definition changeContent (ed : CodeEditor) (m : TextModel) (text : jsstring)
    (s : State) : State :=
  onDidChangeModelContent
    (set_editorRef
       (Some {| model := Some (replaceAll text m);
                revealedLine := revealedLine ed |}) s).

(** [editor.executeEdits] with one edit over the full range of the model.
    Modelled from the spec: the collaborator of section 6 replaces the
    whole text in one step and notifies the content listener of the
    change.  The full range of an empty model is empty, and an edit that
    puts the empty text in an empty range is no edit: the widget drops it,
    nothing changes and no listener runs.  The line ends of [text] are
    taken to be those of the model. *)
Definition executeEdits (ed : CodeEditor) (m : TextModel) (text : jsstring)
    (s : State) : State :=
  match value m, text with
  | [], [] => s
  | _, _ => changeContent ed m text s
  end.

(** [setEditorValue]: one edit over the full range of the model, made
    through [executeEdits]. *)
Definition setEditorValue (jsonText : jsstring) (s : State) : State :=
  match editorRef s with
  | None => s
  | Some ed =>
    match model ed with
    | None => s
    | Some m => executeEdits ed m jsonText s
    end
  end.

(** Highlights the error line. *)
Definition highlightErrorLine (lineNumber : Z) (s : State) : bool * State :=
  match editorRef s with
  | None => (false, s)
  | Some ed =>
    let s1 := set_editorRef (Some (revealLineInCenter lineNumber ed)) s in
    let s2 :=
      match errorDecorationsRef s1 with
      | Some _ => set_errorDecorationsRef (Some []) s1
      | None => s1
      end in
    let s3 := set_errorDecorationsRef (Some [lineNumber]) s2 in
    let '(_, s4) := setTimeout ClearErrorDecorations 5000 s3 in
    (true, s4)
  end.

(** Jumps to the error line. *)
Definition goToErrorLine (s : State) : State :=
  match parseJsonError s with
  | None => toast ToastError msgLocateFailed s
  | Some e =>
    if (line e <=? 0)%Z then toast ToastError msgLocateFailed s
    else
      let s1 := closeJsonErrorDetailsModel s in
      let '(_, s2) := highlightErrorLine (line e) s1 in
      toast ToastSuccess msgLocated s2
  end.

Definition autoFix (s : State) : bool * State :=
  let jsonText :=
    match editorRef s with
    | Some ed => or_else (getValue ed) []
    | None => []
    end in
  match jsonText with
  | [] => (false, toast ToastWarning msgNoContent s)
  | _ =>
    match jsonrepair jsonText with
    | Some repaired =>
      let s1 := setEditorValue repaired s in
      let s2 := closeJsonErrorDetailsModel s1 in
      let s3 := setParseJsonError None s2 in
      (true, toast ToastSuccess msgRepaired s3)
    | None => (false, toast ToastError msgRepairFailed s)
    end
  end.

(** Decodes escaped JSON; the empty message means success. *)
Definition formatModelByUnEscapeJson (jsonText : jsstring) (s : State)
    : jsstring * State :=
  match jsonText with
  | [] => (msgNoData, s)
  | _ =>
    let jsonStr := [34] ++ jsonText ++ [34] in
    match JSON_parse jsonStr with
    | None => (msgNotEscaped, s)
    | Some unescapedJson =>
      match JSON_parse (ToString unescapedJson) with
      | None => (msgNotEscaped, s)
      | Some unescapedJsonObject =>
        if negb (isArrayOrObject unescapedJsonObject) then (msgNotJson, s)
        else ([], setEditorValue (JSON_stringify 4 unescapedJsonObject) s)
      end
    end
  end.

Definition fieldSort (type : SortOrder) (s : State) : Outcome bool :=
  match editorRef s with
  | None => Returned false s
  | Some ed =>
    let val := getValue ed in
    let '(isValid, s1) := editorValueValidate val s in
    if negb isValid then Returned false s1
    else
      match JSON_parse val with
      | None => Thrown s1
      | Some jsonObj =>
        Returned true (setEditorValue (sortJson sortIndent jsonObj type) s1)
      end
  end.

Definition moreAction (key : MoreActionKey) (s : State) : bool * State :=
  match editorRef s with
  | None => (false, s)
  | Some ed =>
    let val := getValue ed in
    match key with
    | unescape =>
      let '(errorMsg, s1) := formatModelByUnEscapeJson val s in
      match errorMsg with
      | [] => (true, s1)
      | _ => (false, toast ToastError errorMsg s1)
      end
    | del_comment => (true, setEditorValue (removeJsonComments val) s)
    end
  end.

(** *** The event loop *)

(** What a timer does when it fires. *)
Definition runTask (t : Task) (s : State) : State :=
  match t with
  | ValidateTask val => snd (editorValueValidate val s)
  | ClearErrorDecorations =>
    match errorDecorationsRef s with
    | Some _ => set_errorDecorationsRef (Some []) s
    | None => s
    end
  end.

(** Timers fire by due time, and in creation order when due together. *)
Fixpoint insertTimer (tm : Timer) (l : list Timer) : list Timer :=
  match l with
  | [] => [tm]
  | x :: rest =>
    if decide (due tm ≤ due x) then tm :: l else x :: insertTimer tm rest
  end.

Definition sortTimers (l : list Timer) : list Timer := foldr insertTimer [] l.

Definition fire (s : State) (tm : Timer) : State :=
  runTask (task tm) (set_now (due tm) s).

(** [dt] milliseconds pass: the timers due by then leave the queue and
    fire in order.  No task of the component sets or clears a timer, so the
    timers to fire are known when the time starts to pass.  The result is
    the tasks run, in order, and the state reached. *)
Definition advance (dt : N) (s : State) : list Task * State :=
  let target := now s + dt in
  let ready := sortTimers (filter (λ tm, due tm ≤ target) (timers s)) in
  let waiting := filter (λ tm, ¬ due tm ≤ target) (timers s) in
  (task <$> ready, set_now target (foldl fire (set_timers waiting s) ready)).

(** A content change: the model holds [text], and the listener runs. *)
Definition contentChange (text : jsstring) (s : State) : State :=
  match editorRef s with
  | None => s
  | Some ed =>
    match model ed with
    | None => s
    | Some m => changeContent ed m text s
    end
  end.

(** A burst of content changes, each one [gap] milliseconds after the
    previous event.  The result is the tasks run meanwhile and the state
    after the last change. *)
Fixpoint burst (events : list (N * jsstring)) (s : State)
    : list Task * State :=
  match events with
  | [] => ([], s)
  | (gap, text) :: rest =>
    let '(ran, s1) := advance gap s in
    let '(ran', s2) := burst rest (contentChange text s1) in
    (ran ++ ran', s2)
  end.

(** *** The component as a state machine *)

(** What [initializeEditor] does once: it creates the editor on the text
    and the language the component was given, and registers the content
    listener. *)
Definition initializeEditor (value language : jsstring) (s : State) : State :=
  match editorRef s with
  | Some _ => s
  | None =>
    set_editorRef
      (Some {| model := Some {| value := or_else value [];
                                languageId := or_else language (u16 "json") |};
               revealedLine := None |}) s
  end.

(** What can happen to the component: it is mounted, the content changes,
    time passes, the user opens the error details, or one of the operations
    is called. *)
Inductive Action :=
| Mount (value language : jsstring)
| Edit (text : jsstring)
| Wait (dt : N)
| OpenDetails
| GoToErrorLine
| AutoFix
| FieldSort (type : SortOrder)
| MoreAction (key : MoreActionKey).

Definition perform (a : Action) (s : State) : State :=
  match a with
  | Mount value language => initializeEditor value language s
  | Edit text => contentChange text s
  | Wait dt => (advance dt s).2
  | OpenDetails => openJsonErrorDetailsModel s
  | GoToErrorLine => goToErrorLine s
  | AutoFix => (autoFix s).2
  | FieldSort type =>
    match fieldSort type s with
    | Returned _ s' => s'
    | Thrown s' => s'
    end
  | MoreAction key => (moreAction key s).2
  end.

(** The component before its first render has finished. *)
Definition initialState : State :=
  {| editorRef := None;
     parseJsonError := None;
     jsonErrorDetailsModel := false;
     parseJsonErrorTimeoutRef := None;
     errorDecorationsRef := None;
     now := 0; timers := []; nextTimerId := 1;
     toasts := []; updates := [] |}.

Inductive reachableState : State → Prop :=
| reachableState_initial : reachableState initialState
| reachableState_perform a s :
    reachableState s → reachableState (perform a s).

(** The timers are in order, and before the editor is mounted there is
    neither a timer nor a parse error. *)
Definition consistent (s : State) : Prop :=
  debounced s ∧
  (editorRef s = None → timers s = [] ∧ parseJsonError s = None).

(** *** More of the handle the component exposes *)

Definition updateValue (value : jsstring) (s : State) : State :=
  setEditorValue value s.

Definition validate (s : State) : bool * State :=
  match editorRef s with
  | None => (false, s)
  | Some ed =>
    let val := getValue ed in
    match trim val with
    | [] => (true, s)
    | _ => editorValueValidate val s
    end
  end.

Definition clear (s : State) : bool * State :=
  match editorRef s with
  | Some _ => (true, setEditorValue [] s)
  | None => (false, s)
  end.

End Component.

(** *** Copying to the clipboard *)

(** The [type] argument of [copy]. *)
Module CopyType.
Inductive t := default | compress | escape.
End CopyType.

Section Clipboard.
Context {P : Platform}.
(** [escapeJson] of [@/utils/json] *)
Variable escapeJson : jsstring → jsstring.

(** [copy(type)]; [None] is a call without [type].  Next to the answer,
    the result holds the text [copyText] wrote to the clipboard, if it was
    called. *)
Definition copy (type : option CopyType.t) (s : State)
    : Outcome (bool * option jsstring) :=
  match editorRef s with
  | None => Returned (false, None) s
  | Some ed =>
    let val := getValue ed in
    match type with
    | None | Some CopyType.default => Returned (true, Some val) s
    | Some type =>
      match trim val with
      | [] => Returned (false, None) (toast ToastWarning msgNoContent s)
      | _ =>
        let '(isValid, s1) := editorValueValidate val s in
        if negb isValid then Returned (false, None) s1
        else
          match type with
          | CopyType.compress =>
            match JSON_parse val with
            | None => Thrown s1
            | Some jsonObj =>
              let compressed := JSON_stringify 0 jsonObj in
              Returned (true, Some compressed) (setEditorValue compressed s1)
            end
          | CopyType.escape => Returned (true, Some (escapeJson val)) s1
          | CopyType.default => Returned (true, Some val) s1
          end
      end
    end
  end.

End Clipboard.

End Editor.

(* ===================================================================== *)
(** ** The diff editor component ([MonacoDiffEditor]) *)
(* ===================================================================== *)

Module DiffEditor.
Import Json Editor.

(** [MonacoDiffEditorEditorType]: the members the component names;
    [other] is any value its [switch] statements send to [default]. *)
Inductive MonacoDiffEditorEditorType := left | right | all | other.

(** The two references to a code editor that the component passes to its
    helpers: [originalEditorRef] and [modifiedEditorRef]. *)
Inductive Side := Original | Modified.

Record State := mkState {
  (** [editorContainerRef.current] is set *)
  editorContainerRef : bool;
  (** [editorRef.current] is set: the diff editor exists *)
  editorRef : bool;
  (** [originalEditorRef.current] and [modifiedEditorRef.current] *)
  originalEditorRef : option CodeEditor;
  modifiedEditorRef : option CodeEditor;
  (** the optional [onUpdateModifiedValue] property is given *)
  onUpdateModifiedValue : bool;
  (** the notifications shown, most recent first *)
  toasts : list Toast;
  (** what [navigator.clipboard.writeText] wrote last *)
  clipboard : option jsstring;
  (** the texts handed to [onUpdateOriginalValue] and to
      [onUpdateModifiedValue], most recent first *)
  originalUpdates : list jsstring;
  modifiedUpdates : list jsstring;
}.

(** [ref.current] *)
Definition current (r : Side) (s : State) : option CodeEditor :=
  match r with
  | Original => originalEditorRef s
  | Modified => modifiedEditorRef s
  end.

Definition set_current (r : Side) (x : option CodeEditor) (s : State)
    : State :=
  match r with
  | Original =>
    mkState (editorContainerRef s) (editorRef s) x (modifiedEditorRef s)
      (onUpdateModifiedValue s) (toasts s) (clipboard s)
      (originalUpdates s) (modifiedUpdates s)
  | Modified =>
    mkState (editorContainerRef s) (editorRef s) (originalEditorRef s) x
      (onUpdateModifiedValue s) (toasts s) (clipboard s)
      (originalUpdates s) (modifiedUpdates s)
  end.

Definition toast (k : ToastKind) (msg : jsstring) (s : State) : State :=
  mkState (editorContainerRef s) (editorRef s) (originalEditorRef s)
    (modifiedEditorRef s) (onUpdateModifiedValue s)
    ({| kind := k; text := msg |} :: toasts s) (clipboard s)
    (originalUpdates s) (modifiedUpdates s).

(** [copyText] *)
Definition copyText (val : jsstring) (s : State) : State :=
  mkState (editorContainerRef s) (editorRef s) (originalEditorRef s)
    (modifiedEditorRef s) (onUpdateModifiedValue s) (toasts s) (Some val)
    (originalUpdates s) (modifiedUpdates s).

(** The [onUpdateOriginalValue] property. *)
Definition onUpdateOriginalValue (val : jsstring) (s : State) : State :=
  mkState (editorContainerRef s) (editorRef s) (originalEditorRef s)
    (modifiedEditorRef s) (onUpdateModifiedValue s) (toasts s) (clipboard s)
    (val :: originalUpdates s) (modifiedUpdates s).

(** [onUpdateModifiedValue && onUpdateModifiedValue(val)] *)
Definition callOnUpdateModifiedValue (val : jsstring) (s : State) : State :=
  if onUpdateModifiedValue s then
    mkState (editorContainerRef s) (editorRef s) (originalEditorRef s)
      (modifiedEditorRef s) (onUpdateModifiedValue s) (toasts s) (clipboard s)
      (originalUpdates s) (val :: modifiedUpdates s)
  else s.

Definition msgSortFailed : jsstring :=
  [74; 83; 79; 78; 26684; 24335; 38169; 35823; 65292; 35831; 26816; 26597;
   21518; 37325; 35797].
Definition msgSorted : jsstring := [25490; 24207; 25104; 21151].
Definition msgCleared : jsstring := [28165; 31354; 25104; 21151].
Definition msgCopied : jsstring := [22797; 21046; 25104; 21151].

(** What a call leaves behind: it returns, or an exception escapes it. *)
Inductive Outcome (A : Type) :=
| Returned (result : A) (s : State)
| Thrown (s : State).
Arguments Returned {A} result s.
Arguments Thrown {A} s.

Definition resultOf {A} (o : Outcome A) : option A :=
  match o with
  | Returned result _ => Some result
  | Thrown _ => None
  end.

Definition stateOf {A} (o : Outcome A) : State :=
  match o with
  | Returned _ s => s
  | Thrown s => s
  end.

(** The listeners the component registers on the two editors; each runs
    on the editor it is registered on. *)
Definition onDidChangeModelContent (r : Side) (s : State) : State :=
  match current r s with
  | None => s
  | Some ed =>
    match r with
    | Original => onUpdateOriginalValue (getValue ed) s
    | Modified => callOnUpdateModifiedValue (getValue ed) s
    end
  end.

(** The content of the model of the side [r] has become [text], and the
    listener of that side runs. *)
Definition changeContent (r : Side) (ed : CodeEditor) (m : TextModel)
    (text : jsstring) (s : State) : State :=
  onDidChangeModelContent r
    (set_current r
       (Some {| model := Some (replaceAll text m);
                revealedLine := revealedLine ed |}) s).

(** [editor.executeEdits] with one edit over the full range of the model.
    Modelled from the spec: the collaborator of section 6 replaces the
    whole text in one step and notifies the content listener of the
    change.  An edit that puts the empty text in the empty range of an
    empty model is no edit: the widget drops it, nothing changes and no
    listener runs.  The line ends of [text] are taken to be those of the
    model. *)
Definition executeEdits (r : Side) (ed : CodeEditor) (m : TextModel)
    (text : jsstring) (s : State) : State :=
  match value m, text with
  | [], [] => s
  | _, _ => changeContent r ed m text s
  end.

(** [setEditorValue(ref.current, jsonText)] *)
Definition setEditorValue (r : Side) (jsonText : jsstring) (s : State)
    : State :=
  match current r s with
  | None => s
  | Some ed =>
    match model ed with
    | None => s
    | Some m => executeEdits r ed m jsonText s
    end
  end.

Definition clearEditor (r : Side) (s : State) : State :=
  setEditorValue r [] s.

Definition updateOriginalValue (value : jsstring) (s : State) : State :=
  setEditorValue Original value s.

Definition updateModifiedValue (value : jsstring) (s : State) : State :=
  setEditorValue Modified value s.

(** Once the loader is ready, the callback of [createDiffEditor] runs in
    three steps when the container is there.  First the diff editor is
    made, and [editorRef] refers to it. *)
Definition createEditor (s : State) : State :=
  mkState (editorContainerRef s) true (originalEditorRef s)
    (modifiedEditorRef s) (onUpdateModifiedValue s) (toasts s)
    (clipboard s) (originalUpdates s) (modifiedUpdates s).

(** Then the [onMount] of the parent runs, when it is given.  Last, when
    [onMount] is absent or has returned, the two models are made and set,
    [originalEditorRef] and [modifiedEditorRef] come to refer to the two
    editors of the diff editor, and the content listeners are registered on
    them. *)
Definition setModels (originalValue modifiedValue language : jsstring)
    (s : State) : State :=
  let created (value : jsstring) :=
    Some {| model := Some {| value := value;
                             languageId := or_else language (u16 "json") |};
            revealedLine := None |} in
  mkState (editorContainerRef s) (editorRef s) (created originalValue)
    (created modifiedValue) (onUpdateModifiedValue s) (toasts s)
    (clipboard s) (originalUpdates s) (modifiedUpdates s).

(** The whole callback for a parent that gives no [onMount], or one whose
    [onMount] leaves the component alone and returns. *)
Definition createDiffEditor (originalValue modifiedValue language : jsstring)
    (s : State) : State :=
  if editorContainerRef s
  then setModels originalValue modifiedValue language (createEditor s)
  else s.

Definition copy (type : MonacoDiffEditorEditorType) (s : State)
    : Outcome bool :=
  if negb (editorRef s) then Returned false s
  else
    let finish (val : jsstring) :=
      Returned true (toast ToastSuccess msgCopied (copyText val s)) in
    match type with
    | left =>
      match originalEditorRef s with
      | Some ed => finish (getValue ed)
      | None => Thrown s
      end
    | right =>
      match modifiedEditorRef s with
      | Some ed => finish (getValue ed)
      | None => Thrown s
      end
    | _ => finish []
    end.

Definition clear (type : MonacoDiffEditorEditorType) (s : State)
    : bool * State :=
  if negb (editorRef s) then (false, s)
  else
    match type with
    | left => (true, toast ToastSuccess msgCleared (clearEditor Original s))
    | right => (true, toast ToastSuccess msgCleared (clearEditor Modified s))
    | all =>
      (true, toast ToastSuccess msgCleared
               (clearEditor Modified (clearEditor Original s)))
    | other => (false, s)
    end.

(** The fields of the state that belong to neither editor. *)
Definition same_shell (s s' : State) : Prop :=
  editorContainerRef s' = editorContainerRef s ∧
  editorRef s' = editorRef s ∧
  onUpdateModifiedValue s' = onUpdateModifiedValue s ∧
  toasts s' = toasts s ∧ clipboard s' = clipboard s.

(** The side [r] of the state: its editor and what its parent was told. *)
Definition side (r : Side) (s : State) : option CodeEditor * list jsstring :=
  match r with
  | Original => (originalEditorRef s, originalUpdates s)
  | Modified => (modifiedEditorRef s, modifiedUpdates s)
  end.

Definition opposite (r : Side) : Side :=
  match r with Original => Modified | Modified => Original end.

Section Component.
Context {P : Platform}.

(** [editorRef.current!.getValue()] throws on a reference that is not set;
    the exceptions of [JSON.parse] are caught. *)
Definition sortEditor (r : Side) (sort : SortOrder) (s : State)
    : Outcome bool :=
  match current r s with
  | None => Thrown s
  | Some ed =>
    let val := getValue ed in
    match val with
    | [] => Returned false s
    | _ =>
      match JSON_parse val with
      | Some jsonObj =>
        Returned true (setEditorValue r (sortJson sortIndent jsonObj sort) s)
      | None => Returned false s
      end
    end
  end.

Definition fieldSort (type : MonacoDiffEditorEditorType) (sort : SortOrder)
    (s : State) : Outcome bool :=
  if negb (editorRef s) then Returned false s
  else
    let finish (sorted : Outcome bool) :=
      match sorted with
      | Thrown s' => Thrown s'
      | Returned ok s' =>
        if negb ok then Returned false (toast ToastError msgSortFailed s')
        else Returned true (toast ToastSuccess msgSorted s')
      end in
    match type with
    | left => finish (sortEditor Original sort s)
    | right => finish (sortEditor Modified sort s)
    | all =>
      match sortEditor Original sort s with
      | Thrown s' => Thrown s'
      | Returned _ s' => finish (sortEditor Modified sort s')
      end
    | other => Returned false s
    end.

(** *** The component as a state machine *)

(** The creation of the diff editor is one action for a parent whose
    [onMount] is absent or leaves the component alone.  For any other
    parent it is two: [CreateEditor] is the callback up to the call of
    [onMount], and [SetModels] the rest of that callback, which runs when
    [onMount] has returned.  What [onMount] does to the component, it does
    through the handle: these are the actions between the two.  When
    [onMount] throws, no [SetModels] follows. *)
Inductive Action :=
| Create (originalValue modifiedValue language : jsstring)
| CreateEditor
| SetModels (originalValue modifiedValue language : jsstring)
| UpdateOriginalValue (value : jsstring)
| UpdateModifiedValue (value : jsstring)
| Copy (type : MonacoDiffEditorEditorType)
| Clear (type : MonacoDiffEditorEditorType)
| FieldSort (type : MonacoDiffEditorEditorType) (sort : SortOrder).

Definition perform (a : Action) (s : State) : State :=
  match a with
  | Create originalValue modifiedValue language =>
    createDiffEditor originalValue modifiedValue language s
  | CreateEditor => if editorContainerRef s then createEditor s else s
  | SetModels originalValue modifiedValue language =>
    if editorRef s then setModels originalValue modifiedValue language s
    else s
  | UpdateOriginalValue value => updateOriginalValue value s
  | UpdateModifiedValue value => updateModifiedValue value s
  | Copy type => stateOf (copy type s)
  | Clear type => (clear type s).2
  | FieldSort type sort => stateOf (fieldSort type sort s)
  end.

(** The component once it is rendered, before the editor is created;
    [callback] tells whether [onUpdateModifiedValue] is given. *)
Definition initialState (callback : bool) : State :=
  {| editorContainerRef := true; editorRef := false;
     originalEditorRef := None; modifiedEditorRef := None;
     onUpdateModifiedValue := callback; toasts := []; clipboard := None;
     originalUpdates := []; modifiedUpdates := [] |}.

Inductive reachableState : State → Prop :=
| reachableState_initial callback : reachableState (initialState callback)
| reachableState_perform a s :
    reachableState s → reachableState (perform a s).

(** The references to the two editors are set together, each to an editor
    with a model, and only once the diff editor exists. *)
Definition paired (s : State) : Prop :=
  (originalEditorRef s = None ∧ modifiedEditorRef s = None) ∨
  (editorRef s = true ∧
   ∃ edL mL edR mR,
     originalEditorRef s = Some edL ∧ model edL = Some mL ∧
     modifiedEditorRef s = Some edR ∧ model edR = Some mR).

End Component.

End DiffEditor.

(* ===================================================================== *)
(** ** The operation bar ([MonacoOperationBar]) *)
(* ===================================================================== *)

Module OperationBar.
Import Json Editor.

(** [IconStatus]: the members the bar names. *)
Inductive IconStatus := Default | Success | Error.

(** What a pending timer of the bar runs. *)
Inductive Task :=
| CloseSortDropdown
| CloseMoreDropdown
| ResetCopyStatus
| ResetFormatStatus
| ResetClearStatus.

#[export] Instance Task_eq_dec : EqDecision Task.
Proof. solve_decision. Defined.

Record Timer := mkTimer {
  tid : N;
  due : N;
  task : Task;
}.

Record State := mkState {
  isCopyDropdownOpen : bool;
  isSortDropdownOpen : bool;
  isMoreDropdownOpen : bool;
  copyStatus : IconStatus;
  formatStatus : IconStatus;
  clearStatus : IconStatus;
  (** [sortDropdownOpenTimeoutRef.current] and
      [moreDropdownOpenTimeoutRef.current] *)
  sortDropdownOpenTimeoutRef : option N;
  moreDropdownOpenTimeoutRef : option N;
  (** the clock, in milliseconds *)
  now : N;
  (** the pending timers, in creation order *)
  timers : list Timer;
  nextTimerId : N;
  (** the notifications shown, most recent first *)
  toasts : list Toast;
}.

Definition setIsCopyDropdownOpen (x : bool) (s : State) : State :=
  mkState x (isSortDropdownOpen s) (isMoreDropdownOpen s) (copyStatus s)
    (formatStatus s) (clearStatus s) (sortDropdownOpenTimeoutRef s)
    (moreDropdownOpenTimeoutRef s) (now s) (timers s) (nextTimerId s)
    (toasts s).

Definition setSortDropdownOpen (x : bool) (s : State) : State :=
  mkState (isCopyDropdownOpen s) x (isMoreDropdownOpen s) (copyStatus s)
    (formatStatus s) (clearStatus s) (sortDropdownOpenTimeoutRef s)
    (moreDropdownOpenTimeoutRef s) (now s) (timers s) (nextTimerId s)
    (toasts s).

Definition setMoreDropdownOpen (x : bool) (s : State) : State :=
  mkState (isCopyDropdownOpen s) (isSortDropdownOpen s) x (copyStatus s)
    (formatStatus s) (clearStatus s) (sortDropdownOpenTimeoutRef s)
    (moreDropdownOpenTimeoutRef s) (now s) (timers s) (nextTimerId s)
    (toasts s).

Definition setCopyStatus (x : IconStatus) (s : State) : State :=
  mkState (isCopyDropdownOpen s) (isSortDropdownOpen s)
    (isMoreDropdownOpen s) x (formatStatus s) (clearStatus s)
    (sortDropdownOpenTimeoutRef s) (moreDropdownOpenTimeoutRef s) (now s)
    (timers s) (nextTimerId s) (toasts s).

Definition setFormatStatus (x : IconStatus) (s : State) : State :=
  mkState (isCopyDropdownOpen s) (isSortDropdownOpen s)
    (isMoreDropdownOpen s) (copyStatus s) x (clearStatus s)
    (sortDropdownOpenTimeoutRef s) (moreDropdownOpenTimeoutRef s) (now s)
    (timers s) (nextTimerId s) (toasts s).

Definition setClearStatus (x : IconStatus) (s : State) : State :=
  mkState (isCopyDropdownOpen s) (isSortDropdownOpen s)
    (isMoreDropdownOpen s) (copyStatus s) (formatStatus s) x
    (sortDropdownOpenTimeoutRef s) (moreDropdownOpenTimeoutRef s) (now s)
    (timers s) (nextTimerId s) (toasts s).

Definition set_sortDropdownOpenTimeoutRef (x : option N) (s : State)
    : State :=
  mkState (isCopyDropdownOpen s) (isSortDropdownOpen s)
    (isMoreDropdownOpen s) (copyStatus s) (formatStatus s) (clearStatus s)
    x (moreDropdownOpenTimeoutRef s) (now s) (timers s) (nextTimerId s)
    (toasts s).

Definition set_moreDropdownOpenTimeoutRef (x : option N) (s : State)
    : State :=
  mkState (isCopyDropdownOpen s) (isSortDropdownOpen s)
    (isMoreDropdownOpen s) (copyStatus s) (formatStatus s) (clearStatus s)
    (sortDropdownOpenTimeoutRef s) x (now s) (timers s) (nextTimerId s)
    (toasts s).

Definition set_now (x : N) (s : State) : State :=
  mkState (isCopyDropdownOpen s) (isSortDropdownOpen s)
    (isMoreDropdownOpen s) (copyStatus s) (formatStatus s) (clearStatus s)
    (sortDropdownOpenTimeoutRef s) (moreDropdownOpenTimeoutRef s) x
    (timers s) (nextTimerId s) (toasts s).

Definition set_timers (x : list Timer) (s : State) : State :=
  mkState (isCopyDropdownOpen s) (isSortDropdownOpen s)
    (isMoreDropdownOpen s) (copyStatus s) (formatStatus s) (clearStatus s)
    (sortDropdownOpenTimeoutRef s) (moreDropdownOpenTimeoutRef s) (now s)
    x (nextTimerId s) (toasts s).

(** [toast.success] and [toast.error] of react-toastify *)
Definition toast (k : ToastKind) (msg : jsstring) (s : State) : State :=
  mkState (isCopyDropdownOpen s) (isSortDropdownOpen s)
    (isMoreDropdownOpen s) (copyStatus s) (formatStatus s) (clearStatus s)
    (sortDropdownOpenTimeoutRef s) (moreDropdownOpenTimeoutRef s) (now s)
    (timers s) (nextTimerId s) ({| kind := k; text := msg |} :: toasts s).

(** [setTimeout(task, delay)]: the identifier handed back is fresh. *)
Definition setTimeout (t : Task) (delay : N) (s : State) : N * State :=
  (nextTimerId s,
   mkState (isCopyDropdownOpen s) (isSortDropdownOpen s)
     (isMoreDropdownOpen s) (copyStatus s) (formatStatus s) (clearStatus s)
     (sortDropdownOpenTimeoutRef s) (moreDropdownOpenTimeoutRef s) (now s)
     (timers s ++ [{| tid := nextTimerId s; due := now s + delay;
                      task := t |}])
     (nextTimerId s + 1) (toasts s)).

(** [clearTimeout(ref.current)]: nothing happens while the reference is
    [undefined]. *)
Definition clearTimeout (id : option N) (s : State) : State :=
  match id with
  | Some i => set_timers (filter (λ tm, tid tm ≠ i) (timers s)) s
  | None => s
  end.

Definition dropdownTimeout : N := 300.

Definition msgSortDone : jsstring :=
  [23383; 27573; 25490; 24207; 25104; 21151].
Definition msgUnescaped : jsstring :=
  [21435; 38500; 36716; 20041; 25104; 21151].
Definition msgCommentsRemoved : jsstring :=
  [31227; 38500; 27880; 37322; 25104; 21151].
Definition msgCommentsNotRemoved : jsstring :=
  [31227; 38500; 27880; 37322; 22833; 36133].

(** *** The hover handlers of the two dropdowns *)

Definition showSortDropdown (s : State) : State :=
  setSortDropdownOpen true (clearTimeout (sortDropdownOpenTimeoutRef s) s).

Definition unShowSortDropdown (s : State) : State :=
  let s1 := clearTimeout (sortDropdownOpenTimeoutRef s) s in
  let '(id, s2) := setTimeout CloseSortDropdown dropdownTimeout s1 in
  set_sortDropdownOpenTimeoutRef (Some id) s2.

Definition showMoreDropdown (s : State) : State :=
  setMoreDropdownOpen true (clearTimeout (moreDropdownOpenTimeoutRef s) s).

Definition unShowMoreDropdown (s : State) : State :=
  let s1 := clearTimeout (moreDropdownOpenTimeoutRef s) s in
  let '(id, s2) := setTimeout CloseMoreDropdown dropdownTimeout s1 in
  set_moreDropdownOpenTimeoutRef (Some id) s2.

(** *** The buttons and the menus *)

(** What a handler leaves behind: it returns, or the exception of the
    callback it called escapes it. *)
Inductive Outcome :=
| Returned (s : State)
| Thrown (s : State).

Definition stateOf (o : Outcome) : State :=
  match o with
  | Returned s => s
  | Thrown s => s
  end.

Definition statusOf (ok : bool) : IconStatus :=
  if ok then Success else Error.

(** The [onClick] handlers of the three status buttons.  The callback of
    the parent is given by what it does: [Some ok] when it returns [ok],
    [None] when it throws. *)
Definition clickCopy (onCopy : option bool) (s : State) : Outcome :=
  let '(_, s1) := setTimeout ResetCopyStatus 1000 s in
  match onCopy with
  | Some ok => Returned (setCopyStatus (statusOf ok) s1)
  | None => Thrown s1
  end.

Definition clickFormat (onFormat : option bool) (s : State) : Outcome :=
  let '(_, s1) := setTimeout ResetFormatStatus 2000 s in
  match onFormat with
  | Some ok => Returned (setFormatStatus (statusOf ok) s1)
  | None => Thrown s1
  end.

Definition clickClear (onClear : option bool) (s : State) : Outcome :=
  let '(_, s1) := setTimeout ResetClearStatus 1000 s in
  match onClear with
  | Some ok => Returned (setClearStatus (statusOf ok) s1)
  | None => Thrown s1
  end.

Definition handleCopy (onCopy : option bool) (s : State) : Outcome :=
  match onCopy with
  | Some _ => Returned (setIsCopyDropdownOpen false s)
  | None => Thrown s
  end.

(** [onAction] of the sort menu: the answer of [onFieldSort] is not
    looked at. *)
Definition sortAction (onFieldSort : option bool) (s : State) : Outcome :=
  match onFieldSort with
  | Some _ =>
    Returned (setSortDropdownOpen false (toast ToastSuccess msgSortDone s))
  | None => Thrown s
  end.

(** [onAction] of the more menu. *)
Definition moreMenuAction (key : MoreActionKey) (onMore : option bool)
    (s : State) : Outcome :=
  match onMore with
  | None => Thrown s
  | Some ok =>
    let s1 :=
      match key with
      | unescape => if ok then toast ToastSuccess msgUnescaped s else s
      | del_comment =>
        if ok then toast ToastSuccess msgCommentsRemoved s
        else toast ToastError msgCommentsNotRemoved s
      end in
    Returned (setMoreDropdownOpen false s1)
  end.

(** *** The event loop *)

Definition runTask (t : Task) (s : State) : State :=
  match t with
  | CloseSortDropdown => setSortDropdownOpen false s
  | CloseMoreDropdown => setMoreDropdownOpen false s
  | ResetCopyStatus => setCopyStatus Default s
  | ResetFormatStatus => setFormatStatus Default s
  | ResetClearStatus => setClearStatus Default s
  end.

(** Timers fire by due time, and in creation order when due together. *)
Fixpoint insertTimer (tm : Timer) (l : list Timer) : list Timer :=
  match l with
  | [] => [tm]
  | x :: rest =>
    if decide (due tm ≤ due x) then tm :: l else x :: insertTimer tm rest
  end.

Definition sortTimers (l : list Timer) : list Timer := foldr insertTimer [] l.

Definition fire (s : State) (tm : Timer) : State :=
  runTask (task tm) (set_now (due tm) s).

(** [dt] milliseconds pass: the timers due by then leave the queue and
    fire in order; no task of the bar sets or clears a timer. *)
Definition advance (dt : N) (s : State) : State :=
  let target := now s + dt in
  let ready := sortTimers (filter (λ tm, due tm ≤ target) (timers s)) in
  let waiting := filter (λ tm, ¬ due tm ≤ target) (timers s) in
  set_now target (foldl fire (set_timers waiting s) ready).

(** *** The bar as a state machine *)

Inductive Action :=
| ShowSortDropdown
| UnShowSortDropdown
| ShowMoreDropdown
| UnShowMoreDropdown
| ClickCopy (onCopy : option bool)
| ClickFormat (onFormat : option bool)
| ClickClear (onClear : option bool)
| HandleCopy (onCopy : option bool)
| OpenChange (isOpen : bool)
| SortAction (onFieldSort : option bool)
| MoreMenuAction (key : MoreActionKey) (onMore : option bool)
| Wait (dt : N).

Definition perform (a : Action) (s : State) : State :=
  match a with
  | ShowSortDropdown => showSortDropdown s
  | UnShowSortDropdown => unShowSortDropdown s
  | ShowMoreDropdown => showMoreDropdown s
  | UnShowMoreDropdown => unShowMoreDropdown s
  | ClickCopy onCopy => stateOf (clickCopy onCopy s)
  | ClickFormat onFormat => stateOf (clickFormat onFormat s)
  | ClickClear onClear => stateOf (clickClear onClear s)
  | HandleCopy onCopy => stateOf (handleCopy onCopy s)
  | OpenChange isOpen => setIsCopyDropdownOpen isOpen s
  | SortAction onFieldSort => stateOf (sortAction onFieldSort s)
  | MoreMenuAction key onMore => stateOf (moreMenuAction key onMore s)
  | Wait dt => advance dt s
  end.

Definition initialState : State :=
  {| isCopyDropdownOpen := false; isSortDropdownOpen := false;
     isMoreDropdownOpen := false; copyStatus := Default;
     formatStatus := Default; clearStatus := Default;
     sortDropdownOpenTimeoutRef := None; moreDropdownOpenTimeoutRef := None;
     now := 0; timers := []; nextTimerId := 1; toasts := [] |}.

Inductive reachableState : State → Prop :=
| reachableState_initial : reachableState initialState
| reachableState_perform a s :
    reachableState s → reachableState (perform a s).

(** Some waiting timer runs [t] within [dt] milliseconds. *)
Definition fires (t : Task) (dt : N) (s : State) : Prop :=
  Exists (λ tm, task tm = t ∧ due tm ≤ now s + dt) (timers s).

#[global] Instance fires_dec (t : Task) (dt : N) (s : State) :
  Decision (fires t dt s).
Proof. unfold fires. apply _. Defined.

(** Timer identifiers are below the next one to hand out, and a waiting
    timer that closes a dropdown is the one the reference of that dropdown
    holds. *)
Definition hovering (s : State) : Prop :=
  ∀ tm, tm ∈ timers s →
    tid tm < nextTimerId s ∧
    (task tm = CloseSortDropdown →
     sortDropdownOpenTimeoutRef s = Some (tid tm)) ∧
    (task tm = CloseMoreDropdown →
     moreDropdownOpenTimeoutRef s = Some (tid tm)).

End OperationBar.

(* ===================================================================== *)
(** ** Sample runs *)
(* ===================================================================== *)

(** A platform that knows a handful of texts, and editor states to run the
    component on. *)
Module Sample.
Import Json Editor.

Definition parse (t : jsstring) : option JsonValue :=
  if decide (t = lit "{'b':1,'a':2}") then
    Some (JObject [(u16 "b", JNumber (u16 "1"));
                   (u16 "a", JNumber (u16 "2"))])
  else if decide (t = lit "'{\'a\':1}'") then Some (JString (lit "{'a':1}"))
  else if decide (t = lit "{'a':1}") then
    Some (JObject [(u16 "a", JNumber (u16 "1"))])
  else if decide (t = lit "'1'") then Some (JString (u16 "1"))
  else if decide (t = u16 "1") then Some (JNumber (u16 "1"))
  else None.

Definition repair (t : jsstring) : option jsstring :=
  if decide (t = u16 "{a:1,}") then Some (lit "{'a':1}") else None.

Definition unexpected : JsonErrorInfo :=
  {| message := u16 "Unexpected token"; line := 1; column := 1 |}.

Definition diagnose (t : jsstring) : option JsonErrorInfo :=
  match parse t with
  | Some _ => None
  | None => Some unexpected
  end.

Definition diagnose5 (t : jsstring) : option JsonErrorInfo :=
  if decide (t = u16 "{a:1,}") then None else diagnose t.

#[export] Instance platform : Platform :=
  {| JSON_parse := parse; jsonrepair := repair;
     jsonParseError := diagnose; json5ParseError := diagnose5;
     sortIndent := 2 |}.

(** The editor mounted on a JSON model holding [text]. *)
Definition editing (text : jsstring) : State :=
  initializeEditor text (u16 "json") initialState.

(** The user has typed [text] into the empty editor, the validation has
    run a second later, and the user has opened the error-details dialog,
    from where the repair button is pressed. *)
Definition reviewing (text : jsstring) : State :=
  openJsonErrorDetailsModel
    (advance 1000 (contentChange text (editing []))).2.


End Sample.


(* ===================================================================== *)
(** ** Facts about strings *)
(* ===================================================================== *)

Module JSFacts.

Lemma N_of_ascii_inj a b : N_of_ascii a = N_of_ascii b → a = b.
Proof.
  intros H. rewrite <- (ascii_N_embedding a), <- (ascii_N_embedding b).
  by rewrite H.
Qed.

Lemma list_ascii_of_string_inj s t :
  list_ascii_of_string s = list_ascii_of_string t → s = t.
Proof.
  intros H.
  rewrite <- (string_of_list_ascii_of_string s),
          <- (string_of_list_ascii_of_string t).
  by rewrite H.
Qed.

Lemma u16_inj s t : u16 s = u16 t → s = t.
Proof.
  unfold u16. intros H. apply list_ascii_of_string_inj.
  revert H. generalize (list_ascii_of_string s) (list_ascii_of_string t).
  induction l as [|a l IH]; intros [|b l']; simpl; try done.
  intros [= Hab Hl]. f_equal; [by apply N_of_ascii_inj | by apply IH].
Qed.

Lemma of_number_inj n m : of_number n = of_number m → n = m.
Proof. intros H. apply u16_inj in H. by apply (inj pretty) in H. Qed.

Lemma pretty_N_go_length x s :
  (String.length s ≤ String.length (pretty_N_go x s))%nat.
Proof.
  revert s. induction (N.lt_wf_0 x) as [x _ IH]; intros s.
  destruct (decide (x = 0)) as [->|Hx]; [by rewrite pretty_N_go_0|].
  rewrite pretty_N_go_step by lia.
  etrans; [|apply IH; apply N.div_lt; lia]. simpl. lia.
Qed.

Lemma of_number_nonempty n : of_number n ≠ [].
Proof.
  unfold of_number. intros H. change [] with (u16 "") in H.
  apply u16_inj in H. unfold pretty, pretty_N in H.
  case_decide; [done|].
  assert (0 < n) as Hpos by lia.
  rewrite pretty_N_go_step in H by done.
  pose proof (pretty_N_go_length (n `div` 10)
                (String (pretty_N_char (n `mod` 10)) "")) as Hlen.
  rewrite H in Hlen. simpl in Hlen. lia.
Qed.

(** A whitespace-only string trims to the empty string. *)
Lemma trimStart_whitespace s :
  forallb isWhiteSpace s = true → trimStart s = [].
Proof.
  induction s as [|c s IH]; simpl; [done|].
  intros [Hc Hs]%andb_prop. rewrite Hc. by apply IH.
Qed.

Lemma trim_whitespace s : forallb isWhiteSpace s = true → trim s = [].
Proof. intros H. unfold trim. by rewrite trimStart_whitespace. Qed.

End JSFacts.
Import JSFacts.

(* ===================================================================== *)
(** ** Facts about the tab store *)
(* ===================================================================== *)

Module TabStoreFacts.
Import TabStore.

(** A selection of tabs, in order, keeps the keys fresh. *)
Lemma keys_fresh_sublist (l : list TabItem) (active : jsstring) state :
  l `sublist_of` tabs state → keys_fresh state →
  keys_fresh {| tabs := l; activeTabKey := active;
                nextKey := nextKey state |}.
Proof.
  intros Hsub [Hnd Hkeys]. split; simpl.
  - eapply sublist_NoDup; [exact Hnd | by apply fmap_sublist].
  - intros tab Hin. apply Hkeys. eapply elem_of_sublist; eauto.
Qed.

Lemma keys_fresh_initial : keys_fresh initial.
Proof.
  split; simpl.
  - apply NoDup_singleton.
  - intros tab ->%list_elem_of_singleton. by exists 1.
Qed.

Lemma keys_fresh_addTab state : keys_fresh state → keys_fresh (addTab state).
Proof.
  intros [Hnd Hkeys]. split; simpl.
  - rewrite fmap_app. apply NoDup_app. split_and!; [done| |apply NoDup_singleton].
    intros k (tab & -> & Hin)%list_elem_of_fmap.
    rewrite list_fmap_singleton, list_elem_of_singleton. simpl.
    destruct (Hkeys tab Hin) as (n & Hlt & ->).
    intros ->%of_number_inj. lia.
  - intros tab [Hin| ->%list_elem_of_singleton]%elem_of_app.
    + destruct (Hkeys tab Hin) as (n & Hlt & ->). exists n. split; [lia|done].
    + exists (nextKey state). split; [lia|done].
Qed.

Lemma keys_fresh_renameTab k t state :
  keys_fresh state → keys_fresh (renameTab k t state).
Proof.
  intros [Hnd Hkeys]. unfold renameTab.
  destruct (trim t) as [|c rest] eqn:Ht; [done|].
  split; simpl.
  - rewrite <- list_fmap_compose.
    erewrite list_fmap_ext; [exact Hnd|].
    intros i tab _. simpl. by case_decide.
  - intros tab (tab0 & -> & Hin)%list_elem_of_fmap.
    destruct (Hkeys tab0 Hin) as (n & Hlt & Hn).
    exists n. split; [done|]. by case_decide.
Qed.

Lemma find_sublist (P : TabItem → Prop) `{∀ x, Decision (P x)} l :
  match find P l with Some tab => [tab] | None => [] end `sublist_of` l.
Proof.
  unfold find. destruct (list_find P l) as [[i tab]|] eqn:Hf; simpl.
  - apply list_find_Some in Hf as (Hi & _ & _).
    apply singleton_sublist_l, list_elem_of_lookup. eauto.
  - apply sublist_nil_l.
Qed.

Lemma slice_sublist i j l : slice i j l `sublist_of` l.
Proof.
  unfold slice. etrans; [apply sublist_take | apply sublist_drop].
Qed.

Lemma keys_fresh_closeTab k state :
  keys_fresh state → keys_fresh (closeTab k state).
Proof.
  intros Hinv. unfold closeTab. case_decide; [apply keys_fresh_initial|].
  apply keys_fresh_sublist; [apply sublist_filter; apply _ | done].
Qed.

Lemma keys_fresh_dispatch a state :
  keys_fresh state → keys_fresh (dispatch a state).
Proof.
  intros Hinv. destruct a; simpl.
  - by apply keys_fresh_addTab.
  - by apply keys_fresh_closeTab.
  - destruct Hinv. by split.
  - by apply keys_fresh_renameTab.
  - apply keys_fresh_sublist; [apply find_sublist | done].
  - apply keys_fresh_sublist; [apply sublist_drop | done].
  - apply keys_fresh_sublist; [apply slice_sublist | done].
  - apply keys_fresh_initial.
Qed.

(** The store keeps its keys fresh, whatever its clients dispatch. *)
Lemma reachable_keys_fresh state : reachable state → keys_fresh state.
Proof.
  induction 1 as [|a state _ IH];
    [apply keys_fresh_initial | by apply keys_fresh_dispatch].
Qed.

(** With distinct keys, filtering a key out removes the one tab that
    carries it and nothing else. *)
Lemma filter_key_split l1 tab l2 :
  NoDup (key <$> (l1 ++ tab :: l2)) →
  filter (λ t, key t ≠ key tab) (l1 ++ tab :: l2) = l1 ++ l2.
Proof.
  rewrite fmap_app, fmap_cons.
  intros (_ & Hl1 & [Hl2 _]%NoDup_cons)%NoDup_app.
  assert (∀ l : list TabItem, (∀ t, t ∈ l → key t ≠ key tab) →
            filter (λ t, key t ≠ key tab) l = l) as Hid.
  { induction l as [|t l IH]; intros Hall; [done|].
    rewrite filter_cons_True by (apply Hall; left).
    f_equal. apply IH. intros t' Hin. apply Hall. by right. }
  rewrite filter_app, filter_cons_False by (intros Hne; by apply Hne).
  rewrite !Hid; [done| |].
  - intros t Hin Heq. apply Hl2. rewrite <- Heq. by apply list_elem_of_fmap_2.
  - intros t Hin Heq. apply (Hl1 (key t)); [by apply list_elem_of_fmap_2|].
    rewrite Heq. left.
Qed.

(** *** Looking tabs up and slicing the tab list *)

Lemma relIndex_nat len i : (i ≤ len)%nat → relIndex len (Z.of_nat i) = i.
Proof.
  intros Hi. unfold relIndex.
  destruct (Z.ltb_spec (Z.of_nat i) 0); lia.
Qed.

Lemma relIndex_minus_one len : relIndex len (-1) = (len - 1)%nat.
Proof. unfold relIndex. simpl. lia. Qed.

Lemma find_open k (l : list TabItem) :
  k ∈ key <$> l →
  ∃ i x, list_find (λ tab, key tab = k) l = Some (i, x) ∧
         l !! i = Some x ∧ key x = k.
Proof.
  intros (x & -> & Hin)%list_elem_of_fmap.
  destruct (list_find_elem_of (λ tab, key tab = key x) l x Hin eq_refl)
    as [[i y] Hf].
  exists i, y. split; [done|].
  by apply list_find_Some in Hf as (? & ? & _).
Qed.

Lemma find_missing k (l : list TabItem) :
  k ∉ key <$> l → list_find (λ tab, key tab = k) l = None.
Proof.
  intros Hnin. apply list_find_None, Forall_forall. intros x Hin Hk.
  apply Hnin. rewrite <- Hk. by apply list_elem_of_fmap_2.
Qed.

Lemma closeOtherTabs_found k state i x :
  list_find (λ tab, key tab = k) (tabs state) = Some (i, x) →
  closeOtherTabs k state =
  {| tabs := [x]; activeTabKey := k; nextKey := nextKey state |}.
Proof. intros Hf. unfold closeOtherTabs, find. by rewrite Hf. Qed.

Lemma closeOtherTabs_missing k state :
  list_find (λ tab, key tab = k) (tabs state) = None →
  closeOtherTabs k state =
  {| tabs := []; activeTabKey := k; nextKey := nextKey state |}.
Proof. intros Hf. unfold closeOtherTabs, find. by rewrite Hf. Qed.

Lemma closeLeftTabs_found k state i x :
  list_find (λ tab, key tab = k) (tabs state) = Some (i, x) →
  closeLeftTabs k state =
  {| tabs := x :: drop (S i) (tabs state); activeTabKey := k;
     nextKey := nextKey state |}.
Proof.
  intros Hf. unfold closeLeftTabs, findIndex, sliceFrom. rewrite Hf.
  apply list_find_Some in Hf as (Hi & _ & _).
  pose proof (lookup_lt_Some _ _ _ Hi) as Hlt.
  rewrite relIndex_nat by lia. by rewrite (drop_S _ _ _ Hi).
Qed.

Lemma closeLeftTabs_missing k state :
  list_find (λ tab, key tab = k) (tabs state) = None →
  closeLeftTabs k state =
  {| tabs := option_list (last (tabs state)); activeTabKey := k;
     nextKey := nextKey state |}.
Proof.
  intros Hf. unfold closeLeftTabs, findIndex, sliceFrom. rewrite Hf.
  rewrite relIndex_minus_one. f_equal.
  destruct (last (tabs state)) as [x|] eqn:Hlast.
  - apply last_Some in Hlast as [l' ->].
    rewrite length_app. simpl.
    by rewrite drop_app_length' by lia.
  - by apply last_None in Hlast as ->.
Qed.

Lemma closeRightTabs_found k state i x :
  list_find (λ tab, key tab = k) (tabs state) = Some (i, x) →
  closeRightTabs k state =
  {| tabs := take i (tabs state) ++ [x]; activeTabKey := k;
     nextKey := nextKey state |}.
Proof.
  intros Hf. unfold closeRightTabs, findIndex, slice. rewrite Hf.
  apply list_find_Some in Hf as (Hi & _ & _).
  pose proof (lookup_lt_Some _ _ _ Hi) as Hlt.
  replace (Z.of_nat i + 1)%Z with (Z.of_nat (S i)) by lia.
  rewrite relIndex_nat by lia.
  change 0%Z with (Z.of_nat 0). rewrite relIndex_nat by lia.
  rewrite Nat.sub_0_r, drop_0. by rewrite (take_S_r _ _ _ Hi).
Qed.

Lemma closeRightTabs_missing k state :
  list_find (λ tab, key tab = k) (tabs state) = None →
  closeRightTabs k state =
  {| tabs := []; activeTabKey := k; nextKey := nextKey state |}.
Proof.
  intros Hf. unfold closeRightTabs, findIndex, slice. rewrite Hf.
  change (-1 + 1)%Z with (Z.of_nat 0). change 0%Z with (Z.of_nat 0).
  by rewrite !relIndex_nat by lia.
Qed.

(** The key [addTab] hands out is not the key of an open tab. *)
Lemma nextKey_fresh state :
  keys_fresh state → of_number (nextKey state) ∉ key <$> tabs state.
Proof.
  intros [_ Hkeys] (tab & Hk & Hin)%list_elem_of_fmap.
  destruct (Hkeys tab Hin) as (n & Hlt & Hn).
  rewrite Hn in Hk. apply of_number_inj in Hk. lia.
Qed.

Lemma closeTab_nonempty k state :
  keys_fresh state → tabs state ≠ [] → tabs (closeTab k state) ≠ [].
Proof.
  intros [Hnd _] Hne. unfold closeTab. case_decide as Hlen; [done|].
  simpl. intros Hnil.
  destruct (decide (k ∈ key <$> tabs state)) as [Hin|Hnin].
  - apply list_elem_of_fmap in Hin as (tab & -> & Hin).
    apply list_elem_of_split in Hin as (l1 & l2 & Heq).
    rewrite Heq in Hnd, Hnil, Hlen.
    rewrite filter_key_split in Hnil by done.
    apply app_eq_nil in Hnil as [-> ->]. by apply Hlen.
  - destruct (tabs state) as [|tab l] eqn:Htabs; [done|].
    rewrite filter_cons_True in Hnil; [done|].
    intros Heq. apply Hnin. rewrite <- Heq. left.
Qed.

(** A tab after an action was there before, or is the default tab, the
    new tab, or a tab given a title that is not blank. *)
Lemma dispatch_tab a state tab :
  tab ∈ tabs (dispatch a state) →
  tab ∈ tabs state ∨ tab = defaultTab ∨ tab = newTabOf state ∨
  ∃ tab0 t, tab0 ∈ tabs state ∧ trim t ≠ [] ∧
    tab = {| key := key tab0; title := trim t; content := content tab0;
             closable := closable tab0 |}.
Proof.
  destruct a; simpl.
  - intros [?| ->%list_elem_of_singleton]%elem_of_app; auto.
  - unfold closeTab. case_decide; simpl.
    + intros ->%list_elem_of_singleton. auto.
    + intros [_ ?]%list_elem_of_filter. auto.
  - auto.
  - unfold renameTab. destruct (trim newTitle) as [|c rest] eqn:Ht; [auto|].
    simpl. intros (tab0 & -> & Hin)%list_elem_of_fmap.
    case_decide; [|auto].
    right; right; right. exists tab0, newTitle. rewrite Ht. done.
  - intros Hin. left. eapply elem_of_sublist; [exact Hin|apply find_sublist].
  - intros Hin. left. eapply elem_of_sublist; [exact Hin|apply sublist_drop].
  - intros Hin. left. eapply elem_of_sublist; [exact Hin|apply slice_sublist].
  - intros ->%list_elem_of_singleton. auto.
Qed.

Lemma operated_reachable state : operated state → reachable state.
Proof. induction 1; by constructor. Qed.

End TabStoreFacts.

(* ===================================================================== *)
(** ** Facts about comment removal *)
(* ===================================================================== *)

Module JsonFacts.
Import Json.

(** In plain text, a unit other than the slash is always kept. *)
Lemma scan_Code_keeps c rest :
  c ≠ 47 → ∃ out, scan Code (c :: rest) = c :: out.
Proof.
  intros Hc. simpl. destruct (c =? 34); [eauto|].
  destruct (N.eqb_spec c 47); [done|eauto].
Qed.

(** Scanning what a scan has produced changes nothing, from whatever mode
    the first scan started. *)
Lemma scan_resume (n : nat) (m : ScanMode) (s : jsstring) :
  (length s ≤ n)%nat → scan (resume m) (scan m s) = scan m s.
Proof.
  revert m s. induction n as [|n IH]; intros m [|c rest] Hlen;
    simpl in Hlen; try lia; try (by destruct m).
  assert (∀ m', scan (resume m') (scan m' rest) = scan m' rest) as IHrest
    by (intros m'; apply IH; lia).
  destruct m; cbn [resume].
  - (* plain text *)
    cbn [scan]. destruct (N.eqb_spec c 34) as [->|Hquote].
    { cbn [scan]. simpl. f_equal. apply (IHrest Str). }
    destruct (N.eqb_spec c 47) as [->|Hslash].
    + destruct rest as [|d rest']; [done|].
      destruct (N.eqb_spec d 47) as [->|Hd1].
      { apply (IH LineComment). simpl in Hlen. lia. }
      destruct (N.eqb_spec d 42) as [->|Hd2].
      { apply (IH BlockComment). simpl in Hlen. lia. }
      destruct (scan_Code_keeps d rest' Hd1) as [out Hout].
      pose proof (IHrest Code) as Hagain. cbn [resume] in Hagain.
      rewrite Hout in Hagain |- *.
      assert (scan Code (47 :: d :: out) = 47 :: scan Code (d :: out)) as ->.
      { cbn [scan]. replace (47 =? 34) with false by done.
        replace (47 =? 47) with true by done.
        destruct (N.eqb_spec d 47); [done|].
        by destruct (N.eqb_spec d 42). }
      by rewrite Hagain.
    + cbn [scan].
      destruct (N.eqb_spec c 34); [done|].
      destruct (N.eqb_spec c 47); [done|].
      f_equal. apply (IHrest Code).
  - (* inside a string *)
    cbn [scan]. destruct (N.eqb_spec c 92) as [->|Hback].
    { cbn [scan]. simpl. f_equal. apply (IHrest StrEscape). }
    destruct (N.eqb_spec c 34) as [->|Hquote].
    { cbn [scan]. simpl. f_equal. apply (IHrest Code). }
    cbn [scan].
    destruct (N.eqb_spec c 92); [done|].
    destruct (N.eqb_spec c 34); [done|].
    f_equal. apply (IHrest Str).
  - (* after a backslash *)
    cbn [scan]. f_equal. apply (IHrest Str).
  - (* line comment *)
    cbn [scan]. destruct ((c =? 10) || (c =? 13)) eqn:Hbreak.
    + cbn [scan].
      assert (c = 10 ∨ c = 13) as Hc.
      { apply orb_prop in Hbreak as [?%N.eqb_eq|?%N.eqb_eq]; auto. }
      destruct (N.eqb_spec c 34); [lia|].
      destruct (N.eqb_spec c 47); [lia|].
      f_equal. apply (IHrest Code).
    + apply (IHrest LineComment).
  - (* block comment *)
    cbn [scan]. destruct (N.eqb_spec c 42) as [->|Hstar].
    + destruct rest as [|d rest']; [done|].
      destruct (N.eqb_spec d 47) as [->|Hd].
      * apply (IH Code). simpl in Hlen. lia.
      * apply (IHrest BlockComment).
    + apply (IHrest BlockComment).
Qed.

End JsonFacts.

(* ===================================================================== *)
(** ** Facts about the component *)
(* ===================================================================== *)

Module EditorFacts.
Import Json Editor.

Section ComponentFacts.
Context {P : Platform}.

(** *** What the operations leave alone *)

Lemma onDidChangeModelContent_editorRef s :
  editorRef (onDidChangeModelContent s) = editorRef s.
Proof.
  unfold onDidChangeModelContent. destruct (editorRef s) as [ed|] eqn:Hed;
    [|done].
  case_decide; simpl; [|done].
  by destruct (parseJsonErrorTimeoutRef s) as [id|]; [destruct (id =? 0)|].
Qed.

(** An edit that the widget does not drop is a content change. *)
Lemma setEditorValue_contentChange jsonText s ed m :
  editorRef s = Some ed → model ed = Some m →
  value m ≠ [] ∨ jsonText ≠ [] →
  setEditorValue jsonText s = contentChange jsonText s.
Proof.
  intros Hed Hm Hedit. unfold setEditorValue, contentChange, executeEdits.
  rewrite Hed, Hm. destruct (value m) as [|c t]; [|done].
  destruct jsonText; [|done]. by destruct Hedit.
Qed.

(** The empty text put in an empty buffer is dropped. *)
Lemma setEditorValue_dropped s ed m :
  editorRef s = Some ed → model ed = Some m → value m = [] →
  setEditorValue [] s = s.
Proof.
  intros Hed Hm Hval. unfold setEditorValue, executeEdits.
  by rewrite Hed, Hm, Hval.
Qed.

Lemma setEditorValue_cases jsonText s :
  setEditorValue jsonText s = s ∨
  setEditorValue jsonText s = contentChange jsonText s.
Proof.
  unfold setEditorValue, contentChange, executeEdits.
  destruct (editorRef s) as [ed|]; [|by left].
  destruct (model ed) as [m|]; [|by left].
  destruct (value m); [|by right]. destruct jsonText; [by left|by right].
Qed.

(** On a mounted editor with a model, a content change replaces the whole
    content and touches nothing else of the editor. *)
Lemma contentChange_editorRef text s ed m :
  editorRef s = Some ed → model ed = Some m →
  editorRef (contentChange text s) =
  Some {| model := Some (replaceAll text m);
          revealedLine := revealedLine ed |}.
Proof.
  intros Hed Hm. unfold contentChange, changeContent. rewrite Hed, Hm.
  by rewrite onDidChangeModelContent_editorRef.
Qed.

Lemma setEditorValue_editorRef jsonText s ed m :
  editorRef s = Some ed → model ed = Some m →
  value m ≠ [] ∨ jsonText ≠ [] →
  editorRef (setEditorValue jsonText s) =
  Some {| model := Some (replaceAll jsonText m);
          revealedLine := revealedLine ed |}.
Proof.
  intros Hed Hm Hedit.
  rewrite (setEditorValue_contentChange _ _ ed m) by done.
  by apply contentChange_editorRef.
Qed.

Lemma editorValueValidate_editorRef val s :
  editorRef (snd (editorValueValidate val s)) = editorRef s.
Proof.
  unfold editorValueValidate. destruct (trim val); [done|].
  by destruct (if decide _ then _ else _).
Qed.

(** The content listener only reschedules the validation and hands the
    text to the parent. *)
Lemma onDidChangeModelContent_frame s :
  parseJsonError (onDidChangeModelContent s) = parseJsonError s ∧
  jsonErrorDetailsModel (onDidChangeModelContent s) = jsonErrorDetailsModel s ∧
  errorDecorationsRef (onDidChangeModelContent s) = errorDecorationsRef s ∧
  now (onDidChangeModelContent s) = now s ∧
  toasts (onDidChangeModelContent s) = toasts s.
Proof.
  unfold onDidChangeModelContent. destruct (editorRef s) as [ed|]; [|done].
  case_decide; simpl; [|done].
  by destruct (parseJsonErrorTimeoutRef s) as [id|]; [destruct (id =? 0)|].
Qed.

Lemma onDidChangeModelContent_updates s ed :
  editorRef s = Some ed →
  updates (onDidChangeModelContent s) = getValue ed :: updates s.
Proof.
  intros Hed. unfold onDidChangeModelContent. rewrite Hed.
  case_decide; simpl; [|done].
  by destruct (parseJsonErrorTimeoutRef s) as [id|]; [destruct (id =? 0)|].
Qed.

(** Outside the JSON languages the listener schedules nothing. *)
Lemma onDidChangeModelContent_other_language s :
  currentLanguageId s ≠ Some (u16 "json") →
  currentLanguageId s ≠ Some (u16 "json5") →
  timers (onDidChangeModelContent s) = timers s ∧
  nextTimerId (onDidChangeModelContent s) = nextTimerId s ∧
  parseJsonErrorTimeoutRef (onDidChangeModelContent s) =
    parseJsonErrorTimeoutRef s.
Proof.
  intros Hjson Hjson5. unfold onDidChangeModelContent.
  destruct (editorRef s) as [ed|]; [|done].
  case_decide as Hlang; [by destruct Hlang|done].
Qed.

(** *** The event loop and the timers *)

Lemma insertTimer_Permutation tm l : insertTimer tm l ≡ₚ tm :: l.
Proof.
  induction l as [|x l IH]; simpl; [done|].
  case_decide; [done|]. rewrite IH. apply Permutation_swap.
Qed.

Lemma sortTimers_Permutation l : sortTimers l ≡ₚ l.
Proof.
  induction l as [|x l IH]; simpl; [done|].
  by rewrite insertTimer_Permutation, IH.
Qed.

Lemma validations_tasks (l : list Timer) :
  validations (task <$> l) = task <$> filter (λ tm, isValidation (task tm)) l.
Proof.
  unfold validations. induction l as [|tm l IH]; [done|].
  rewrite fmap_cons, !filter_cons, IH. by case_decide.
Qed.

(** A timer that fires leaves the editor and the timer queue alone. *)
Lemma fire_frame s tm :
  editorRef (fire s tm) = editorRef s ∧
  timers (fire s tm) = timers s ∧
  nextTimerId (fire s tm) = nextTimerId s ∧
  parseJsonErrorTimeoutRef (fire s tm) = parseJsonErrorTimeoutRef s.
Proof.
  unfold fire, runTask. destruct (task tm) as [val|].
  - unfold editorValueValidate. destruct (trim val); [done|].
    by destruct (if decide _ then _ else _).
  - by destruct (errorDecorationsRef _).
Qed.

Lemma foldl_fire_frame l s :
  editorRef (foldl fire s l) = editorRef s ∧
  timers (foldl fire s l) = timers s ∧
  nextTimerId (foldl fire s l) = nextTimerId s ∧
  parseJsonErrorTimeoutRef (foldl fire s l) = parseJsonErrorTimeoutRef s.
Proof.
  revert s. induction l as [|tm l IH]; intros s; [done|]. simpl.
  destruct (IH (fire s tm)) as (-> & -> & -> & ->). apply fire_frame.
Qed.

(** While time passes, the editor stays as it is and the queue only loses
    the timers that were due. *)
Lemma advance_frame dt s :
  editorRef (advance dt s).2 = editorRef s ∧
  timers (advance dt s).2 = filter (λ tm, ¬ due tm ≤ now s + dt) (timers s) ∧
  nextTimerId (advance dt s).2 = nextTimerId s ∧
  parseJsonErrorTimeoutRef (advance dt s).2 = parseJsonErrorTimeoutRef s ∧
  now (advance dt s).2 = now s + dt.
Proof.
  unfold advance. cbn [snd].
  match goal with
  | |- context [foldl fire ?s0 ?l] =>
      destruct (foldl_fire_frame l s0) as (He & Ht & Hn & Hr)
  end.
  cbn [set_now editorRef timers nextTimerId parseJsonErrorTimeoutRef now].
  by rewrite He, Ht, Hn, Hr.
Qed.

Lemma advance_jsonBuffer dt s : jsonBuffer s → jsonBuffer (advance dt s).2.
Proof.
  unfold jsonBuffer. by destruct (advance_frame dt s) as (-> & _).
Qed.

Lemma advance_debounced dt s : debounced s → debounced (advance dt s).2.
Proof.
  intros [Hpos Htimers].
  destruct (advance_frame dt s) as (_ & Ht & Hn & Hr & _).
  split; rewrite ?Hn; [done|].
  intros tm. rewrite Ht, Hr, list_elem_of_filter. intros [_ Hin].
  by apply Htimers.
Qed.

(** With one validation waiting, the time that passes runs it exactly when
    it is due, and runs no other validation. *)
Lemma advance_validations dt s tm0 :
  pendingValidations s = [tm0] →
  validations (advance dt s).1 =
    (if decide (due tm0 ≤ now s + dt) then [task tm0] else []) ∧
  pendingValidations (advance dt s).2 =
    (if decide (due tm0 ≤ now s + dt) then [] else [tm0]).
Proof.
  intros Hone. split.
  - unfold advance. cbn [fst]. rewrite validations_tasks.
    assert (filter (λ tm, isValidation (task tm))
              (sortTimers (filter (λ tm, due tm ≤ now s + dt) (timers s)))
            ≡ₚ filter (λ tm, due tm ≤ now s + dt) (pendingValidations s))
      as Hperm.
    { rewrite sortTimers_Permutation. unfold pendingValidations.
      rewrite !list_filter_filter.
      erewrite list_filter_iff; [done|]. intros tm. tauto. }
    rewrite Hone, filter_singleton in Hperm; [|exact []].
    case_decide.
    + apply Permutation_singleton_r in Hperm. by rewrite Hperm.
    + apply Permutation_nil_r in Hperm. by rewrite Hperm.
  - unfold pendingValidations.
    destruct (advance_frame dt s) as (_ & -> & _).
    rewrite list_filter_filter.
    erewrite list_filter_iff;
      [|intros tm; apply (and_comm (isValidation (task tm)))].
    rewrite <- list_filter_filter. fold (pendingValidations s).
    rewrite Hone, filter_singleton; [|exact []].
    by repeat case_decide.
Qed.

(** A content change on a JSON buffer cancels the waiting validation and
    schedules the validation of the text the editor holds, one second
    later. *)
Lemma onDidChangeModelContent_schedules s ed :
  editorRef s = Some ed →
  currentLanguageId s = Some (u16 "json")
    ∨ currentLanguageId s = Some (u16 "json5") →
  debounced s →
  debounced (onDidChangeModelContent s) ∧
  now (onDidChangeModelContent s) = now s ∧
  parseJsonErrorTimeoutRef (onDidChangeModelContent s)
    = Some (nextTimerId s) ∧
  pendingValidations (onDidChangeModelContent s) =
    [{| tid := nextTimerId s; due := now s + 1000;
        task := ValidateTask (getValue ed) |}].
Proof.
  intros Hed Hlang [Hpos Htimers].
  unfold onDidChangeModelContent. rewrite Hed.
  rewrite decide_True by done.
  (* the queue once the waiting validation is cancelled *)
  set (kept := match parseJsonErrorTimeoutRef s with
               | Some id =>
                 if id =? 0 then timers s
                 else filter (λ tm, tid tm ≠ id) (timers s)
               | None => timers s
               end).
  assert (∀ tm, tm ∈ kept → tm ∈ timers s ∧ ¬ isValidation (task tm))
    as Hkept.
  { intros tm Hin. unfold kept in Hin.
    destruct (parseJsonErrorTimeoutRef s) as [id|] eqn:Href.
    - destruct (N.eqb_spec id 0) as [->|Hid].
      + split; [done|]. intros Hval.
        destruct (Htimers tm Hin) as [Hrange Hthe].
        specialize (Hthe Hval). simplify_eq. lia.
      + apply list_elem_of_filter in Hin as [Hother Hin]. split; [done|].
        intros Hval. destruct (Htimers tm Hin) as [_ Hthe].
        specialize (Hthe Hval). by simplify_eq.
    - split; [done|]. intros Hval.
      destruct (Htimers tm Hin) as [_ Hthe]. by specialize (Hthe Hval). }
  assert (filter (λ tm, isValidation (task tm)) kept = []) as Hnone.
  { destruct (filter _ kept) as [|tm l] eqn:Hfilter; [done|].
    assert (tm ∈ filter (λ tm, isValidation (task tm)) kept) as Hin
      by (rewrite Hfilter; left).
    apply list_elem_of_filter in Hin as [Hval Hin].
    by destruct (Hkept tm Hin). }
  assert (∀ s0, timers s0 = kept → nextTimerId s0 = nextTimerId s →
            now s0 = now s →
            let s' := onUpdateValue (getValue ed)
                        (let '(id, s3) :=
                           setTimeout (ValidateTask (getValue ed)) 1000 s0 in
                         set_parseJsonErrorTimeoutRef (Some id) s3) in
            debounced s' ∧ now s' = now s ∧
            parseJsonErrorTimeoutRef s' = Some (nextTimerId s) ∧
            pendingValidations s' =
              [{| tid := nextTimerId s; due := now s + 1000;
                  task := ValidateTask (getValue ed) |}]) as Hany.
  { intros s0 Htm Hid Hnow.
    unfold pendingValidations, debounced. simpl.
    rewrite Htm, Hid, Hnow.
    split; [split|split; [|split]].
    - lia.
    - intros tm [Hin| ->%list_elem_of_singleton]%elem_of_app.
      + destruct (Hkept tm Hin) as [Hin' Hnot].
        destruct (Htimers tm Hin') as [Hrange _].
        split; [lia|done].
      + simpl. split; [lia|done].
    - done.
    - done.
    - rewrite filter_app, Hnone. simpl.
      by rewrite filter_cons_True by done. }
  destruct (parseJsonErrorTimeoutRef s) as [id|] eqn:Href.
  - destruct (N.eqb_spec id 0) as [->|Hid]; by apply Hany.
  - by apply Hany.
Qed.

Lemma debounced_same_timers s s' :
  timers s' = timers s → nextTimerId s' = nextTimerId s →
  parseJsonErrorTimeoutRef s' = parseJsonErrorTimeoutRef s →
  debounced s → debounced s'.
Proof. unfold debounced. by intros -> -> ->. Qed.

Lemma onDidChangeModelContent_debounced s :
  debounced s → debounced (onDidChangeModelContent s).
Proof.
  intros Hdeb. destruct (editorRef s) as [ed|] eqn:Hed.
  - destruct (decide (currentLanguageId s = Some (u16 "json")
                      ∨ currentLanguageId s = Some (u16 "json5")))
      as [Hlang|Hlang].
    + by destruct (onDidChangeModelContent_schedules s ed Hed Hlang Hdeb).
    + destruct (onDidChangeModelContent_other_language s)
        as (Ht & Hn & Hr); [tauto|tauto|].
      by apply (debounced_same_timers s).
  - unfold onDidChangeModelContent. by rewrite Hed.
Qed.

Lemma contentChange_debounced text s :
  debounced s → debounced (contentChange text s).
Proof.
  intros Hdeb. unfold contentChange, changeContent.
  destruct (editorRef s) as [ed|]; [|done].
  destruct (model ed) as [m|]; [|done].
  apply onDidChangeModelContent_debounced.
  by apply (debounced_same_timers s).
Qed.

Lemma setEditorValue_debounced text s :
  debounced s → debounced (setEditorValue text s).
Proof.
  intros Hdeb. destruct (setEditorValue_cases text s) as [-> | ->];
    [done|by apply contentChange_debounced].
Qed.

Lemma contentChange_schedules text s :
  jsonBuffer s → debounced s →
  jsonBuffer (contentChange text s) ∧
  debounced (contentChange text s) ∧
  now (contentChange text s) = now s ∧
  parseJsonErrorTimeoutRef (contentChange text s) = Some (nextTimerId s) ∧
  pendingValidations (contentChange text s) =
    [{| tid := nextTimerId s; due := now s + 1000;
        task := ValidateTask text |}].
Proof.
  intros (ed & m & Hed & Hm & Hlang) Hdeb.
  unfold contentChange, changeContent. rewrite Hed, Hm.
  match goal with
  | |- context [onDidChangeModelContent ?s0] => set (edited := s0)
  end.
  destruct (onDidChangeModelContent_schedules edited
              {| model := Some (replaceAll text m);
                 revealedLine := revealedLine ed |})
    as (Hdeb' & Hnow & Href & Hone).
  - done.
  - unfold currentLanguageId. simpl. destruct Hlang as [-> | ->]; auto.
  - by apply (debounced_same_timers s).
  - split; [|done].
    unfold jsonBuffer. rewrite onDidChangeModelContent_editorRef.
    eexists _, _. split_and!; [done|done|exact Hlang].
Qed.

(** Through a burst of changes less than a second apart, no validation
    runs, and the one validation left waiting is of the last text, one
    second after the last change. *)
Lemma burst_debounced events : ∀ s text,
  jsonBuffer s → debounced s →
  (∃ id, pendingValidations s =
           [{| tid := id; due := now s + 1000; task := ValidateTask text |}]) →
  Forall (λ e, e.1 < 1000) events →
  validations (burst events s).1 = [] ∧
  jsonBuffer (burst events s).2 ∧
  debounced (burst events s).2 ∧
  ∃ id, pendingValidations (burst events s).2 =
          [{| tid := id; due := now (burst events s).2 + 1000;
              task := ValidateTask (default text (last (snd <$> events))) |}].
Proof.
  induction events as [|[gap t] rest IH]; intros s text Hjson Hdeb Hone Hgaps.
  { simpl. eauto. }
  apply Forall_cons in Hgaps as [Hgap Hrest]. simpl in Hgap.
  destruct Hone as [id Hone].
  pose proof (advance_validations gap s _ Hone) as [Hran Hwaiting].
  pose proof (advance_jsonBuffer gap s Hjson) as Hjson1.
  pose proof (advance_debounced gap s Hdeb) as Hdeb1.
  cbn [due task] in Hran, Hwaiting.
  rewrite decide_False in Hran by lia.
  rewrite decide_False in Hwaiting by lia.
  assert (default text (last (snd <$> (gap, t) :: rest)) =
          default t (last (snd <$> rest))) as ->.
  { rewrite fmap_cons, last_cons. by destruct (last _). }
  cbn [burst]. destruct (advance gap s) as [ran s1]. simpl in *.
  destruct (contentChange_schedules t s1 Hjson1 Hdeb1)
    as (Hjson2 & Hdeb2 & Hnow & _ & Hone2).
  rewrite <- Hnow in Hone2.
  destruct (IH (contentChange t s1) t Hjson2 Hdeb2 (ex_intro _ _ Hone2) Hrest)
    as (Hran' & Hjson3 & Hdeb3 & Hone3).
  destruct (burst rest (contentChange t s1)) as [ran' s2]. simpl in *.
  split_and!; [|done..].
  unfold validations in *. by rewrite filter_app, Hran, Hran'.
Qed.

(** *** The invariant of the component *)

Lemma editorValueValidate_timers val s :
  timers (editorValueValidate val s).2 = timers s ∧
  nextTimerId (editorValueValidate val s).2 = nextTimerId s ∧
  parseJsonErrorTimeoutRef (editorValueValidate val s).2
    = parseJsonErrorTimeoutRef s.
Proof.
  unfold editorValueValidate. destruct (trim val); [done|].
  by destruct (if decide _ then _ else _).
Qed.

Lemma editorValueValidate_debounced val s :
  debounced s → debounced (editorValueValidate val s).2.
Proof.
  destruct (editorValueValidate_timers val s) as (Ht & Hn & Hr).
  by apply debounced_same_timers.
Qed.

Lemma highlightErrorLine_debounced lineNumber s :
  debounced s → debounced (highlightErrorLine lineNumber s).2.
Proof.
  intros [Hpos Htimers]. unfold highlightErrorLine.
  destruct (editorRef s) as [ed|]; [|done].
  assert (∀ s0, timers s0 = timers s → nextTimerId s0 = nextTimerId s →
            parseJsonErrorTimeoutRef s0 = parseJsonErrorTimeoutRef s →
            debounced (let '(_, s4) :=
                         setTimeout ClearErrorDecorations 5000 s0 in
                       (true, s4)).2) as Hany.
  { intros s0 Ht Hn Hr. unfold debounced. simpl. rewrite Ht, Hn, Hr.
    split; [lia|].
    intros tm [Hin| ->%list_elem_of_singleton]%elem_of_app.
    - destruct (Htimers tm Hin) as [Hrange Hthe]. split; [lia|done].
    - simpl. split; [lia|done]. }
  cbv zeta. destruct (errorDecorationsRef _); by apply Hany.
Qed.

Lemma goToErrorLine_debounced s : debounced s → debounced (goToErrorLine s).
Proof.
  intros Hdeb. unfold goToErrorLine.
  destruct (parseJsonError s) as [e|]; [|done].
  destruct (line e <=? 0)%Z; [done|].
  pose proof (highlightErrorLine_debounced (line e)
                (closeJsonErrorDetailsModel s) Hdeb) as Hdeb'.
  by destruct (highlightErrorLine _ _) as [ok s2].
Qed.

Lemma autoFix_debounced s : debounced s → debounced (autoFix s).2.
Proof.
  intros Hdeb. unfold autoFix.
  destruct (match editorRef s with Some _ => _ | None => _ end); [done|].
  destruct (jsonrepair _) as [repaired|]; [|done]. simpl.
  by apply (debounced_same_timers (setEditorValue repaired s)),
    setEditorValue_debounced.
Qed.

Lemma moreAction_debounced key s : debounced s → debounced (moreAction key s).2.
Proof.
  intros Hdeb. unfold moreAction, formatModelByUnEscapeJson.
  destruct (editorRef s) as [ed|]; [|done].
  destruct key; [|by apply setEditorValue_debounced].
  destruct (getValue ed); [done|].
  destruct (JSON_parse _) as [v1|]; [|done].
  destruct (JSON_parse (ToString v1)) as [v2|]; [|done].
  destruct (isArrayOrObject v2); [|done].
  by apply setEditorValue_debounced.
Qed.

Lemma fieldSort_debounced type s :
  debounced s →
  debounced match fieldSort type s with
            | Returned _ s' => s'
            | Thrown s' => s'
            end.
Proof.
  intros Hdeb. unfold fieldSort.
  destruct (editorRef s) as [ed|]; [|done].
  pose proof (editorValueValidate_debounced (getValue ed) s Hdeb) as Hdeb1.
  destruct (editorValueValidate _ s) as [[] s1]; simpl in *; [|done].
  destruct (JSON_parse _); [|done].
  by apply setEditorValue_debounced.
Qed.

Lemma contentChange_mounted text s :
  is_Some (editorRef s) → is_Some (editorRef (contentChange text s)).
Proof.
  intros [ed Hed]. destruct (model ed) as [m|] eqn:Hm.
  - by rewrite (contentChange_editorRef _ _ ed m).
  - unfold contentChange. by rewrite Hed, Hm, Hed.
Qed.

Lemma setEditorValue_mounted text s :
  is_Some (editorRef s) → is_Some (editorRef (setEditorValue text s)).
Proof.
  intros Hed. destruct (setEditorValue_cases text s) as [-> | ->];
    [done|by apply contentChange_mounted].
Qed.

(** Once mounted, the editor stays. *)
Lemma perform_mounted a s :
  is_Some (editorRef s) → is_Some (editorRef (perform a s)).
Proof.
  intros Hed. pose proof Hed as [ed Heq]. destruct a; cbn [perform].
  - unfold initializeEditor. by rewrite Heq, Heq.
  - by apply contentChange_mounted.
  - by destruct (advance_frame dt s) as [-> _].
  - done.
  - unfold goToErrorLine. destruct (parseJsonError s) as [e|]; [|done].
    destruct (line e <=? 0)%Z; [done|].
    unfold highlightErrorLine. simpl. rewrite Heq. simpl.
    by destruct (errorDecorationsRef s).
  - unfold autoFix. rewrite Heq.
    destruct (or_else _ _); [done|].
    destruct (jsonrepair _) as [repaired|]; [|done]. simpl.
    by apply (setEditorValue_mounted repaired s).
  - unfold fieldSort. rewrite Heq.
    pose proof (editorValueValidate_editorRef (getValue ed) s) as Hsame.
    destruct (editorValueValidate _ s) as [[] s1]; simpl in *;
      [|by rewrite Hsame].
    destruct (JSON_parse _); [|by rewrite Hsame].
    apply setEditorValue_mounted. by rewrite Hsame.
  - unfold moreAction, formatModelByUnEscapeJson. rewrite Heq.
    destruct key; [|by apply setEditorValue_mounted].
    destruct (getValue ed); [done|].
    destruct (JSON_parse _) as [v1|]; [|done].
    destruct (JSON_parse (ToString v1)) as [v2|]; [|done].
    destruct (isArrayOrObject v2); [|done].
    by apply setEditorValue_mounted.
Qed.

Lemma perform_debounced a s : debounced s → debounced (perform a s).
Proof.
  intros Hdeb. destruct a; cbn [perform].
  - unfold initializeEditor. by destruct (editorRef s).
  - by apply contentChange_debounced.
  - by apply advance_debounced.
  - done.
  - by apply goToErrorLine_debounced.
  - by apply autoFix_debounced.
  - by apply fieldSort_debounced.
  - by apply moreAction_debounced.
Qed.

Lemma perform_consistent a s : consistent s → consistent (perform a s).
Proof.
  intros [Hdeb Hunmounted]. split; [by apply perform_debounced|].
  destruct (editorRef s) as [ed|] eqn:Hed.
  { intros Hnone. pose proof (perform_mounted a s) as Hstays.
    rewrite Hed, Hnone in Hstays. by destruct Hstays. }
  destruct (Hunmounted eq_refl) as [Hnotimer Hnoerror].
  destruct a; cbn [perform].
  - unfold initializeEditor. by rewrite Hed.
  - unfold contentChange. by rewrite Hed.
  - intros _. unfold advance. rewrite Hnotimer. done.
  - done.
  - unfold goToErrorLine. by rewrite Hnoerror.
  - unfold autoFix. by rewrite Hed.
  - unfold fieldSort. by rewrite Hed.
  - unfold moreAction. by rewrite Hed.
Qed.

(** Whatever happens to the component, its timers stay in order, and a
    parse error is only ever reported on a mounted editor. *)
Lemma reachableState_consistent s : reachableState s → consistent s.
Proof.
  induction 1 as [|a s _ IH]; [|by apply perform_consistent].
  split; [|done]. split; [done|]. intros tm Hin. inversion Hin.
Qed.

Lemma reachableState_error_mounted s e :
  reachableState s → parseJsonError s = Some e → is_Some (editorRef s).
Proof.
  intros [_ Hunmounted]%reachableState_consistent He.
  destruct (editorRef s) as [ed|]; [done|].
  destruct (Hunmounted eq_refl) as [_ Hnone]. congruence.
Qed.

(** *** What the timers leave behind *)

(** The verdict of a validation depends on the state through the language
    of the model alone. *)
Lemma editorValueValidate_language val s s' :
  currentLanguageId s = currentLanguageId s' →
  (editorValueValidate val s).1 = (editorValueValidate val s').1 ∧
  parseJsonError (editorValueValidate val s).2 =
    parseJsonError (editorValueValidate val s').2.
Proof.
  intros Hlang. unfold editorValueValidate. destruct (trim val); [done|].
  rewrite Hlang. by destruct (if decide _ then _ else _).
Qed.

Lemma editorValueValidate_idempotent val s :
  editorValueValidate val (editorValueValidate val s).2
    = editorValueValidate val s.
Proof.
  unfold editorValueValidate. destruct (trim val); [done|].
  by destruct (if decide (currentLanguageId s = _) then _ else _)
       as [e|] eqn:Hverdict;
    cbn [snd];
    change (currentLanguageId (setParseJsonError ?x s))
      with (currentLanguageId s);
    rewrite Hverdict.
Qed.

Lemma editorValueValidate_frame val s :
  same_outside_buffer s (editorValueValidate val s).2.
Proof.
  unfold editorValueValidate. destruct (trim val); [done|].
  by destruct (if decide _ then _ else _).
Qed.

Lemma fire_currentLanguageId s tm :
  currentLanguageId (fire s tm) = currentLanguageId s.
Proof.
  unfold currentLanguageId. by destruct (fire_frame s tm) as (-> & _).
Qed.

Lemma fire_parseJsonError s tm :
  parseJsonError (fire s tm) =
  match task tm with
  | ValidateTask val => parseJsonError (editorValueValidate val s).2
  | ClearErrorDecorations => parseJsonError s
  end.
Proof.
  unfold fire, runTask. destruct (task tm) as [val|].
  - by apply editorValueValidate_language.
  - by destruct (errorDecorationsRef _).
Qed.

(** The parse error shown after a run of timers is the verdict of the last
    validation among them. *)
Lemma foldl_fire_parseJsonError l s :
  parseJsonError (foldl fire s l) =
  match last (validations (task <$> l)) with
  | Some (ValidateTask val) => parseJsonError (editorValueValidate val s).2
  | _ => parseJsonError s
  end.
Proof.
  induction l as [|tm l IH] using rev_ind; [done|].
  rewrite foldl_snoc, fmap_app. unfold validations. rewrite filter_app.
  fold (validations (task <$> l)). rewrite fire_parseJsonError.
  rewrite list_fmap_singleton. destruct (task tm) as [val|] eqn:Htask.
  - rewrite filter_cons_True, filter_nil by done. rewrite last_snoc.
    apply editorValueValidate_language. unfold currentLanguageId.
    by destruct (foldl_fire_frame l s) as (-> & _).
  - rewrite filter_cons_False, filter_nil, app_nil_r by (simpl; auto).
    exact IH.
Qed.

Lemma advance_parseJsonError dt s :
  parseJsonError (advance dt s).2 =
  match last (validations (advance dt s).1) with
  | Some (ValidateTask val) => parseJsonError (editorValueValidate val s).2
  | _ => parseJsonError s
  end.
Proof.
  unfold advance. cbn [fst snd set_now parseJsonError].
  rewrite foldl_fire_parseJsonError. cbn [set_timers parseJsonError].
  destruct (last _) as [[val|]|]; [|done..].
  by apply editorValueValidate_language.
Qed.

Lemma fire_errorDecorationsRef s tm :
  errorDecorationsRef (fire s tm) =
  match task tm with
  | ValidateTask _ => errorDecorationsRef s
  | ClearErrorDecorations => (λ _, []) <$> errorDecorationsRef s
  end.
Proof.
  unfold fire, runTask. destruct (task tm) as [val|].
  - destruct (editorValueValidate_frame val (set_now (due tm) s))
      as (_ & _ & Href & _).
    by rewrite Href.
  - simpl. by destruct (errorDecorationsRef s) eqn:Href; simpl; rewrite ?Href.
Qed.

(** A run of timers empties the highlight when one of them is a removal,
    and leaves it alone otherwise. *)
Lemma foldl_fire_errorDecorationsRef l s :
  (Exists (λ tm, task tm = ClearErrorDecorations) l →
   errorDecorationsRef (foldl fire s l) =
     (λ _, []) <$> errorDecorationsRef s) ∧
  (Forall (λ tm, task tm ≠ ClearErrorDecorations) l →
   errorDecorationsRef (foldl fire s l) = errorDecorationsRef s).
Proof.
  induction l as [|tm l [IHex IHall]] using rev_ind.
  { split; [by intros ?%Exists_nil|done]. }
  rewrite foldl_snoc, fire_errorDecorationsRef. split.
  - intros [Hex|Hex%Exists_cons]%Exists_app.
    + rewrite (IHex Hex).
      destruct (task tm); [done|]. by destruct (errorDecorationsRef s).
    + destruct Hex as [->|?%Exists_nil]; [|done].
      assert (∀ tm : Timer, Decision (task tm = ClearErrorDecorations))
        as Hdec by (intros tm'; destruct (task tm'); [right|left]; done).
      destruct (decide (Exists (λ tm, task tm = ClearErrorDecorations) l))
        as [Hex|Hnex].
      * rewrite (IHex Hex). by destruct (errorDecorationsRef s).
      * rewrite IHall; [done|]. by apply not_Exists_Forall in Hnex.
  - intros [Hall [Htm _]%Forall_cons]%Forall_app.
    rewrite (IHall Hall). by destruct (task tm).
Qed.

Lemma advance_errorDecorationsRef dt s :
  (Exists (λ tm, task tm = ClearErrorDecorations ∧ due tm ≤ now s + dt)
     (timers s) →
   errorDecorationsRef (advance dt s).2 =
     (λ _, []) <$> errorDecorationsRef s) ∧
  (Forall (λ tm, task tm = ClearErrorDecorations → ¬ due tm ≤ now s + dt)
     (timers s) →
   errorDecorationsRef (advance dt s).2 = errorDecorationsRef s).
Proof.
  unfold advance. cbn [snd set_now errorDecorationsRef].
  match goal with
  | |- context [foldl fire ?s0 ?l] =>
      destruct (foldl_fire_errorDecorationsRef l s0) as [Hex Hall]
  end.
  cbn [set_timers errorDecorationsRef] in Hex, Hall. split.
  - intros Hdue. apply Hex.
    apply Exists_exists in Hdue as (tm & Hin & Htask & Hle).
    apply Exists_exists. exists tm. split; [|done].
    rewrite sortTimers_Permutation. by apply list_elem_of_filter.
  - intros Hnone. apply Hall. apply Forall_forall. intros tm.
    rewrite sortTimers_Permutation, list_elem_of_filter.
    intros [Hle Hin] Htask. rewrite Forall_forall in Hnone.
    by apply (Hnone tm Hin Htask).
Qed.

(** *** What a replacement of the content leaves alone *)

Lemma contentChange_frame text s :
  parseJsonError (contentChange text s) = parseJsonError s ∧
  jsonErrorDetailsModel (contentChange text s) = jsonErrorDetailsModel s ∧
  errorDecorationsRef (contentChange text s) = errorDecorationsRef s ∧
  now (contentChange text s) = now s ∧
  toasts (contentChange text s) = toasts s.
Proof.
  unfold contentChange, changeContent.
  destruct (editorRef s) as [ed|]; [|done].
  destruct (model ed) as [m|]; [|done].
  match goal with
  | |- context [onDidChangeModelContent ?s0] =>
      by destruct (onDidChangeModelContent_frame s0) as (-> & -> & -> & -> & ->)
  end.
Qed.

Lemma setEditorValue_frame text s :
  parseJsonError (setEditorValue text s) = parseJsonError s ∧
  jsonErrorDetailsModel (setEditorValue text s) = jsonErrorDetailsModel s ∧
  errorDecorationsRef (setEditorValue text s) = errorDecorationsRef s ∧
  now (setEditorValue text s) = now s ∧
  toasts (setEditorValue text s) = toasts s.
Proof.
  destruct (setEditorValue_cases text s) as [-> | ->];
    [done|apply contentChange_frame].
Qed.

Lemma contentChange_currentLanguageId text s :
  currentLanguageId (contentChange text s) = currentLanguageId s.
Proof.
  unfold currentLanguageId.
  destruct (editorRef s) as [ed|] eqn:Hed.
  - destruct (model ed) as [m|] eqn:Hm.
    + by rewrite (contentChange_editorRef text s ed m Hed Hm).
    + unfold contentChange. by rewrite Hed, Hm, Hed, Hm.
  - unfold contentChange. by rewrite Hed, Hed.
Qed.

Lemma setEditorValue_currentLanguageId text s :
  currentLanguageId (setEditorValue text s) = currentLanguageId s.
Proof.
  destruct (setEditorValue_cases text s) as [-> | ->];
    [done|apply contentChange_currentLanguageId].
Qed.

Lemma contentChange_updates text s ed m :
  editorRef s = Some ed → model ed = Some m →
  updates (contentChange text s) = text :: updates s.
Proof.
  intros Hed Hm. unfold contentChange, changeContent. rewrite Hed, Hm.
  erewrite onDidChangeModelContent_updates; [|reflexivity]. reflexivity.
Qed.

Lemma setEditorValue_updates text s ed m :
  editorRef s = Some ed → model ed = Some m →
  value m ≠ [] ∨ text ≠ [] →
  updates (setEditorValue text s) = text :: updates s.
Proof.
  intros Hed Hm Hedit.
  rewrite (setEditorValue_contentChange _ _ ed m) by done.
  by apply (contentChange_updates text s ed m).
Qed.

Lemma contentChange_other_language text s ed m :
  editorRef s = Some ed → model ed = Some m →
  languageId m ≠ u16 "json" → languageId m ≠ u16 "json5" →
  timers (contentChange text s) = timers s ∧
  nextTimerId (contentChange text s) = nextTimerId s ∧
  parseJsonErrorTimeoutRef (contentChange text s) =
    parseJsonErrorTimeoutRef s.
Proof.
  intros Hed Hm Hjson Hjson5. unfold contentChange, changeContent.
  rewrite Hed, Hm.
  match goal with
  | |- context [onDidChangeModelContent ?s0] =>
      destruct (onDidChangeModelContent_other_language s0)
        as (-> & -> & ->); [| |done]
  end; unfold currentLanguageId; simpl; congruence.
Qed.

(** *** The parse error while a validation waits *)

(** With one validation waiting, due a second after [now], the parse error
    is untouched until the validation runs and is its verdict from then
    on. *)
Lemma pending_parseJsonError dt s id text :
  pendingValidations s =
    [{| tid := id; due := now s + 1000; task := ValidateTask text |}] →
  parseJsonError (advance dt s).2 =
    if decide (1000 ≤ dt)
    then parseJsonError (editorValueValidate text s).2
    else parseJsonError s.
Proof.
  intros Hone. destruct (advance_validations dt _ _ Hone) as [Hfired _].
  cbn [due task] in Hfired. rewrite advance_parseJsonError, Hfired.
  destruct (decide (1000 ≤ dt)) as [Hdt|Hdt].
  - by rewrite decide_True by lia.
  - by rewrite decide_False by lia.
Qed.

Lemma advance_currentLanguageId dt s :
  currentLanguageId (advance dt s).2 = currentLanguageId s.
Proof.
  unfold currentLanguageId. by destruct (advance_frame dt s) as (-> & _).
Qed.

(** Through a burst of changes less than a second apart the parse error
    stays as it was. *)
Lemma burst_parseJsonError events : ∀ s text,
  jsonBuffer s → debounced s →
  (∃ id, pendingValidations s =
           [{| tid := id; due := now s + 1000; task := ValidateTask text |}]) →
  Forall (λ e, e.1 < 1000) events →
  parseJsonError (burst events s).2 = parseJsonError s ∧
  currentLanguageId (burst events s).2 = currentLanguageId s.
Proof.
  induction events as [|[gap t] rest IH]; intros s text Hjson Hdeb Hone Hgaps.
  { done. }
  apply Forall_cons in Hgaps as [Hgap Hrest]. simpl in Hgap.
  destruct Hone as [id Hone].
  pose proof (pending_parseJsonError gap s _ _ Hone) as Herr.
  rewrite decide_False in Herr by lia.
  pose proof (advance_currentLanguageId gap s) as Hlang.
  pose proof (advance_jsonBuffer gap s Hjson) as Hjson1.
  pose proof (advance_debounced gap s Hdeb) as Hdeb1.
  cbn [burst]. destruct (advance gap s) as [ran s1]. cbn [snd] in *.
  destruct (contentChange_schedules t s1 Hjson1 Hdeb1)
    as (Hjson2 & Hdeb2 & Hnow & _ & Hone2).
  rewrite <- Hnow in Hone2.
  destruct (IH (contentChange t s1) t Hjson2 Hdeb2 (ex_intro _ _ Hone2) Hrest)
    as [Herr' Hlang'].
  destruct (burst rest (contentChange t s1)) as [ran' s2]. cbn [snd] in *.
  rewrite Herr', Hlang'.
  rewrite contentChange_currentLanguageId.
  by destruct (contentChange_frame t s1) as (-> & _).
Qed.

(** *** The timer queue in every state of the component *)

Lemma scheduled_same_timers s s' :
  timers s' = timers s → now s' = now s → scheduled s → scheduled s'.
Proof. unfold scheduled, pendingValidations. by intros -> ->. Qed.

Lemma onDidChangeModelContent_timers s tm :
  tm ∈ timers (onDidChangeModelContent s) →
  tm ∈ timers s ∨ due tm = now s + 1000 ∧ isValidation (task tm).
Proof.
  unfold onDidChangeModelContent. destruct (editorRef s) as [ed|]; [|auto].
  case_decide; [|auto]. cbn [onUpdateValue timers].
  assert (∀ s0, now s0 = now s → (∀ tm, tm ∈ timers s0 → tm ∈ timers s) →
            tm ∈ timers
                   (let '(id, s3) :=
                      setTimeout (ValidateTask (getValue ed)) 1000 s0 in
                    set_parseJsonErrorTimeoutRef (Some id) s3) →
            tm ∈ timers s ∨ due tm = now s + 1000 ∧ isValidation (task tm))
    as Hany.
  { intros s0 Hnow Hsub. simpl. rewrite Hnow.
    intros [Hin| ->%list_elem_of_singleton]%elem_of_app; [auto|by right]. }
  destruct (parseJsonErrorTimeoutRef s) as [id|]; [|by apply Hany].
  destruct (id =? 0); [by apply Hany|]. apply Hany; [done|].
  intros tm'. simpl. by intros [_ ?]%list_elem_of_filter.
Qed.

Lemma onDidChangeModelContent_scheduled s :
  debounced s → scheduled s → scheduled (onDidChangeModelContent s).
Proof.
  intros Hdeb [Hone Hdue]. split.
  - destruct (editorRef s) as [ed|] eqn:Hed.
    + destruct (decide (currentLanguageId s = Some (u16 "json")
                        ∨ currentLanguageId s = Some (u16 "json5")))
        as [Hlang|Hlang].
      * destruct (onDidChangeModelContent_schedules s ed Hed Hlang Hdeb)
          as (_ & _ & _ & ->). done.
      * destruct (onDidChangeModelContent_other_language s)
          as (Ht & _ & _); [tauto|tauto|].
        unfold pendingValidations. by rewrite Ht.
    + unfold onDidChangeModelContent. by rewrite Hed.
  - destruct (onDidChangeModelContent_frame s) as (_ & _ & _ & -> & _).
    intros tm [Hin|[Hnew Hval]]%onDidChangeModelContent_timers;
      [by apply Hdue|].
    rewrite Hnew. destruct (task tm); [simpl; lia|done].
Qed.

Lemma contentChange_scheduled text s :
  debounced s → scheduled s → scheduled (contentChange text s).
Proof.
  intros Hdeb Hsch. unfold contentChange, changeContent.
  destruct (editorRef s) as [ed|]; [|done].
  destruct (model ed) as [m|]; [|done].
  apply onDidChangeModelContent_scheduled.
  - by apply (debounced_same_timers s).
  - by apply (scheduled_same_timers s).
Qed.

Lemma setEditorValue_scheduled text s :
  debounced s → scheduled s → scheduled (setEditorValue text s).
Proof.
  intros Hdeb Hsch. destruct (setEditorValue_cases text s) as [-> | ->];
    [done|by apply contentChange_scheduled].
Qed.

Lemma highlightErrorLine_scheduled lineNumber s :
  scheduled s → scheduled (highlightErrorLine lineNumber s).2.
Proof.
  intros [Hone Hdue]. unfold highlightErrorLine.
  destruct (editorRef s) as [ed|]; [|done].
  assert (∀ s0, timers s0 = timers s → now s0 = now s →
            scheduled (let '(_, s4) :=
                         setTimeout ClearErrorDecorations 5000 s0 in
                       (true, s4)).2) as Hany.
  { intros s0 Ht Hn. unfold scheduled, pendingValidations. simpl.
    rewrite Ht, Hn. split.
    - rewrite filter_app, filter_cons_False, filter_nil, app_nil_r
        by (simpl; auto). exact Hone.
    - intros tm [Hin| ->%list_elem_of_singleton]%elem_of_app;
        [by apply Hdue|]. simpl. lia. }
  cbv zeta. destruct (errorDecorationsRef _); by apply Hany.
Qed.

Lemma goToErrorLine_scheduled s : scheduled s → scheduled (goToErrorLine s).
Proof.
  intros Hsch. unfold goToErrorLine.
  destruct (parseJsonError s) as [e|]; [|done].
  destruct (line e <=? 0)%Z; [done|].
  pose proof (highlightErrorLine_scheduled (line e)
                (closeJsonErrorDetailsModel s) Hsch) as Hsch'.
  by destruct (highlightErrorLine _ _) as [ok s2].
Qed.

Lemma autoFix_scheduled s :
  debounced s → scheduled s → scheduled (autoFix s).2.
Proof.
  intros Hdeb Hsch. unfold autoFix.
  destruct (match editorRef s with Some _ => _ | None => _ end); [done|].
  destruct (jsonrepair _) as [repaired|]; [|done]. simpl.
  by apply (scheduled_same_timers (setEditorValue repaired s)),
    setEditorValue_scheduled.
Qed.

Lemma moreAction_scheduled key s :
  debounced s → scheduled s → scheduled (moreAction key s).2.
Proof.
  intros Hdeb Hsch. unfold moreAction, formatModelByUnEscapeJson.
  destruct (editorRef s) as [ed|]; [|done].
  destruct key; [|by apply setEditorValue_scheduled].
  destruct (getValue ed); [done|].
  destruct (JSON_parse _) as [v1|]; [|done].
  destruct (JSON_parse (ToString v1)) as [v2|]; [|done].
  destruct (isArrayOrObject v2); [|done].
  by apply setEditorValue_scheduled.
Qed.

Lemma fieldSort_scheduled type s :
  debounced s → scheduled s →
  scheduled match fieldSort type s with
            | Returned _ s' => s'
            | Thrown s' => s'
            end.
Proof.
  intros Hdeb Hsch. unfold fieldSort.
  destruct (editorRef s) as [ed|]; [|done].
  pose proof (editorValueValidate_debounced (getValue ed) s Hdeb) as Hdeb1.
  assert (scheduled (editorValueValidate (getValue ed) s).2) as Hsch1.
  { destruct (editorValueValidate_timers (getValue ed) s) as (Ht & _ & _).
    destruct (editorValueValidate_frame (getValue ed) s)
      as (_ & _ & _ & Hn & _).
    by apply (scheduled_same_timers s). }
  destruct (editorValueValidate _ s) as [[] s1]; simpl in *; [|done].
  destruct (JSON_parse _); [|done].
  by apply setEditorValue_scheduled.
Qed.

Lemma advance_scheduled dt s : scheduled s → scheduled (advance dt s).2.
Proof.
  intros [Hone Hdue].
  destruct (advance_frame dt s) as (_ & Ht & _ & _ & Hn).
  unfold scheduled, pendingValidations. rewrite Ht, Hn. split.
  - rewrite list_filter_filter.
    erewrite list_filter_iff;
      [|intros tm; apply (and_comm (isValidation (task tm)))].
    rewrite <- list_filter_filter. fold (pendingValidations s).
    etrans; [apply length_filter|done].
  - intros tm [Hlate Hin]%list_elem_of_filter.
    destruct (Hdue tm Hin). lia.
Qed.

Lemma perform_scheduled a s :
  debounced s → scheduled s → scheduled (perform a s).
Proof.
  intros Hdeb Hsch. destruct a; cbn [perform].
  - unfold initializeEditor. by destruct (editorRef s).
  - by apply contentChange_scheduled.
  - by apply advance_scheduled.
  - done.
  - by apply goToErrorLine_scheduled.
  - by apply autoFix_scheduled.
  - by apply fieldSort_scheduled.
  - by apply moreAction_scheduled.
Qed.

(** *** What the parent is told *)













End ComponentFacts.

End EditorFacts.

(* ===================================================================== *)
(** ** Facts about the diff editor component *)
(* ===================================================================== *)

Module DiffEditorFacts.
Import Json Editor DiffEditor.

Lemma side_current r s : (side r s).1 = current r s.
Proof. by destruct r. Qed.

(** Replacing the content of one editor leaves the other side and the
    shell alone. *)
Lemma diff_setEditorValue_frame r text s :
  same_shell s (setEditorValue r text s) ∧
  side (opposite r) (setEditorValue r text s) = side (opposite r) s.
Proof.
  unfold same_shell, setEditorValue, executeEdits, changeContent,
    onDidChangeModelContent.
  destruct r; simpl.
  - destruct (originalEditorRef s) as [ed|]; [|done].
    destruct (model ed) as [m|]; [|done].
    by destruct (value m), text.
  - destruct (modifiedEditorRef s) as [ed|]; [|done].
    destruct (model ed) as [m|]; [|done]. unfold callOnUpdateModifiedValue.
    destruct (value m), text; simpl; by destruct (onUpdateModifiedValue s).
Qed.

(** On an editor with a model, an edit that is not dropped replaces the
    content and tells the parent of that side the new text, the parent of
    the modified side when its callback is given. *)
Lemma diff_setEditorValue_side r text s ed m :
  current r s = Some ed → model ed = Some m →
  value m ≠ [] ∨ text ≠ [] →
  side r (setEditorValue r text s) =
  (Some {| model := Some (replaceAll text m);
           revealedLine := revealedLine ed |},
   match r with
   | Original => text :: originalUpdates s
   | Modified =>
     if onUpdateModifiedValue s then text :: modifiedUpdates s
     else modifiedUpdates s
   end).
Proof.
  intros Hed Hm Hne.
  assert (setEditorValue r text s = changeContent r ed m text s) as ->.
  { unfold setEditorValue, executeEdits. rewrite Hed, Hm.
    destruct (value m), text; try done. by destruct Hne. }
  unfold changeContent, onDidChangeModelContent.
  destruct r; simpl; [done|].
  unfold callOnUpdateModifiedValue. simpl.
  by destruct (onUpdateModifiedValue s).
Qed.

(** The empty text put in an empty buffer, or in an editor that is not
    there or has no model, changes nothing. *)
Lemma diff_setEditorValue_dropped r s :
  (∀ ed, current r s = Some ed → getValue ed = []) →
  setEditorValue r [] s = s.
Proof.
  unfold setEditorValue, executeEdits.
  destruct (current r s) as [ed|]; [|done]. intros Hnil.
  specialize (Hnil ed eq_refl). unfold getValue in Hnil.
  destruct (model ed) as [m|]; [|done]. by rewrite Hnil.
Qed.

(** What replacing the content of the side [r] does depends on that side
    and the callback flag alone. *)
Lemma diff_setEditorValue_local r text s s' :
  side r s' = side r s → onUpdateModifiedValue s' = onUpdateModifiedValue s →
  side r (setEditorValue r text s') = side r (setEditorValue r text s).
Proof.
  intros Hside Hcb.
  unfold setEditorValue, executeEdits, changeContent,
    onDidChangeModelContent, callOnUpdateModifiedValue.
  destruct s, s', r; simpl in *; simplify_eq;
    repeat (match goal with
            | |- context [match ?x with _ => _ end] => destruct x; simpl
            end); done.
Qed.

Section ComponentFacts.
Context {P : Platform}.

Lemma sortEditor_frame r sort s :
  same_shell s (stateOf (sortEditor r sort s)) ∧
  side (opposite r) (stateOf (sortEditor r sort s)) = side (opposite r) s.
Proof.
  unfold sortEditor. destruct (current r s) as [ed|]; [|done].
  cbv zeta. destruct (getValue ed); [done|].
  destruct (JSON_parse _); [|done]. apply diff_setEditorValue_frame.
Qed.

Lemma same_shell_refl s : same_shell s s.
Proof. done. Qed.

Lemma sortEditor_local r sort s s' :
  side r s' = side r s → onUpdateModifiedValue s' = onUpdateModifiedValue s →
  resultOf (sortEditor r sort s') = resultOf (sortEditor r sort s) ∧
  side r (stateOf (sortEditor r sort s')) =
    side r (stateOf (sortEditor r sort s)).
Proof.
  intros Hside Hcb. unfold sortEditor.
  rewrite <- !side_current, Hside.
  destruct (side r s).1 as [ed|]; [|done].
  cbv zeta. destruct (getValue ed); [done|].
  destruct (JSON_parse _); [|done]. split; [done|].
  by apply diff_setEditorValue_local.
Qed.

(** [sortEditor] throws on a reference that is not set, and only then. *)
Lemma sortEditor_returns r sort s :
  is_Some (current r s) ↔ is_Some (resultOf (sortEditor r sort s)).
Proof.
  unfold sortEditor. destruct (current r s) as [ed|].
  - cbv zeta. destruct (getValue ed); [done|]. by destruct (JSON_parse _).
  - split; by intros [??].
Qed.

Lemma changeContent_current r ed m text s :
  current r (changeContent r ed m text s) =
  Some {| model := Some (replaceAll text m);
          revealedLine := revealedLine ed |}.
Proof.
  unfold changeContent, onDidChangeModelContent, callOnUpdateModifiedValue.
  destruct r; simpl; [done|]. by destruct (onUpdateModifiedValue s).
Qed.

(** Replacing the content of an editor keeps it an editor with a
    model. *)
Lemma diff_setEditorValue_current r r' text s :
  (∃ ed m, current r' s = Some ed ∧ model ed = Some m) →
  ∃ ed m, current r' (setEditorValue r text s) = Some ed ∧ model ed = Some m.
Proof.
  intros (ed & m & Hed & Hm).
  destruct (diff_setEditorValue_frame r text s) as [_ Hother].
  assert (r' = r ∨ r' = opposite r) as [->| ->]
    by (destruct r, r'; auto).
  - unfold setEditorValue, executeEdits. rewrite Hed, Hm.
    destruct (value m), text; try (by exists ed, m);
      rewrite changeContent_current; by eexists _, _.
  - exists ed, m. split; [|done].
    by rewrite <- !side_current, Hother, side_current.
Qed.

Lemma diff_setEditorValue_paired r text s :
  paired s → paired (setEditorValue r text s).
Proof.
  destruct (diff_setEditorValue_frame r text s) as [(_ & Href & _) _].
  intros [[HL HR]|[Hed (edL & mL & edR & mR & HL & HmL & HR & HmR)]].
  - left. assert (setEditorValue r text s = s) as ->; [|done].
    unfold setEditorValue. destruct r; simpl; by rewrite ?HL, ?HR.
  - right. split; [by rewrite Href|].
    destruct (diff_setEditorValue_current r Original text s)
      as (edL' & mL' & HL' & HmL'); [by exists edL, mL|].
    destruct (diff_setEditorValue_current r Modified text s)
      as (edR' & mR' & HR' & HmR'); [by exists edR, mR|].
    by exists edL', mL', edR', mR'.
Qed.

Lemma paired_same s s' :
  editorRef s' = editorRef s → originalEditorRef s' = originalEditorRef s →
  modifiedEditorRef s' = modifiedEditorRef s → paired s → paired s'.
Proof. unfold paired. by intros -> -> ->. Qed.

Lemma sortEditor_paired r sort s :
  paired s → paired (stateOf (sortEditor r sort s)).
Proof.
  intros Hcre. unfold sortEditor. destruct (current r s) as [ed|]; [|done].
  cbv zeta. destruct (getValue ed); [done|].
  destruct (JSON_parse _); [|done]. by apply diff_setEditorValue_paired.
Qed.

Lemma perform_paired a s : paired s → paired (perform a s).
Proof.
  intros Hcre. destruct a; cbn [perform].
  - unfold createDiffEditor. destruct (editorContainerRef s); [|done].
    right. split; [done|]. by eexists _, _, _, _.
  - destruct (editorContainerRef s); [|done].
    destruct Hcre as [?|[_ ?]]; [by left|by right].
  - destruct (editorRef s) eqn:Hed; [|done].
    right. split; [done|]. by eexists _, _, _, _.
  - by apply diff_setEditorValue_paired.
  - by apply diff_setEditorValue_paired.
  - unfold copy. destruct (editorRef s) eqn:Hed; [|done]. simpl.
    destruct type; simpl;
      try destruct (originalEditorRef s) eqn:HL;
      try destruct (modifiedEditorRef s) eqn:HR; try done;
      apply (paired_same s); simpl; congruence.
  - unfold clear. destruct (editorRef s) eqn:Hed; [|done]. simpl.
    destruct type; simpl; [| | |done].
    + by apply (paired_same (clearEditor Original s)),
        diff_setEditorValue_paired.
    + by apply (paired_same (clearEditor Modified s)),
        diff_setEditorValue_paired.
    + by apply (paired_same (clearEditor Modified (clearEditor Original s))),
        diff_setEditorValue_paired, diff_setEditorValue_paired.
  - unfold fieldSort. destruct (editorRef s) eqn:Hed; [|done]. simpl.
    assert (∀ r s0, paired (stateOf (sortEditor r sort s0)) →
              paired (stateOf
                match sortEditor r sort s0 with
                | Returned ok s' =>
                  if negb ok
                  then Returned false (toast ToastError msgSortFailed s')
                  else Returned true (toast ToastSuccess msgSorted s')
                | Thrown s' => Thrown s'
                end)) as Hfinish.
    { intros r s0. destruct (sortEditor r sort s0) as [[] s'|s']; done. }
    destruct type; [| | |done].
    + by apply Hfinish, sortEditor_paired.
    + by apply Hfinish, sortEditor_paired.
    + pose proof (sortEditor_paired Original sort s Hcre) as Hcre1.
      destruct (sortEditor Original sort s) as [ok s1|s1]; [|done].
      by apply Hfinish, sortEditor_paired.
Qed.

Lemma reachableState_paired s : reachableState s → paired s.
Proof.
  induction 1 as [callback|a s _ IH]; [by left|].
  by apply perform_paired.
Qed.

End ComponentFacts.

End DiffEditorFacts.

(* ===================================================================== *)
(** ** Facts about the operation bar *)
(* ===================================================================== *)

Module OperationBarFacts.
Import Json Editor OperationBar.

Lemma bar_insertTimer_Permutation tm l : insertTimer tm l ≡ₚ tm :: l.
Proof.
  induction l as [|x l IH]; simpl; [done|].
  case_decide; [done|]. rewrite IH. apply Permutation_swap.
Qed.

Lemma bar_sortTimers_Permutation l : sortTimers l ≡ₚ l.
Proof.
  induction l as [|x l IH]; simpl; [done|].
  by rewrite bar_insertTimer_Permutation, IH.
Qed.

(** A timer that fires leaves the queue, the references and the
    notifications alone. *)
Lemma bar_fire_frame s tm :
  timers (fire s tm) = timers s ∧
  nextTimerId (fire s tm) = nextTimerId s ∧
  sortDropdownOpenTimeoutRef (fire s tm) = sortDropdownOpenTimeoutRef s ∧
  moreDropdownOpenTimeoutRef (fire s tm) = moreDropdownOpenTimeoutRef s.
Proof. unfold fire, runTask. by destruct (task tm). Qed.

Lemma bar_foldl_fire_frame l s :
  timers (foldl fire s l) = timers s ∧
  nextTimerId (foldl fire s l) = nextTimerId s ∧
  sortDropdownOpenTimeoutRef (foldl fire s l)
    = sortDropdownOpenTimeoutRef s ∧
  moreDropdownOpenTimeoutRef (foldl fire s l)
    = moreDropdownOpenTimeoutRef s.
Proof.
  revert s. induction l as [|tm l IH]; intros s; [done|]. simpl.
  destruct (IH (fire s tm)) as (-> & -> & -> & ->). apply bar_fire_frame.
Qed.

Lemma bar_advance_frame dt s :
  timers (advance dt s) = filter (λ tm, ¬ due tm ≤ now s + dt) (timers s) ∧
  nextTimerId (advance dt s) = nextTimerId s ∧
  sortDropdownOpenTimeoutRef (advance dt s) = sortDropdownOpenTimeoutRef s ∧
  moreDropdownOpenTimeoutRef (advance dt s) = moreDropdownOpenTimeoutRef s ∧
  now (advance dt s) = now s + dt.
Proof.
  unfold advance.
  match goal with
  | |- context [foldl fire ?s0 ?l] =>
      destruct (bar_foldl_fire_frame l s0) as (Ht & Hn & Hr & Hr')
  end.
  cbn [set_now timers nextTimerId sortDropdownOpenTimeoutRef
       moreDropdownOpenTimeoutRef now].
  by rewrite Ht, Hn, Hr, Hr'.
Qed.

Section Field.

(** A field of the state that one task resets to a constant and that the
    other tasks and the clock leave alone. *)
Context {A : Type} (get : State → A) (t : Task) (c : A).
Hypothesis get_fire : ∀ s tm,
  get (fire s tm) = if decide (task tm = t) then c else get s.
Hypothesis get_set_now : ∀ x s, get (set_now x s) = get s.
Hypothesis get_set_timers : ∀ x s, get (set_timers x s) = get s.

Lemma bar_foldl_fire_field l s :
  get (foldl fire s l) =
  if decide (t ∈ task <$> l) then c else get s.
Proof.
  induction l as [|tm l IH] using rev_ind.
  { destruct (decide (t ∈ _)) as [Hin|]; [by apply elem_of_nil in Hin|done]. }
  rewrite foldl_snoc, get_fire, IH, fmap_app, list_fmap_singleton.
  destruct (decide (t ∈ (task <$> l) ++ [task tm])) as [Hin|Hnin].
  - apply elem_of_app in Hin as [Hin|Hin%list_elem_of_singleton].
    + destruct (decide (task tm = t)); [done|]. by rewrite decide_True.
    + by rewrite decide_True.
  - rewrite decide_False, decide_False; [done| |].
    + intros Hin. apply Hnin, elem_of_app. by left.
    + intros Htm. apply Hnin, elem_of_app. right. rewrite Htm. left.
Qed.

(** After [dt] milliseconds the field holds the constant when a timer of
    the task was due, and what it held otherwise. *)
Lemma bar_advance_field dt s :
  (fires t dt s → get (advance dt s) = c) ∧
  (¬ fires t dt s → get (advance dt s) = get s).
Proof.
  unfold advance. rewrite get_set_now, bar_foldl_fire_field, get_set_timers.
  assert (t ∈ task <$>
            sortTimers (filter (λ tm, due tm ≤ now s + dt) (timers s))
          ↔ fires t dt s) as Hiff.
  { unfold fires. rewrite Exists_exists, list_elem_of_fmap.
    split.
    - intros (tm & -> & Hin). exists tm.
      rewrite bar_sortTimers_Permutation in Hin.
      apply list_elem_of_filter in Hin as [Hdue Hin]. done.
    - intros (tm & Hin & <- & Hdue). exists tm. split; [done|].
      rewrite bar_sortTimers_Permutation. by apply list_elem_of_filter. }
  split; intros Hfires.
  - rewrite decide_True; [done|]. by apply Hiff.
  - rewrite decide_False; [done|]. by rewrite Hiff.
Qed.

End Field.

Lemma bar_advance_isSortDropdownOpen dt s :
  (fires CloseSortDropdown dt s → isSortDropdownOpen (advance dt s) = false) ∧
  (¬ fires CloseSortDropdown dt s →
   isSortDropdownOpen (advance dt s) = isSortDropdownOpen s).
Proof.
  apply (bar_advance_field isSortDropdownOpen); [|done..].
  intros s' tm. unfold fire, runTask. by destruct (task tm).
Qed.

Lemma bar_advance_isMoreDropdownOpen dt s :
  (fires CloseMoreDropdown dt s → isMoreDropdownOpen (advance dt s) = false) ∧
  (¬ fires CloseMoreDropdown dt s →
   isMoreDropdownOpen (advance dt s) = isMoreDropdownOpen s).
Proof.
  apply (bar_advance_field isMoreDropdownOpen); [|done..].
  intros s' tm. unfold fire, runTask. by destruct (task tm).
Qed.

Lemma bar_advance_copyStatus dt s :
  (fires ResetCopyStatus dt s → copyStatus (advance dt s) = Default) ∧
  (¬ fires ResetCopyStatus dt s →
   copyStatus (advance dt s) = copyStatus s).
Proof.
  apply (bar_advance_field copyStatus); [|done..].
  intros s' tm. unfold fire, runTask. by destruct (task tm).
Qed.

Lemma bar_advance_formatStatus dt s :
  (fires ResetFormatStatus dt s → formatStatus (advance dt s) = Default) ∧
  (¬ fires ResetFormatStatus dt s →
   formatStatus (advance dt s) = formatStatus s).
Proof.
  apply (bar_advance_field formatStatus); [|done..].
  intros s' tm. unfold fire, runTask. by destruct (task tm).
Qed.

Lemma bar_advance_clearStatus dt s :
  (fires ResetClearStatus dt s → clearStatus (advance dt s) = Default) ∧
  (¬ fires ResetClearStatus dt s →
   clearStatus (advance dt s) = clearStatus s).
Proof.
  apply (bar_advance_field clearStatus); [|done..].
  intros s' tm. unfold fire, runTask. by destruct (task tm).
Qed.

(** *** The timers of the dropdowns *)

Lemma hovering_same_timers s s' :
  timers s' = timers s → nextTimerId s' = nextTimerId s →
  sortDropdownOpenTimeoutRef s' = sortDropdownOpenTimeoutRef s →
  moreDropdownOpenTimeoutRef s' = moreDropdownOpenTimeoutRef s →
  hovering s → hovering s'.
Proof. unfold hovering. by intros -> -> -> ->. Qed.

Lemma hovering_clearTimeout id s : hovering s → hovering (clearTimeout id s).
Proof.
  intros Hhov. destruct id as [i|]; [|done].
  intros tm [_ Hin]%list_elem_of_filter. by apply Hhov.
Qed.

(** A status button adds a timer that closes no dropdown. *)
Lemma hovering_setTimeout t delay s :
  t ≠ CloseSortDropdown → t ≠ CloseMoreDropdown →
  hovering s → hovering (setTimeout t delay s).2.
Proof.
  intros Hsort Hmore Hhov tm. simpl.
  intros [Hin| ->%list_elem_of_singleton]%elem_of_app.
  - destruct (Hhov tm Hin) as (Hlt & Hs & Hm). split; [lia|done].
  - simpl. split; [lia|done].
Qed.

(** Once the pointer has entered, no timer that closes the sort dropdown
    is waiting. *)
Lemma showSortDropdown_cancels s tm :
  hovering s → tm ∈ timers (showSortDropdown s) →
  task tm ≠ CloseSortDropdown.
Proof.
  intros Hhov Hin Htask. unfold showSortDropdown in Hin. simpl in Hin.
  destruct (sortDropdownOpenTimeoutRef s) as [i|] eqn:Href; simpl in Hin.
  - apply list_elem_of_filter in Hin as [Hne Hin].
    destruct (Hhov tm Hin) as (_ & Hs & _). specialize (Hs Htask).
    congruence.
  - destruct (Hhov tm Hin) as (_ & Hs & _). specialize (Hs Htask).
    congruence.
Qed.

Lemma showMoreDropdown_cancels s tm :
  hovering s → tm ∈ timers (showMoreDropdown s) →
  task tm ≠ CloseMoreDropdown.
Proof.
  intros Hhov Hin Htask. unfold showMoreDropdown in Hin. simpl in Hin.
  destruct (moreDropdownOpenTimeoutRef s) as [i|] eqn:Href; simpl in Hin.
  - apply list_elem_of_filter in Hin as [Hne Hin].
    destruct (Hhov tm Hin) as (_ & _ & Hm). specialize (Hm Htask).
    congruence.
  - destruct (Hhov tm Hin) as (_ & _ & Hm). specialize (Hm Htask).
    congruence.
Qed.

(** Once the pointer has left, one timer that closes the sort dropdown is
    waiting, due [dropdownTimeout] later. *)
Lemma unShowSortDropdown_schedules s tm :
  hovering s → tm ∈ timers (unShowSortDropdown s) →
  task tm = CloseSortDropdown →
  tm = {| tid := nextTimerId s; due := now s + 300;
          task := CloseSortDropdown |}.
Proof.
  intros Hhov Hin Htask. unfold unShowSortDropdown in Hin.
  destruct (sortDropdownOpenTimeoutRef s) as [i|] eqn:Href; simpl in Hin;
    apply elem_of_app in Hin as [Hin| ->%list_elem_of_singleton];
    try done.
  - apply list_elem_of_filter in Hin as [Hne Hin].
    destruct (Hhov tm Hin) as (_ & Hs & _). specialize (Hs Htask).
    congruence.
  - destruct (Hhov tm Hin) as (_ & Hs & _). specialize (Hs Htask).
    congruence.
Qed.

Lemma unShowMoreDropdown_schedules s tm :
  hovering s → tm ∈ timers (unShowMoreDropdown s) →
  task tm = CloseMoreDropdown →
  tm = {| tid := nextTimerId s; due := now s + 300;
          task := CloseMoreDropdown |}.
Proof.
  intros Hhov Hin Htask. unfold unShowMoreDropdown in Hin.
  destruct (moreDropdownOpenTimeoutRef s) as [i|] eqn:Href; simpl in Hin;
    apply elem_of_app in Hin as [Hin| ->%list_elem_of_singleton];
    try done.
  - apply list_elem_of_filter in Hin as [Hne Hin].
    destruct (Hhov tm Hin) as (_ & _ & Hm). specialize (Hm Htask).
    congruence.
  - destruct (Hhov tm Hin) as (_ & _ & Hm). specialize (Hm Htask).
    congruence.
Qed.

Lemma unShowSortDropdown_frame s :
  nextTimerId (unShowSortDropdown s) = nextTimerId s + 1 ∧
  sortDropdownOpenTimeoutRef (unShowSortDropdown s)
    = Some (nextTimerId s) ∧
  moreDropdownOpenTimeoutRef (unShowSortDropdown s)
    = moreDropdownOpenTimeoutRef s ∧
  now (unShowSortDropdown s) = now s ∧
  isSortDropdownOpen (unShowSortDropdown s) = isSortDropdownOpen s ∧
  ∀ tm, tm ∈ timers (unShowSortDropdown s) →
    tm ∈ timers s ∨
    tm = {| tid := nextTimerId s; due := now s + 300;
            task := CloseSortDropdown |}.
Proof.
  unfold unShowSortDropdown.
  destruct (sortDropdownOpenTimeoutRef s) as [i|]; simpl;
    split_and!; try done;
    intros tm [Hin| ->%list_elem_of_singleton]%elem_of_app; auto.
  apply list_elem_of_filter in Hin as [_ Hin]. auto.
Qed.

Lemma unShowMoreDropdown_frame s :
  nextTimerId (unShowMoreDropdown s) = nextTimerId s + 1 ∧
  moreDropdownOpenTimeoutRef (unShowMoreDropdown s)
    = Some (nextTimerId s) ∧
  sortDropdownOpenTimeoutRef (unShowMoreDropdown s)
    = sortDropdownOpenTimeoutRef s ∧
  now (unShowMoreDropdown s) = now s ∧
  isMoreDropdownOpen (unShowMoreDropdown s) = isMoreDropdownOpen s ∧
  ∀ tm, tm ∈ timers (unShowMoreDropdown s) →
    tm ∈ timers s ∨
    tm = {| tid := nextTimerId s; due := now s + 300;
            task := CloseMoreDropdown |}.
Proof.
  unfold unShowMoreDropdown.
  destruct (moreDropdownOpenTimeoutRef s) as [i|]; simpl;
    split_and!; try done;
    intros tm [Hin| ->%list_elem_of_singleton]%elem_of_app; auto.
  apply list_elem_of_filter in Hin as [_ Hin]. auto.
Qed.

Lemma hovering_perform a s : hovering s → hovering (perform a s).
Proof.
  intros Hhov. destruct a; cbn [perform].
  - by apply (hovering_same_timers
                (clearTimeout (sortDropdownOpenTimeoutRef s) s)),
      hovering_clearTimeout.
  - destruct (unShowSortDropdown_frame s) as (Hn & Hr & Hr' & _ & _ & Hmem).
    intros tm Hin. rewrite Hn, Hr, Hr'. split_and!.
    + destruct (Hmem tm Hin) as [Hold| ->]; [|simpl; lia].
      destruct (Hhov tm Hold). lia.
    + intros Htask.
      by rewrite (unShowSortDropdown_schedules s tm Hhov Hin Htask).
    + intros Htask. destruct (Hmem tm Hin) as [Hold| ->]; [|done].
      by apply Hhov.
  - by apply (hovering_same_timers
                (clearTimeout (moreDropdownOpenTimeoutRef s) s)),
      hovering_clearTimeout.
  - destruct (unShowMoreDropdown_frame s) as (Hn & Hr & Hr' & _ & _ & Hmem).
    intros tm Hin. rewrite Hn, Hr, Hr'. split_and!.
    + destruct (Hmem tm Hin) as [Hold| ->]; [|simpl; lia].
      destruct (Hhov tm Hold). lia.
    + intros Htask. destruct (Hmem tm Hin) as [Hold| ->]; [|done].
      by apply Hhov.
    + intros Htask.
      by rewrite (unShowMoreDropdown_schedules s tm Hhov Hin Htask).
  - unfold clickCopy. destruct onCopy;
      by apply (hovering_same_timers (setTimeout ResetCopyStatus 1000 s).2),
        hovering_setTimeout.
  - unfold clickFormat. destruct onFormat;
      by apply (hovering_same_timers (setTimeout ResetFormatStatus 2000 s).2),
        hovering_setTimeout.
  - unfold clickClear. destruct onClear;
      by apply (hovering_same_timers (setTimeout ResetClearStatus 1000 s).2),
        hovering_setTimeout.
  - by destruct onCopy.
  - done.
  - by destruct onFieldSort.
  - destruct onMore as [[]|]; by destruct key.
  - destruct (bar_advance_frame dt s) as (Ht & Hn & Hr & Hr' & _).
    intros tm. rewrite Ht, Hn, Hr, Hr'.
    intros [_ Hin]%list_elem_of_filter. by apply Hhov.
Qed.

Lemma reachableState_hovering s : reachableState s → hovering s.
Proof.
  induction 1 as [|a s _ IH]; [|by apply hovering_perform].
  intros tm Hin. inversion Hin.
Qed.

End OperationBarFacts.


(* ===================================================================== *)
(** ** Properties *)
(* ===================================================================== *)

Import TabStore TabStoreFacts Json JsonFacts Editor EditorFacts.

Example closeTab_two_tabs :
  closeTab (u16 "2") (addTab initial) =
  {| tabs := [defaultTab]; activeTabKey := u16 "1"; nextKey := 3 |}.
Proof. vm_compute. reflexivity. Qed.

Example closeTab_inactive :
  activeTabKey (closeTab (u16 "1") (addTab (addTab initial))) = u16 "3".
Proof. vm_compute. reflexivity. Qed.

(** C10 as stated fails: the store reaches an empty tab list, by
    [closeOtherTabs] on a key that no tab has, and [closeTab] leaves it
    empty. *)
Lemma closeTab_leaves_empty_store :
  reachable (closeOtherTabs (u16 "9") (addTab initial)) ∧
  tabs (closeOtherTabs (u16 "9") (addTab initial)) = [] ∧
  tabs (closeTab (u16 "9") (closeOtherTabs (u16 "9") (addTab initial))) = [].
Proof.
  split; [|split; vm_compute; reflexivity].
  apply (reachable_dispatch (CloseOtherTabs (u16 "9"))),
    (reachable_dispatch AddTab), reachable_initial.
Qed.

(** C10, amended: in a store reached through its own functions,
    [closeTab] leaves the tab list empty exactly when it was empty before
    the call, which happens after [closeOtherTabs] or [closeRightTabs] on a
    key that no tab has; the empty list stays empty and [activeTabKey]
    becomes "1" when the key closed was the active one.  Closing the sole
    remaining tab resets the store to the single default tab (key "1")
    with [activeTabKey] "1"; closing one of several tabs removes exactly
    the tab with that key, and [activeTabKey] is re-pointed, to the last
    remaining tab, only when the closed key was the active one. *)
Theorem closeTab_keeps_a_tab (state : TabStore) (keyToRemove : jsstring) :
  reachable state →
  (tabs (closeTab keyToRemove state) = [] ↔ tabs state = []) ∧
  (tabs state = [] →
     closeTab keyToRemove state =
     {| tabs := [];
        activeTabKey :=
          if decide (keyToRemove = activeTabKey state) then u16 "1"
          else activeTabKey state;
        nextKey := nextKey state |}) ∧
  (length (tabs state) = 1%nat →
     closeTab keyToRemove state =
     {| tabs := [defaultTab]; activeTabKey := u16 "1"; nextKey := 2 |}) ∧
  ((1 < length (tabs state))%nat →
     nextKey (closeTab keyToRemove state) = nextKey state ∧
     (∀ l1 tab l2, tabs state = l1 ++ tab :: l2 → key tab = keyToRemove →
        tabs (closeTab keyToRemove state) = l1 ++ l2) ∧
     (keyToRemove ∉ key <$> tabs state →
        tabs (closeTab keyToRemove state) = tabs state) ∧
     (keyToRemove ≠ activeTabKey state →
        activeTabKey (closeTab keyToRemove state) = activeTabKey state) ∧
     (keyToRemove = activeTabKey state →
        key <$> last (tabs (closeTab keyToRemove state)) =
        Some (activeTabKey (closeTab keyToRemove state)))).
Proof.
  intros Hreach.
  destruct (reachable_keys_fresh _ Hreach) as [Hnd Hkeys].
  assert (tabs state ≠ [] → length (tabs state) ≠ 1%nat →
          filter (λ tab, key tab ≠ keyToRemove) (tabs state) ≠ []) as Hleft.
  { intros Hne Hlen Hnil.
    destruct (decide (keyToRemove ∈ key <$> tabs state)) as [Hin|Hnin].
    - apply list_elem_of_fmap in Hin as (tab & -> & Hin).
      apply list_elem_of_split in Hin as (l1 & l2 & Heq).
      rewrite Heq in Hnd, Hnil, Hlen.
      rewrite filter_key_split in Hnil by done.
      apply app_eq_nil in Hnil as [-> ->]. by apply Hlen.
    - destruct (tabs state) as [|tab l] eqn:Htabs; [done|].
      rewrite filter_cons_True in Hnil; [done|].
      intros Heq. apply Hnin. rewrite <- Heq. left. }
  unfold closeTab. case_decide as Hlen; simpl.
  - split_and!; [|by intros Hnil; rewrite Hnil in Hlen|done|lia].
    split; [done|]. intros Hnil. by rewrite Hnil in Hlen.
  - split_and!.
    + split; [|by intros ->].
      intros Hnil. destruct (decide (tabs state = [])) as [|Hne]; [done|].
      by destruct (Hleft Hne Hlen).
    + intros ->. simpl. by case_decide.
    + done.
    + intros Hmany.
      assert (tabs state ≠ []) as Hne
        by (intros Hnil; rewrite Hnil in Hmany; simpl in Hmany; lia).
      split_and!; [done| | | |].
      * intros l1 tab l2 Heq <-. rewrite Heq in Hnd |- *.
        by apply filter_key_split.
      * intros Hnin. clear -Hnin.
        induction (tabs state) as [|tab l IH]; [done|].
        rewrite fmap_cons, not_elem_of_cons in Hnin.
        destruct Hnin as [Hk Hl].
        rewrite filter_cons_True by done. f_equal. by apply IH.
      * intros Hother. by case_decide.
      * intros Hactive. case_decide; [|done].
        destruct (last _) as [tab|] eqn:Hlast.
        -- simpl. f_equal.
           apply last_Some_elem_of, list_elem_of_filter in Hlast as [_ Hin].
           destruct (Hkeys tab Hin) as (n & _ & Hn).
           pose proof (of_number_nonempty n) as Hnonempty.
           rewrite Hn. by destruct (of_number n).
        -- apply last_None in Hlast. by apply Hleft in Hlast.
Qed.

Lemma closeTab_keeps_a_tab_witness :
  reachable (addTab initial) ∧
  (tabs (closeTab (u16 "1") (addTab initial)) = [] ↔
   tabs (addTab initial) = []).
Proof.
  assert (reachable (addTab initial)) as Hreach
    by apply (reachable_dispatch AddTab), reachable_initial.
  split; [exact Hreach|].
  exact (proj1 (closeTab_keeps_a_tab (addTab initial) (u16 "1") Hreach)).
Defined.

(** *** Validation *)

Example reviewing_is_reached :
  reachableState (P := Sample.platform) (Sample.reviewing (u16 "{a:1,}")) ∧
  parseJsonError (Sample.reviewing (u16 "{a:1,}")) = Some Sample.unexpected ∧
  getValue <$> editorRef (Sample.reviewing (u16 "{a:1,}")) =
    Some (u16 "{a:1,}").
Proof.
  split; [|split; reflexivity].
  apply (reachableState_perform OpenDetails),
    (reachableState_perform (Wait 1000)),
    (reachableState_perform (Edit (u16 "{a:1,}"))),
    (reachableState_perform (Mount [] (u16 "json"))),
    reachableState_initial.
Qed.

Example validate_reports_error :
  editorValueValidate (P := Sample.platform) (u16 "{a:1,}")
    (Sample.editing (u16 "{a:1,}")) =
  (false, setParseJsonError (Some Sample.unexpected)
            (Sample.editing (u16 "{a:1,}"))).
Proof. vm_compute. reflexivity. Qed.

(** C5: for every text that is empty or consists only of whitespace,
    validation clears the parse error to null and returns true; the result
    is the same whatever the JSON and JSON5 parsers are, none of them is
    consulted. *)
Theorem editorValueValidate_blank (P : Platform) (val : jsstring) (s : State) :
  forallb isWhiteSpace val = true →
  editorValueValidate val s = (true, setParseJsonError None s) ∧
  parseJsonError (snd (editorValueValidate val s)) = None ∧
  ∀ P' : Platform,
    @editorValueValidate P' val s = @editorValueValidate P val s.
Proof.
  intros Hws.
  assert (∀ Q : Platform,
            @editorValueValidate Q val s = (true, setParseJsonError None s))
    as Hblank.
  { intros Q. unfold editorValueValidate. by rewrite (trim_whitespace _ Hws). }
  split_and!; [apply Hblank | by rewrite Hblank |].
  intros P'. by rewrite !Hblank.
Qed.

Lemma editorValueValidate_blank_witness :
  forallb isWhiteSpace [32; 9; 10; 160] = true ∧
  @editorValueValidate Sample.platform [32; 9; 10; 160]
    (Sample.reviewing (u16 "{a:1,}")) =
  (true, setParseJsonError None (Sample.reviewing (u16 "{a:1,}"))).
Proof.
  split; [reflexivity|].
  exact (proj1 (editorValueValidate_blank Sample.platform [32; 9; 10; 160]
                  (Sample.reviewing (u16 "{a:1,}")) eq_refl)).
Defined.

(** *** Auto-repair *)

(** C3: on a blank buffer the repair reports failure, a warning that there
    is no content, whatever [jsonrepair] is (no repair is attempted), and
    leaves the buffer, like the rest of the state, as it was; validating the
    same empty text reports validity (null, true). *)
Theorem autoFix_empty (P : Platform) (s : State) :
  (∀ ed, editorRef s = Some ed → getValue ed = []) →
  autoFix s = (false, toast ToastWarning msgNoContent s) ∧
  editorRef (snd (autoFix s)) = editorRef s ∧
  (∀ P' : Platform, @autoFix P' s = @autoFix P s) ∧
  editorValueValidate [] s = (true, setParseJsonError None s).
Proof.
  intros Hblank.
  assert (∀ Q : Platform,
            @autoFix Q s = (false, toast ToastWarning msgNoContent s)) as Hfix.
  { intros Q. unfold autoFix.
    destruct (editorRef s) as [ed|] eqn:Hed; [|done].
    by rewrite (Hblank ed eq_refl). }
  split_and!; [apply Hfix | by rewrite Hfix | | done].
  intros P'. by rewrite !Hfix.
Qed.

Lemma autoFix_empty_witness :
  (∀ ed, editorRef (Sample.editing []) = Some ed → getValue ed = []) ∧
  @autoFix Sample.platform (Sample.editing []) =
  (false, toast ToastWarning msgNoContent (Sample.editing [])).
Proof.
  assert (∀ ed, editorRef (Sample.editing []) = Some ed → getValue ed = [])
    as Hblank by (intros ed [= <-]; reflexivity).
  split; [exact Hblank|].
  exact (proj1 (autoFix_empty Sample.platform (Sample.editing []) Hblank)).
Defined.

Example autoFix_repairs_sample :
  getValue <$> editorRef
    (snd (autoFix (P := Sample.platform) (Sample.reviewing (u16 "{a:1,}")))) =
  Some (lit "{'a':1}").
Proof. vm_compute. reflexivity. Qed.




(** C9: when [jsonrepair] throws on a non-empty buffer, [autoFix] returns
    false, and the editor (its model and its view) and the parse
    error are exactly as before the call: only the failure notification is
    added. *)
Theorem autoFix_repair_fails (P : Platform) (s : State) (ed : CodeEditor) :
  editorRef s = Some ed → getValue ed ≠ [] →
  jsonrepair (getValue ed) = None →
  autoFix s = (false, toast ToastError msgRepairFailed s) ∧
  editorRef (snd (autoFix s)) = editorRef s ∧
  parseJsonError (snd (autoFix s)) = parseJsonError s.
Proof.
  intros Hed Hne Hthrow.
  assert (autoFix s = (false, toast ToastError msgRepairFailed s)) as Hfix.
  { unfold autoFix. rewrite Hed. simpl.
    destruct (getValue ed) as [|c rest] eqn:Hval; [done|].
    simpl. by rewrite Hthrow. }
  by rewrite Hfix.
Qed.

Lemma autoFix_repair_fails_witness :
  @autoFix Sample.platform (Sample.reviewing (u16 "not json")) =
  (false, toast ToastError msgRepairFailed
            (Sample.reviewing (u16 "not json"))).
Proof.
  refine (proj1 (autoFix_repair_fails Sample.platform
                   (Sample.reviewing (u16 "not json")) _ eq_refl _ _)).
  - vm_compute. discriminate.
  - vm_compute. reflexivity.
Defined.

(** *** Jump to the error line *)

(** C6: without a current parse error, or with one whose line is not at
    least 1, [goToErrorLine] reports failure and changes nothing else: no
    scroll, no highlight.  Otherwise, on the mounted editor, it reveals the
    stored line, highlights it and reports success. *)
Theorem goToErrorLine_refuses_or_reveals (s : State) :
  ((parseJsonError s = None ∨
    ∃ e, parseJsonError s = Some e ∧ ¬ (1 ≤ line e)%Z) →
   goToErrorLine s = toast ToastError msgLocateFailed s ∧
   editorRef (goToErrorLine s) = editorRef s ∧
   errorDecorationsRef (goToErrorLine s) = errorDecorationsRef s ∧
   timers (goToErrorLine s) = timers s) ∧
  (∀ e ed, parseJsonError s = Some e → (1 ≤ line e)%Z →
     editorRef s = Some ed →
     editorRef (goToErrorLine s) =
       Some {| model := model ed; revealedLine := Some (line e) |} ∧
     errorDecorationsRef (goToErrorLine s) = Some [line e] ∧
     toasts (goToErrorLine s) =
       {| kind := ToastSuccess; text := msgLocated |} :: toasts s).
Proof.
  split.
  - intros Hnone.
    assert (goToErrorLine s = toast ToastError msgLocateFailed s) as ->; [|done].
    unfold goToErrorLine. destruct Hnone as [->|(e & -> & Hline)]; [done|].
    destruct (Z.leb_spec (line e) 0); [done|lia].
  - intros e ed He Hline Hed. unfold goToErrorLine. rewrite He.
    destruct (Z.leb_spec (line e) 0); [lia|].
    unfold highlightErrorLine, closeJsonErrorDetailsModel. simpl.
    rewrite Hed. simpl. by destruct (errorDecorationsRef s).
Qed.

Lemma goToErrorLine_refuses_or_reveals_witness :
  goToErrorLine (Sample.editing (u16 "{}")) =
    toast ToastError msgLocateFailed (Sample.editing (u16 "{}")) ∧
  errorDecorationsRef (goToErrorLine (Sample.reviewing (u16 "{a:1,}"))) =
    Some [1%Z].
Proof.
  split.
  - apply (proj1 (goToErrorLine_refuses_or_reveals
                    (Sample.editing (u16 "{}")))).
    left. reflexivity.
  - refine (proj1 (proj2 (proj2 (goToErrorLine_refuses_or_reveals
                     (Sample.reviewing (u16 "{a:1,}")))
                   Sample.unexpected _ eq_refl _ eq_refl))).
    simpl. lia.
Defined.

(** *** Unescape *)

Example unescape_escaped_object :
  getValue <$> editorRef
    (snd (moreAction (P := Sample.platform) unescape
            (Sample.editing (lit "{\'a\':1}")))) =
  Some (lit "{" ++ [10] ++ lit "    'a': 1" ++ [10] ++ lit "}").
Proof. vm_compute. reflexivity. Qed.

Example unescape_scalar_rejected :
  moreAction (P := Sample.platform) unescape (Sample.editing (u16 "1")) =
  (false, toast ToastError msgNotJson (Sample.editing (u16 "1"))).
Proof. vm_compute. reflexivity. Qed.

(** C1: on the buffer text [t], unescape succeeds only if parsing [t]
    wrapped in double quotes succeeds, parsing the string it yields
    succeeds again, and the final value is an object or an array; the
    buffer then receives that value, pretty-printed.  If either parse fails
    or the final value is a scalar, it fails with an error notification and
    the editor is not modified. *)
Theorem unescape_accepts_only_composites
    (P : Platform) (s : State) (ed : CodeEditor) :
  editorRef s = Some ed →
  (∀ s', moreAction unescape s = (true, s') →
     ∃ v1 v2,
       JSON_parse ([34] ++ getValue ed ++ [34]) = Some v1 ∧
       JSON_parse (ToString v1) = Some v2 ∧
       isArrayOrObject v2 = true ∧
       s' = setEditorValue (JSON_stringify 4 v2) s) ∧
  ((JSON_parse ([34] ++ getValue ed ++ [34]) = None ∨
    ∃ v1, JSON_parse ([34] ++ getValue ed ++ [34]) = Some v1 ∧
      (JSON_parse (ToString v1) = None ∨
       ∃ v2, JSON_parse (ToString v1) = Some v2 ∧
             isArrayOrObject v2 = false)) →
   ∃ msg, msg ≠ [] ∧
     moreAction unescape s = (false, toast ToastError msg s) ∧
     editorRef (snd (moreAction unescape s)) = editorRef s).
Proof.
  intros Hed. unfold moreAction, formatModelByUnEscapeJson. rewrite Hed.
  destruct (getValue ed) as [|c t] eqn:Hval.
  - split; [intros s' [=]|]. intros _. by exists msgNoData.
  - destruct (JSON_parse ([34] ++ (c :: t) ++ [34])) as [v1|] eqn:Hp1;
      [destruct (JSON_parse (ToString v1)) as [v2|] eqn:Hp2;
        [destruct (isArrayOrObject v2) eqn:Hobj|]|]; simpl.
    + split.
      * intros s' [= <-]. by exists v1, v2.
      * intros [[=]|(w1 & [= <-] & [Hw|(w2 & Hw & Hscalar)])]; congruence.
    + split; [intros s' [=]|]. intros _. by exists msgNotJson.
    + split; [intros s' [=]|]. intros _. by exists msgNotEscaped.
    + split; [intros s' [=]|]. intros _. by exists msgNotEscaped.
Qed.

Lemma unescape_accepts_only_composites_witness :
  ∃ msg, msg ≠ [] ∧
    moreAction (P := Sample.platform) unescape (Sample.editing (u16 "1")) =
      (false, toast ToastError msg (Sample.editing (u16 "1"))) ∧
    editorRef (snd (moreAction (P := Sample.platform) unescape
                      (Sample.editing (u16 "1")))) =
      editorRef (Sample.editing (u16 "1")).
Proof.
  refine (proj2 (unescape_accepts_only_composites Sample.platform
                   (Sample.editing (u16 "1")) _ eq_refl) _).
  right. exists (JString (u16 "1")). split; [reflexivity|].
  right. exists (JNumber (u16 "1")). split; reflexivity.
Defined.

(** *** Comment removal *)

Example removeJsonComments_keeps_strings :
  removeJsonComments (lit "{'a': '// not a comment'} // tail") =
  lit "{'a': '// not a comment'} ".
Proof. vm_compute. reflexivity. Qed.

(** C8: removing the comments is idempotent: on every text, removing them
    twice yields what removing them once yields. *)
Theorem removeJsonComments_idempotent (x : jsstring) :
  removeJsonComments (removeJsonComments x) = removeJsonComments x.
Proof. exact (scan_resume (length x) Code x (le_n _)). Qed.

(** *** Field sorting *)

Example sortJson_nested :
  sortJson 2
    (JObject [(u16 "b", JArray [JObject [(u16 "z", JNull); (u16 "y", JNull)]]);
              (u16 "a", JBool true)]) asc =
  lit "{" ++ [10] ++ lit "  'a': true," ++ [10] ++ lit "  'b': [" ++ [10]
    ++ lit "    {" ++ [10] ++ lit "      'y': null," ++ [10]
    ++ lit "      'z': null" ++ [10] ++ lit "    }" ++ [10] ++ lit "  ]"
    ++ [10] ++ lit "}".
Proof. vm_compute. reflexivity. Qed.

(** C7: on the buffer [{"b":1,"a":2}], which the platform's parser reads as
    the object with the members b = 1 and a = 2 in this order and which
    validation accepts, and with an indentation of at least two blanks, the
    ascending field sort sets the buffer to the pretty-printed text with
    the key a before the key b, and the descending one to the text with b
    before a; every member is indented by at least two blanks, and the
    sorted value reaches the editor as a string. *)
Theorem fieldSort_orders_keys
    (P : Platform) (s : State) (ed : CodeEditor) (m : TextModel) :
  editorRef s = Some ed → model ed = Some m →
  value m = lit "{'b':1,'a':2}" →
  jsonParseError (lit "{'b':1,'a':2}") = None →
  json5ParseError (lit "{'b':1,'a':2}") = None →
  JSON_parse (lit "{'b':1,'a':2}") =
    Some (JObject [(u16 "b", JNumber (u16 "1"));
                   (u16 "a", JNumber (u16 "2"))]) →
  (2 ≤ sortIndent)%nat →
  (2 ≤ length (replicate (sortIndent `min` 10) 32))%nat ∧
  (∃ s', fieldSort asc s = Returned true s' ∧
     getValue <$> editorRef s' =
     Some (lit "{" ++ [10]
             ++ replicate (sortIndent `min` 10) 32 ++ lit "'a': 2," ++ [10]
             ++ replicate (sortIndent `min` 10) 32 ++ lit "'b': 1" ++ [10]
             ++ lit "}")) ∧
  (∃ s', fieldSort desc s = Returned true s' ∧
     getValue <$> editorRef s' =
     Some (lit "{" ++ [10]
             ++ replicate (sortIndent `min` 10) 32 ++ lit "'b': 1," ++ [10]
             ++ replicate (sortIndent `min` 10) 32 ++ lit "'a': 2" ++ [10]
             ++ lit "}")).
Proof.
  intros Hed Hm Hval Hvalid Hvalid5 Hparse Hindent.
  assert (getValue ed = lit "{'b':1,'a':2}") as Htext
    by (unfold getValue; by rewrite Hm).
  assert (editorValueValidate (lit "{'b':1,'a':2}") s =
          (true, setParseJsonError None s)) as Hvalidate.
  { unfold editorValueValidate.
    destruct (trim (lit "{'b':1,'a':2}")) as [|c rest] eqn:Htrim;
      [by vm_compute in Htrim|].
    case_decide; [by rewrite Hvalid5 | by rewrite Hvalid]. }
  assert (∀ order, fieldSort order s =
            Returned true
              (setEditorValue
                 (sortJson sortIndent
                    (JObject [(u16 "b", JNumber (u16 "1"));
                              (u16 "a", JNumber (u16 "2"))]) order)
                 (setParseJsonError None s))) as Hsort.
  { intros order. unfold fieldSort.
    rewrite Hed, Htext, Hvalidate. simpl negb. cbv iota.
    by rewrite Hparse. }
  assert (∀ text,
            getValue <$> editorRef (setEditorValue text
                                      (setParseJsonError None s)) =
            Some text) as Hset.
  { intros text. rewrite (setEditorValue_editorRef _ _ ed m); [done..|].
    left. by rewrite Hval. }
  rewrite length_replicate.
  destruct (sortIndent `min` 10)%nat as [|k] eqn:Hk; [lia|].
  split_and!; [lia| |].
  - eexists. split; [apply Hsort|]. rewrite Hset. f_equal.
    unfold sortJson, JSON_stringify. rewrite Hk.
    vm_compute sortKeys. cbn. rewrite <- ?app_assoc. reflexivity.
  - eexists. split; [apply Hsort|]. rewrite Hset. f_equal.
    unfold sortJson, JSON_stringify. rewrite Hk.
    vm_compute sortKeys. cbn. rewrite <- ?app_assoc. reflexivity.
Qed.

Lemma fieldSort_orders_keys_witness :
  ∃ s', fieldSort (P := Sample.platform) asc
          (Sample.editing (lit "{'b':1,'a':2}")) = Returned true s' ∧
    getValue <$> editorRef s' =
    Some (lit "{" ++ [10] ++ lit "  'a': 2," ++ [10] ++ lit "  'b': 1"
            ++ [10] ++ lit "}").
Proof.
  refine (proj1 (proj2 (fieldSort_orders_keys Sample.platform
                          (Sample.editing (lit "{'b':1,'a':2}"))
                          _ _ eq_refl eq_refl eq_refl eq_refl eq_refl
                          eq_refl _))).
  simpl. lia.
Defined.

(** *** Debounced validation *)

Example burst_validates_last_text :
  validations
    (advance (P := Sample.platform) 1000
       (burst (P := Sample.platform) [(200, u16 "{a"); (300, u16 "{a:1,}")]
          (contentChange (u16 "{") (Sample.editing []))).2).1 =
  [ValidateTask (u16 "{a:1,}")].
Proof. vm_compute. reflexivity. Qed.

(** C4: on a JSON or JSON5 buffer, a content change cancels the waiting
    validation and schedules the validation of the new text 1000 ms later.
    Through a burst of changes less than 1000 ms apart no validation runs;
    after it exactly one validation is waiting, of the text of the last
    change, and it is the only validation that runs once 1000 ms have
    passed. *)
Theorem validation_is_debounced
    (P : Platform) (s : State) (text0 : jsstring)
    (events : list (N * jsstring)) :
  jsonBuffer s → debounced s → Forall (λ e, e.1 < 1000) events →
  pendingValidations (contentChange text0 s) =
    [{| tid := nextTimerId s; due := now s + 1000;
        task := ValidateTask text0 |}] ∧
  validations (burst events (contentChange text0 s)).1 = [] ∧
  (∃ id, pendingValidations (burst events (contentChange text0 s)).2 =
     [{| tid := id;
         due := now (burst events (contentChange text0 s)).2 + 1000;
         task := ValidateTask (default text0 (last (snd <$> events))) |}]) ∧
  validations (advance 1000 (burst events (contentChange text0 s)).2).1 =
    [ValidateTask (default text0 (last (snd <$> events)))] ∧
  pendingValidations (advance 1000 (burst events (contentChange text0 s)).2).2
    = [].
Proof.
  intros Hjson Hdeb Hgaps.
  destruct (contentChange_schedules text0 s Hjson Hdeb)
    as (Hjson1 & Hdeb1 & Hnow & _ & Hone).
  split; [exact Hone|].
  rewrite <- Hnow in Hone.
  destruct (burst_debounced events (contentChange text0 s) text0
              Hjson1 Hdeb1 (ex_intro _ _ Hone) Hgaps)
    as (Hran & _ & _ & id & Hlast).
  split; [exact Hran|]. split; [by exists id|].
  destruct (advance_validations 1000 _ _ Hlast) as [Hfired Hleft].
  cbn [due task] in Hfired, Hleft.
  rewrite decide_True in Hfired by lia.
  by rewrite decide_True in Hleft by lia.
Qed.

Lemma validation_is_debounced_witness :
  validations
    (advance (P := Sample.platform) 1000
       (burst (P := Sample.platform) [(200, u16 "{a"); (300, u16 "{a:1,}")]
          (contentChange (u16 "{") (Sample.editing []))).2).1 =
  [ValidateTask (u16 "{a:1,}")].
Proof.
  refine (proj1 (proj2 (proj2 (proj2
    (validation_is_debounced Sample.platform (Sample.editing []) (u16 "{")
       [(200, u16 "{a"); (300, u16 "{a:1,}")] _ _ _))))).
  - eexists _, _. split_and!; [reflexivity|reflexivity|]. left. reflexivity.
  - split; [reflexivity|]. intros tm Hin. inversion Hin.
  - repeat constructor.
Defined.

(* ===================================================================== *)
(** ** More properties of the tab store *)
(* ===================================================================== *)

(** X1: in every store reached through the store's functions no two tabs
    share a key, and the key [addTab] is about to hand out is not the key
    of an open tab, even after [closeAllTabs] has reset the counter. *)
Theorem store_keys_stay_distinct (state : TabStore) :
  reachable state →
  NoDup (key <$> tabs state) ∧
  (of_number (nextKey state) ∉ key <$> tabs state) ∧
  NoDup (key <$> tabs (addTab state)).
Proof.
  intros Hreach. pose proof (reachable_keys_fresh _ Hreach) as Hfresh.
  split_and!; [by destruct Hfresh | by apply nextKey_fresh |].
  by destruct (keys_fresh_addTab _ Hfresh).
Qed.

Lemma store_keys_stay_distinct_witness :
  NoDup (key <$> tabs (addTab (closeAllTabs (addTab (addTab initial))))).
Proof.
  refine (proj1 (store_keys_stay_distinct _ _)).
  apply (reachable_dispatch AddTab), (reachable_dispatch CloseAllTabs),
    (reachable_dispatch AddTab), (reachable_dispatch AddTab),
    reachable_initial.
Defined.

(** X2: after [addTab], looking the new key up returns the new tab, the
    new tab is the active tab, every other key finds what it found before,
    and the list is one tab longer. *)
Theorem addTab_then_lookup (state : TabStore) :
  reachable state →
  getTabByKey (of_number (nextKey state)) (addTab state)
    = Some (newTabOf state) ∧
  activeTab (addTab state) = Some (newTabOf state) ∧
  (∀ k, k ≠ of_number (nextKey state) →
     getTabByKey k (addTab state) = getTabByKey k state) ∧
  length (tabs (addTab state)) = S (length (tabs state)).
Proof.
  intros Hreach.
  pose proof (nextKey_fresh _ (reachable_keys_fresh _ Hreach)) as Hfresh.
  assert (getTabByKey (of_number (nextKey state)) (addTab state)
          = Some (newTabOf state)) as Hnew.
  { unfold getTabByKey, find. cbn [addTab tabs].
    rewrite list_find_app_r by by apply find_missing.
    simpl. by rewrite decide_True. }
  split_and!; [done| | |].
  - unfold activeTab.
    change (activeTabKey (addTab state)) with (of_number (nextKey state)).
    unfold getTabByKey in Hnew. by rewrite Hnew.
  - intros k Hk. unfold getTabByKey, find. cbn [addTab tabs].
    destruct (list_find (λ tab, key tab = k) (tabs state))
      as [[i x]|] eqn:Hf.
    + by rewrite (list_find_app_l _ _ _ _ _ Hf).
    + rewrite list_find_app_r by done. simpl.
      by rewrite decide_False by (simpl; congruence).
  - cbn [addTab tabs]. rewrite length_app. simpl. lia.
Qed.

Lemma addTab_then_lookup_witness :
  activeTab (addTab (addTab initial)) = Some (newTabOf (addTab initial)).
Proof.
  refine (proj1 (proj2 (addTab_then_lookup (addTab initial) _))).
  apply (reachable_dispatch AddTab), reachable_initial.
Defined.

(** X3: closing the tab that [addTab] has just created gives the tab list
    back as it was; the key counter is not wound back, and the active tab
    becomes the last tab of the list, whichever tab was active before. *)
Theorem addTab_then_closeTab (state : TabStore) :
  reachable state → tabs state ≠ [] →
  tabs (closeTab (of_number (nextKey state)) (addTab state)) = tabs state ∧
  nextKey (closeTab (of_number (nextKey state)) (addTab state))
    = nextKey state + 1 ∧
  key <$> last (tabs state) =
    Some (activeTabKey (closeTab (of_number (nextKey state)) (addTab state))).
Proof.
  intros Hreach Hne.
  pose proof (reachable_keys_fresh _ Hreach) as Hfresh.
  pose proof (nextKey_fresh _ Hfresh) as Hnew.
  assert (filter (λ tab, key tab ≠ of_number (nextKey state))
            (tabs state ++ [newTabOf state]) = tabs state) as Hfilter.
  { rewrite filter_app, filter_cons_False, filter_nil, app_nil_r
      by (simpl; auto).
    clear -Hnew. induction (tabs state) as [|tab l IH]; [done|].
    rewrite fmap_cons, not_elem_of_cons in Hnew. destruct Hnew as [Hk Hl].
    rewrite filter_cons_True by done. f_equal. by apply IH. }
  unfold closeTab. cbn [addTab tabs activeTabKey nextKey].
  rewrite decide_False.
  2:{ rewrite length_app. simpl. destruct (tabs state); [done|simpl; lia]. }
  cbn [tabs activeTabKey nextKey]. rewrite decide_True by done.
  change {| key := of_number (nextKey state);
            title := u16 "New Tab " ++ of_number (nextKey state);
            content := u16 "New Tab " ++ of_number (nextKey state)
                         ++ [32; 30340; 20869; 23481];
            closable := Some true |} with (newTabOf state).
  rewrite Hfilter. split_and!; [done..|].
  destruct (last (tabs state)) as [tab|] eqn:Hlast.
  - simpl. f_equal. destruct Hfresh as [_ Hkeys].
    destruct (Hkeys tab (last_Some_elem_of _ _ Hlast)) as (n & _ & Hn).
    pose proof (of_number_nonempty n). rewrite Hn. by destruct (of_number n).
  - by apply last_None in Hlast.
Qed.

Lemma addTab_then_closeTab_witness :
  tabs (closeTab (of_number (nextKey (addTab initial)))
          (addTab (addTab initial))) = tabs (addTab initial).
Proof.
  refine (proj1 (addTab_then_closeTab (addTab initial) _ _)).
  - apply (reachable_dispatch AddTab), reachable_initial.
  - vm_compute. discriminate.
Defined.

(** X4: closing the tabs to the left and then the tabs to the right of a
    key, in either order, is closing the other tabs, whether or not the key
    is open. *)
Theorem closeLeft_closeRight_is_closeOther
    (currentKey : jsstring) (state : TabStore) :
  closeRightTabs currentKey (closeLeftTabs currentKey state)
    = closeOtherTabs currentKey state ∧
  closeLeftTabs currentKey (closeRightTabs currentKey state)
    = closeOtherTabs currentKey state.
Proof.
  destruct (list_find (λ tab, key tab = currentKey) (tabs state))
    as [[i x]|] eqn:Hf.
  - pose proof Hf as (Hi & Hx & Hleast)%list_find_Some.
    rewrite (closeOtherTabs_found _ _ _ _ Hf),
      (closeLeftTabs_found _ _ _ _ Hf), (closeRightTabs_found _ _ _ _ Hf).
    split.
    + erewrite (closeRightTabs_found _ _ 0 x); [done|].
      simpl. by rewrite decide_True.
    + pose proof (lookup_lt_Some _ _ _ Hi) as Hlt.
      erewrite (closeLeftTabs_found _ _ i x).
      * cbn [tabs nextKey]. do 2 f_equal.
        apply drop_ge. rewrite length_app, length_take. simpl. lia.
      * cbn [tabs]. apply list_find_Some. split_and!; [|done|].
        -- rewrite lookup_app_r by (rewrite length_take; lia).
           rewrite length_take. by replace (i - i `min` _)%nat with 0%nat by lia.
        -- intros j y Hj Hji. apply (Hleast j y); [|done].
           rewrite lookup_app_l in Hj by (rewrite length_take; lia).
           by rewrite lookup_take_lt in Hj.
  - rewrite (closeOtherTabs_missing _ _ Hf),
      (closeLeftTabs_missing _ _ Hf), (closeRightTabs_missing _ _ Hf).
    split.
    + rewrite closeRightTabs_missing; [done|]. cbn [tabs].
      apply list_find_None. apply list_find_None in Hf.
      destruct (last (tabs state)) as [x|] eqn:Hlast; [|constructor].
      constructor; [|constructor].
      rewrite Forall_forall in Hf. by apply Hf, last_Some_elem_of.
    + by rewrite closeLeftTabs_missing.
Qed.

(** X5: with a key that no open tab carries, [closeOtherTabs] and
    [closeRightTabs] empty the tab list, [closeLeftTabs] keeps the last tab
    alone, which [activeTab] then falls back to, and [renameTab] and the
    look-up find nothing to change; the three closing functions make the
    unknown key the active key all the same. *)
Theorem unknown_key_behaviour
    (k newTitle : jsstring) (state : TabStore) :
  k ∉ key <$> tabs state →
  tabs (closeOtherTabs k state) = [] ∧
  tabs (closeRightTabs k state) = [] ∧
  tabs (closeLeftTabs k state) = option_list (last (tabs state)) ∧
  activeTab (closeLeftTabs k state) = last (tabs state) ∧
  activeTabKey (closeOtherTabs k state) = k ∧
  activeTabKey (closeRightTabs k state) = k ∧
  activeTabKey (closeLeftTabs k state) = k ∧
  getTabByKey k state = None ∧
  tabs (renameTab k newTitle state) = tabs state.
Proof.
  intros Hnin. pose proof (find_missing _ _ Hnin) as Hf.
  rewrite (closeOtherTabs_missing _ _ Hf), (closeLeftTabs_missing _ _ Hf),
    (closeRightTabs_missing _ _ Hf).
  split_and!; try done.
  - unfold activeTab, find. cbn [tabs activeTabKey].
    destruct (last (tabs state)) as [x|] eqn:Hlast; [|done].
    simpl. rewrite decide_False; [done|].
    intros Hk. apply Hnin. rewrite <- Hk.
    by apply list_elem_of_fmap_2, last_Some_elem_of.
  - unfold getTabByKey, find. by rewrite Hf.
  - unfold renameTab. destruct (trim newTitle); [done|]. simpl.
    clear Hf. induction (tabs state) as [|tab l IH]; [done|].
    rewrite fmap_cons, not_elem_of_cons in Hnin. destruct Hnin as [Hk Hl].
    rewrite fmap_cons, (IH Hl). by rewrite decide_False by done.
Qed.

Lemma unknown_key_behaviour_witness :
  tabs (closeLeftTabs (u16 "9") (addTab initial)) = [newTabOf initial].
Proof.
  refine (proj1 (proj2 (proj2
    (unknown_key_behaviour (u16 "9") [] (addTab initial) _)))).
  apply (bool_decide_unpack _). by vm_compute.
Defined.

Lemma active_open_closeTab k state :
  keys_fresh state → tabs state ≠ [] →
  activeTabKey state ∈ key <$> tabs state →
  activeTabKey (closeTab k state) ∈ key <$> tabs (closeTab k state).
Proof.
  intros Hfresh Hne Hact.
  pose proof (closeTab_nonempty k _ Hfresh Hne) as Hne'.
  pose proof (keys_fresh_closeTab k _ Hfresh) as [_ Hkeys].
  revert Hne' Hkeys. unfold closeTab.
  case_decide as Hlen; [intros _ _; apply list_elem_of_here|].
  cbn [tabs activeTabKey nextKey]. intros Hne' Hkeys.
  case_decide as Hk.
  - destruct (last (filter _ (tabs state))) as [tab|] eqn:Hlast.
    + apply last_Some_elem_of in Hlast.
      destruct (Hkeys tab Hlast) as (n & _ & Hn).
      pose proof (of_number_nonempty n) as Hn'. rewrite <- Hn in Hn'.
      replace (or_else (key tab) (u16 "1")) with (key tab)
        by by destruct (key tab).
      by apply list_elem_of_fmap_2.
    + by apply last_None in Hlast.
  - apply list_elem_of_fmap in Hact as (tab & Hkey & Hin).
    rewrite Hkey. apply list_elem_of_fmap_2, list_elem_of_filter.
    split; [congruence|done].
Qed.

Lemma operated_active_open state :
  operated state →
  tabs state ≠ [] ∧ activeTabKey state ∈ key <$> tabs state.
Proof.
  induction 1 as [|a state Hop [Hne Hact] Haddr].
  { split; [done|]. apply list_elem_of_here. }
  pose proof (reachable_keys_fresh _ (operated_reachable _ Hop)) as Hfresh.
  destruct a; cbn [dispatch addressed] in *.
  - cbn [addTab tabs activeTabKey]. split; [by destruct (tabs state)|].
    rewrite fmap_app. apply elem_of_app. right. left.
  - split; [by apply closeTab_nonempty | by apply active_open_closeTab].
  - done.
  - unfold renameTab. destruct (trim newTitle); [done|].
    cbn [tabs activeTabKey]. split; [by destruct (tabs state)|].
    rewrite <- list_fmap_compose.
    erewrite list_fmap_ext; [exact Hact|].
    intros i tab _. simpl. by case_decide.
  - destruct (find_open _ _ Haddr) as (i & x & Hf & _ & Hx).
    rewrite (closeOtherTabs_found _ _ _ _ Hf). cbn [tabs activeTabKey].
    split; [done|]. rewrite <- Hx. left.
  - destruct (find_open _ _ Haddr) as (i & x & Hf & _ & Hx).
    rewrite (closeLeftTabs_found _ _ _ _ Hf). cbn [tabs activeTabKey].
    split; [done|]. rewrite <- Hx. left.
  - destruct (find_open _ _ Haddr) as (i & x & Hf & _ & Hx).
    rewrite (closeRightTabs_found _ _ _ _ Hf). cbn [tabs activeTabKey].
    split; [by destruct (take i (tabs state))|].
    rewrite fmap_app, <- Hx. apply elem_of_app. right. left.
  - split; [done|]. apply list_elem_of_here.
Qed.

(** X6: as long as the tab bar passes the keys of open tabs to
    [setActiveTab], [closeOtherTabs], [closeLeftTabs] and [closeRightTabs],
    the store always has a tab, the active key is the key of an open tab,
    and [activeTab] returns that tab and never falls back to the first
    one. *)
Theorem active_tab_is_open (state : TabStore) :
  operated state →
  tabs state ≠ [] ∧
  ∃ tab, activeTab state = Some tab ∧ tab ∈ tabs state ∧
         key tab = activeTabKey state.
Proof.
  intros [Hne Hact]%operated_active_open. split; [done|].
  destruct (find_open _ _ Hact) as (i & x & Hf & Hi & Hx).
  exists x. unfold activeTab, find. rewrite Hf. simpl.
  split_and!; [done| |done]. by eapply list_elem_of_lookup_2.
Qed.

Lemma active_tab_is_open_witness :
  ∃ tab, activeTab (closeTab (u16 "3")
                      (setActiveTab (u16 "3") (addTab (addTab initial))))
           = Some tab ∧
         tab ∈ tabs (closeTab (u16 "3")
                      (setActiveTab (u16 "3") (addTab (addTab initial)))) ∧
         key tab = activeTabKey (closeTab (u16 "3")
                      (setActiveTab (u16 "3") (addTab (addTab initial)))).
Proof.
  refine (proj2 (active_tab_is_open _ _)).
  apply (operated_dispatch (CloseTab (u16 "3"))); [|exact I].
  apply (operated_dispatch (SetActiveTab (u16 "3"))).
  - apply (operated_dispatch AddTab); [|exact I].
    apply (operated_dispatch AddTab); [|exact I].
    apply operated_initial.
  - cbn [addressed]. apply (bool_decide_unpack _). by vm_compute.
Defined.

(** X7: whatever is done to the store, every tab carries a non-empty key,
    a non-empty title and the closable flag: [renameTab] cannot blank a
    title, and no function clears a key or the flag. *)
Theorem tabs_stay_well_formed (state : TabStore) :
  reachable state →
  Forall (λ tab, key tab ≠ [] ∧ title tab ≠ [] ∧ closable tab = Some true)
         (tabs state).
Proof.
  induction 1 as [|a state Hreach IH].
  { repeat constructor; by vm_compute. }
  rewrite Forall_forall in IH. apply Forall_forall. intros tab Hin.
  apply dispatch_tab in Hin
    as [Hin|[->|[->|(tab0 & t & Hin & Ht & ->)]]].
  - by apply IH.
  - by vm_compute.
  - split_and!; [apply of_number_nonempty|by vm_compute|done].
  - destruct (IH _ Hin) as (Hk & _ & Hc). by cbn [key title closable].
Qed.

Lemma tabs_stay_well_formed_witness :
  Forall (λ tab, key tab ≠ [] ∧ title tab ≠ [] ∧ closable tab = Some true)
         (tabs (renameTab (u16 "2") (u16 "  ") (addTab initial))).
Proof.
  apply tabs_stay_well_formed.
  apply (reachable_dispatch (RenameTab (u16 "2") (u16 "  "))),
    (reachable_dispatch AddTab), reachable_initial.
Defined.

(** X8: [renameTab] with a title that is not blank changes what a look-up
    of the renamed key returns, in the title alone and to the trimmed
    title, and nothing else: the other keys find the tabs they found
    before, and keys, contents, order, active key and counter stay as they
    were. *)
Theorem renameTab_then_lookup (k newTitle k' : jsstring) (state : TabStore) :
  trim newTitle ≠ [] →
  getTabByKey k' (renameTab k newTitle state) =
    (if decide (k' = k)
     then (λ tab, {| key := key tab; title := trim newTitle;
                     content := content tab; closable := closable tab |})
            <$> getTabByKey k state
     else getTabByKey k' state) ∧
  key <$> tabs (renameTab k newTitle state) = key <$> tabs state ∧
  content <$> tabs (renameTab k newTitle state) = content <$> tabs state ∧
  activeTabKey (renameTab k newTitle state) = activeTabKey state ∧
  nextKey (renameTab k newTitle state) = nextKey state.
Proof.
  intros Ht. unfold renameTab. destruct (trim newTitle) as [|c t] eqn:Htrim;
    [done|]. cbn [tabs activeTabKey nextKey]. split_and!; try done.
  - unfold getTabByKey, find. cbn [tabs]. generalize (c :: t). intros t'.
    rewrite list_find_fmap.
    rewrite (list_find_ext _ (λ tab, key tab = k'))
      by (intros tab; simpl; by case_decide).
    destruct (list_find (λ tab, key tab = k') (tabs state))
      as [[i x]|] eqn:Hf.
    + apply list_find_Some in Hf as Hx. destruct Hx as (_ & Hx & _).
      case_decide as Hk; simpl.
      * rewrite <- Hk, Hf. simpl. by rewrite decide_True.
      * by rewrite decide_False by congruence.
    + case_decide as Hk; [|done]. by rewrite <- Hk, Hf.
  - rewrite <- list_fmap_compose. apply list_fmap_ext.
    intros i tab _. simpl. by case_decide.
  - rewrite <- list_fmap_compose. apply list_fmap_ext.
    intros i tab _. simpl. by case_decide.
Qed.

Lemma renameTab_then_lookup_witness :
  title <$> getTabByKey (u16 "2")
              (renameTab (u16 "2") (u16 " data ") (addTab initial))
    = Some (u16 "data").
Proof.
  rewrite (proj1 (renameTab_then_lookup (u16 "2") (u16 " data ") (u16 "2")
                    (addTab initial) ltac:(by vm_compute))).
  reflexivity.
Defined.

(** X24: with the key of an open tab, [closeRightTabs] and
    [closeLeftTabs] cut the tab list at the first tab that carries the
    key: the tabs the one keeps, followed by the tabs the other keeps but
    for its first, are the tab list, and the tab with the key is the last
    tab of the one and the first of the other. *)
Theorem closeLeft_closeRight_split
    (currentKey : jsstring) (state : TabStore) :
  currentKey ∈ key <$> tabs state →
  tabs (closeRightTabs currentKey state)
    ++ drop 1 (tabs (closeLeftTabs currentKey state)) = tabs state ∧
  last (tabs (closeRightTabs currentKey state))
    = head (tabs (closeLeftTabs currentKey state)) ∧
  key <$> head (tabs (closeLeftTabs currentKey state)) = Some currentKey ∧
  head (tabs (closeLeftTabs currentKey state))
    = getTabByKey currentKey state.
Proof.
  intros Hopen. destruct (find_open _ _ Hopen) as (i & x & Hf & Hi & Hx).
  rewrite (closeLeftTabs_found _ _ _ _ Hf), (closeRightTabs_found _ _ _ _ Hf).
  unfold getTabByKey, find. rewrite Hf. cbn [tabs head drop fmap option_fmap
    option_map snd].
  split_and!; [|by rewrite last_snoc|by rewrite Hx|done].
  rewrite <- app_assoc. simpl.
  rewrite <- (take_drop_middle (tabs state) i x Hi) at 3. done.
Qed.

Lemma closeLeft_closeRight_split_witness :
  tabs (closeRightTabs (u16 "2") (addTab (addTab initial)))
    ++ drop 1 (tabs (closeLeftTabs (u16 "2") (addTab (addTab initial))))
  = tabs (addTab (addTab initial)).
Proof.
  refine (proj1 (closeLeft_closeRight_split (u16 "2")
                   (addTab (addTab initial)) _)).
  apply (bool_decide_unpack _). by vm_compute.
Defined.

(* ===================================================================== *)
(** ** More properties of the editor component *)
(* ===================================================================== *)

(** X9: on a JSON or JSON5 buffer, through a burst of content changes
    less than 1000 ms apart the parse error shown stays the one shown
    before the burst, whatever is typed; [dt] ms after the last change it
    is still that one while [dt] is below 1000, and from 1000 ms on it is
    the verdict of [editorValueValidate] on the text of the last change. *)
Theorem debounce_delivers_diagnosis
    (P : Platform) (s : State) (text0 : jsstring)
    (events : list (N * jsstring)) (dt : N) :
  jsonBuffer s → debounced s → Forall (λ e, e.1 < 1000) events →
  parseJsonError (burst events (contentChange text0 s)).2
    = parseJsonError s ∧
  parseJsonError (advance dt (burst events (contentChange text0 s)).2).2 =
    if decide (1000 ≤ dt)
    then parseJsonError
           (editorValueValidate (default text0 (last (snd <$> events))) s).2
    else parseJsonError s.
Proof.
  intros Hjson Hdeb Hgaps.
  destruct (contentChange_schedules text0 s Hjson Hdeb)
    as (Hjson1 & Hdeb1 & Hnow & _ & Hone).
  rewrite <- Hnow in Hone.
  destruct (burst_debounced events (contentChange text0 s) text0
              Hjson1 Hdeb1 (ex_intro _ _ Hone) Hgaps)
    as (_ & _ & _ & id & Hlast).
  destruct (burst_parseJsonError events (contentChange text0 s) text0
              Hjson1 Hdeb1 (ex_intro _ _ Hone) Hgaps)
    as [Herr Hlang].
  assert (parseJsonError (contentChange text0 s) = parseJsonError s) as Herr0
    by apply contentChange_frame.
  split; [by rewrite Herr|].
  rewrite (pending_parseJsonError dt _ _ _ Hlast), Herr, Herr0.
  case_decide; [|done].
  apply editorValueValidate_language. rewrite Hlang.
  apply contentChange_currentLanguageId.
Qed.

Lemma debounce_delivers_diagnosis_witness :
  parseJsonError
    (advance (P := Sample.platform) 1500
       (burst (P := Sample.platform) [(200, u16 "{a"); (300, u16 "{")]
          (contentChange (u16 "[") (Sample.editing []))).2).2
  = Some Sample.unexpected.
Proof.
  assert (jsonBuffer (Sample.editing [])) as Hjson.
  { eexists _, _. split_and!; [reflexivity|reflexivity|]. left. reflexivity. }
  assert (debounced (Sample.editing [])) as Hdeb.
  { split; [reflexivity|]. intros tm Hin. inversion Hin. }
  assert (Forall (λ e : N * jsstring, e.1 < 1000)
            [(200, u16 "{a"); (300, u16 "{")]) as Hgaps.
  { repeat constructor. }
  rewrite (proj2 (debounce_delivers_diagnosis Sample.platform
                    (Sample.editing []) (u16 "[")
                    [(200, u16 "{a"); (300, u16 "{")] 1500 Hjson Hdeb Hgaps)).
  reflexivity.
Defined.

(** X10: [clear] on a mounted editor with a model answers true and leaves
    the buffer empty and the parse error as it was.  On a buffer that is
    empty already the edit is none: the state is as before the call, so
    the parent is handed nothing and no validation is set.  On any other
    buffer the content is replaced by the empty text, which is handed to
    the parent; the parse error is not reset by the call: on a JSON or
    JSON5 buffer it stays until the debounced validation of the empty text
    runs, 1000 ms later, and is gone from then on. *)
Theorem clear_empties_then_revalidates
    (P : Platform) (s : State) (ed : CodeEditor) (m : TextModel) (dt : N) :
  editorRef s = Some ed → model ed = Some m →
  (clear s).1 = true ∧
  getValue <$> editorRef (clear s).2 = Some [] ∧
  parseJsonError (clear s).2 = parseJsonError s ∧
  (value m = [] → (clear s).2 = s) ∧
  (value m ≠ [] →
   editorRef (clear s).2 =
     Some {| model := Some (replaceAll [] m);
             revealedLine := revealedLine ed |} ∧
   updates (clear s).2 = [] :: updates s ∧
   (languageId m = u16 "json" ∨ languageId m = u16 "json5" → debounced s →
    parseJsonError (advance dt (clear s).2).2 =
      if decide (1000 ≤ dt) then None else parseJsonError s)).
Proof.
  intros Hed Hm. unfold clear. rewrite Hed. cbn [fst snd].
  assert (parseJsonError (setEditorValue [] s) = parseJsonError s) as Herr
    by apply setEditorValue_frame.
  split_and!; [done| |done| |].
  - destruct (decide (value m = [])) as [Hval|Hval].
    + rewrite (setEditorValue_dropped s ed m Hed Hm Hval), Hed.
      unfold getValue. simpl. by rewrite Hm, Hval.
    + by rewrite (setEditorValue_editorRef [] s ed m Hed Hm (or_introl Hval)).
  - intros Hval. by apply (setEditorValue_dropped s ed m).
  - intros Hval.
    pose proof (setEditorValue_contentChange [] s ed m Hed Hm
                  (or_introl Hval)) as Hchange.
    split_and!.
    + by rewrite (setEditorValue_editorRef [] s ed m Hed Hm (or_introl Hval)).
    + by apply (setEditorValue_updates [] s ed m); [..|left].
    + intros Hlang Hdeb.
      destruct (contentChange_schedules [] s) as (_ & _ & Hnow & _ & Hone);
        [by exists ed, m|done|].
      rewrite <- Hnow in Hone. rewrite Hchange.
      rewrite (pending_parseJsonError dt _ _ _ Hone), <- Hchange, Herr.
      by case_decide.
Qed.

Lemma clear_empties_then_revalidates_witness :
  parseJsonError
    (advance (P := Sample.platform) 1000
       (clear (Sample.reviewing (u16 "{"))).2).2
  = None.
Proof.
  refine (proj2 (proj2 (proj2 (proj2 (proj2 (proj2
    (clear_empties_then_revalidates Sample.platform
       (Sample.reviewing (u16 "{")) _ _ 1000 eq_refl eq_refl)))) _)) _ _).
  - discriminate.
  - left. reflexivity.
  - split; [reflexivity|]. intros tm Hin. vm_compute in Hin. inversion Hin.
Defined.

(** X11: on a buffer whose language is neither JSON nor JSON5 a content
    change is handed to the parent and nothing more: no timer is set, and
    with no validation waiting the parse error shown stays, however long
    one waits. *)
Theorem other_language_never_validates
    (P : Platform) (s : State) (ed : CodeEditor) (m : TextModel)
    (text : jsstring) (dt : N) :
  editorRef s = Some ed → model ed = Some m →
  languageId m ≠ u16 "json" → languageId m ≠ u16 "json5" →
  updates (contentChange text s) = text :: updates s ∧
  timers (contentChange text s) = timers s ∧
  parseJsonErrorTimeoutRef (contentChange text s)
    = parseJsonErrorTimeoutRef s ∧
  (pendingValidations s = [] →
   validations (advance dt (contentChange text s)).1 = [] ∧
   parseJsonError (advance dt (contentChange text s)).2 = parseJsonError s).
Proof.
  intros Hed Hm Hjson Hjson5.
  destruct (contentChange_other_language text s ed m Hed Hm Hjson Hjson5)
    as (Htimers & _ & Href).
  split_and!; [by apply (contentChange_updates text s ed m)|done..|].
  intros Hnone.
  assert (validations (advance dt (contentChange text s)).1 = []) as Hran.
  { unfold advance. cbn [fst]. rewrite validations_tasks.
    match goal with
    | |- _ <$> ?l = [] => assert (l = []) as ->; [|done]
    end.
    apply Permutation_nil_r.
    rewrite sortTimers_Permutation, Htimers.
    rewrite list_filter_filter.
    erewrite list_filter_iff;
      [|intros tm; apply (and_comm (isValidation (task tm)))].
    rewrite <- list_filter_filter. fold (pendingValidations s).
    by rewrite Hnone. }
  split; [done|].
  rewrite advance_parseJsonError, Hran. apply contentChange_frame.
Qed.

Lemma other_language_never_validates_witness :
  parseJsonError
    (advance (P := Sample.platform) 5000
       (contentChange (u16 "{")
          (initializeEditor [] (u16 "yaml") initialState))).2
  = None.
Proof.
  refine (proj2 (proj2 (proj2 (proj2
    (other_language_never_validates Sample.platform
       (initializeEditor [] (u16 "yaml") initialState) _ _ (u16 "{") 5000
       eq_refl eq_refl _ _))) eq_refl)); by vm_compute.
Defined.

(** X12: [highlightErrorLine] on a mounted editor highlights the line and
    sets a timer that removes the highlight 5000 ms later; the removal
    timers of earlier calls are left waiting, so the highlight is gone
    once 5000 ms have passed or once an earlier removal timer has fired,
    and is shown until then. *)
Theorem highlight_ends_with_the_first_removal
    (P : Platform) (s : State) (lineNumber : Z) (dt : N) :
  editorRef s ≠ None →
  errorDecorationsRef (highlightErrorLine lineNumber s).2
    = Some [lineNumber] ∧
  (5000 ≤ dt ∨
   Exists (λ tm, task tm = ClearErrorDecorations ∧ due tm ≤ now s + dt)
     (timers s) →
   errorDecorationsRef (advance dt (highlightErrorLine lineNumber s).2).2
     = Some []) ∧
  (dt < 5000 →
   Forall (λ tm, task tm = ClearErrorDecorations → ¬ due tm ≤ now s + dt)
     (timers s) →
   errorDecorationsRef (advance dt (highlightErrorLine lineNumber s).2).2
     = Some [lineNumber]).
Proof.
  intros Hed. destruct (editorRef s) as [ed|] eqn:Heq; [clear Hed|done].
  assert (∃ s', (highlightErrorLine lineNumber s).2 = s' ∧
            errorDecorationsRef s' = Some [lineNumber] ∧ now s' = now s ∧
            timers s' = timers s ++
              [{| tid := nextTimerId s; due := now s + 5000;
                  task := ClearErrorDecorations |}])
    as (s' & -> & Href & Hnow & Htimers).
  { unfold highlightErrorLine. rewrite Heq. eexists. split; [done|].
    cbn [set_editorRef errorDecorationsRef].
    by destruct (errorDecorationsRef s). }
  destruct (advance_errorDecorationsRef dt s') as [Hex Hall].
  rewrite Href, Hnow, Htimers in Hex, Hall.
  split_and!; [done| |].
  - intros Hsome. apply Hex. apply Exists_app.
    destruct Hsome as [Hdt|Hearlier]; [right|by left].
    apply Exists_cons_hd. split; [done|]. cbn [due]. lia.
  - intros Hdt Hnone. apply Hall. apply Forall_app. split; [done|].
    apply Forall_singleton. intros _. cbn [due]. lia.
Qed.

Lemma highlight_ends_with_the_first_removal_witness :
  errorDecorationsRef
    (advance (P := Sample.platform) 1000
       (highlightErrorLine 1
          (advance (P := Sample.platform) 4000
             (goToErrorLine (Sample.reviewing (u16 "{")))).2).2).2
  = Some [].
Proof.
  refine (proj1 (proj2
    (highlight_ends_with_the_first_removal Sample.platform
       (advance (P := Sample.platform) 4000
          (goToErrorLine (Sample.reviewing (u16 "{")))).2 1 1000 _)) _).
  - by vm_compute.
  - right. vm_compute. apply Exists_cons_hd. split; [reflexivity|discriminate].
Defined.

(** X13: [fieldSort] lets the exception of [JSON.parse] escape whenever
    the validation accepts a text that [JSON.parse] rejects: a blank
    buffer, or JSON5 text that is not JSON.  It has cleared the parse
    error by then and has touched nothing else; no notification is
    shown. *)
Theorem fieldSort_throws
    (P : Platform) (s : State) (ed : CodeEditor) (type : SortOrder) :
  editorRef s = Some ed →
  JSON_parse (getValue ed) = None →
  trim (getValue ed) = [] ∨
  (if decide (currentLanguageId s = Some (u16 "json5"))
   then json5ParseError (getValue ed)
   else jsonParseError (getValue ed)) = None →
  fieldSort type s = Thrown (setParseJsonError None s).
Proof.
  intros Hed Hparse Hvalid. unfold fieldSort. rewrite Hed.
  cbv zeta. unfold editorValueValidate.
  destruct (trim (getValue ed)) as [|c t] eqn:Htrim.
  - cbn [negb]. by rewrite Hparse.
  - destruct Hvalid as [|Hvalid]; [done|]. rewrite Hvalid.
    cbn [negb]. by rewrite Hparse.
Qed.

Lemma fieldSort_throws_witness :
  fieldSort (P := Sample.platform) asc
    (initializeEditor (u16 "{a:1,}") (u16 "json5") initialState)
  = Thrown (setParseJsonError None
              (initializeEditor (u16 "{a:1,}") (u16 "json5") initialState)).
Proof.
  eapply (fieldSort_throws Sample.platform).
  - reflexivity.
  - reflexivity.
  - right. reflexivity.
Defined.

(** X14: [validate] answers what [editorValueValidate] answers on the
    text of the buffer.  On a blank buffer it leaves the state alone, so a
    parse error shown then stays; on any other text it answers true
    exactly when it leaves no parse error.  Calling it a second time
    changes nothing and gives the same answer. *)
Theorem validate_settles (P : Platform) (s : State) :
  validate (validate s).2 = validate s ∧
  ∀ ed, editorRef s = Some ed →
    (validate s).1 = (editorValueValidate (getValue ed) s).1 ∧
    (trim (getValue ed) = [] → (validate s).2 = s) ∧
    (trim (getValue ed) ≠ [] →
     (validate s).1 = true ↔ parseJsonError (validate s).2 = None).
Proof.
  split.
  - unfold validate. destruct (editorRef s) as [ed|] eqn:Hed;
      [|by cbn [snd]; rewrite Hed].
    cbv zeta. destruct (trim (getValue ed)) as [|c t] eqn:Htrim.
    + cbn [snd]. by rewrite Hed, Htrim.
    + rewrite editorValueValidate_editorRef, Hed, Htrim.
      apply editorValueValidate_idempotent.
  - intros ed Hed. unfold validate. rewrite Hed. cbv zeta.
    destruct (trim (getValue ed)) as [|c t] eqn:Htrim.
    + split_and!; [|done..]. unfold editorValueValidate. by rewrite Htrim.
    + split_and!; [done..|]. intros _. unfold editorValueValidate.
      rewrite Htrim. by destruct (if decide _ then _ else _).
Qed.

Lemma validate_settles_witness :
  (validate (P := Sample.platform) (Sample.reviewing (u16 "{"))).1 = true ↔
  parseJsonError
    (validate (P := Sample.platform) (Sample.reviewing (u16 "{"))).2 = None.
Proof.
  refine (proj2 (proj2 (proj2 (validate_settles Sample.platform
                                 (Sample.reviewing (u16 "{")))
                          _ eq_refl)) _).
  by vm_compute.
Defined.

(** X15: in every state the component reaches, at most one validation is
    waiting and it is the one [parseJsonErrorTimeoutRef] holds; every
    waiting timer is due after [now], a validation within 1000 ms and a
    highlight removal within 5000 ms.  So 1000 ms later no validation is
    waiting, and 5000 ms later no timer is. *)
Theorem timers_stay_scheduled (P : Platform) (s : State) :
  reachableState s →
  scheduled s ∧
  (∀ tm, tm ∈ pendingValidations s →
     parseJsonErrorTimeoutRef s = Some (tid tm)) ∧
  pendingValidations (advance 1000 s).2 = [] ∧
  timers (advance 5000 s).2 = [].
Proof.
  intros Hreach.
  assert (scheduled s) as Hsch.
  { induction Hreach as [|a s Hreach IH].
    - split; [simpl; lia|]. intros tm Hin. inversion Hin.
    - apply perform_scheduled; [|done].
      by apply reachableState_consistent. }
  destruct (reachableState_consistent s Hreach) as [[_ Hdeb] _].
  destruct Hsch as [Hone Hdue].
  split_and!; [done| | |].
  - intros tm [Hval Hin]%list_elem_of_filter. by apply Hdeb.
  - unfold pendingValidations.
    destruct (advance_frame 1000 s) as (_ & -> & _).
    destruct (filter _ (filter _ _)) as [|tm l] eqn:Hfilter; [done|].
    assert (tm ∈ tm :: l) as Hin by left. rewrite <- Hfilter in Hin.
    apply list_elem_of_filter in Hin as [Hval Hin].
    apply list_elem_of_filter in Hin as [Hlate Hin].
    destruct (Hdue tm Hin) as [_ Hle].
    destruct (task tm); [simpl in Hle; lia|done].
  - destruct (advance_frame 5000 s) as (_ & -> & _).
    destruct (filter _ _) as [|tm l] eqn:Hfilter; [done|].
    assert (tm ∈ tm :: l) as Hin by left. rewrite <- Hfilter in Hin.
    apply list_elem_of_filter in Hin as [Hlate Hin].
    destruct (Hdue tm Hin) as [_ Hle].
    destruct (task tm); simpl in Hle; lia.
Qed.

Lemma timers_stay_scheduled_witness :
  timers
    (advance (P := Sample.platform) 5000
       (perform (P := Sample.platform) GoToErrorLine
          (Sample.reviewing (u16 "{")))).2 = [].
Proof.
  refine (proj2 (proj2 (proj2
    (timers_stay_scheduled Sample.platform
       (perform (P := Sample.platform) GoToErrorLine
          (Sample.reviewing (u16 "{"))) _)))).
  apply reachableState_perform.
  apply (reachableState_perform OpenDetails).
  apply (reachableState_perform (Wait 1000)).
  apply (reachableState_perform (Edit (u16 "{"))).
  apply (reachableState_perform (Mount [] (u16 "json"))).
  apply reachableState_initial.
Defined.



(* ===================================================================== *)
(** ** Properties of the diff editor component *)
(* ===================================================================== *)

(** X17: [fieldSort] on both editors sorts the left one as a sort of the
    left editor alone does, and the right one as a sort of the right
    editor alone does, but its answer and its notification are those of
    the right editor alone: the outcome of the left sort is overwritten. *)
Theorem diff_fieldSort_all_answers_for_the_right
    (P : Platform) (s : DiffEditor.State) (sort : SortOrder) :
  DiffEditor.editorRef s = true →
  is_Some (DiffEditor.originalEditorRef s) →
  DiffEditor.resultOf (DiffEditor.fieldSort DiffEditor.all sort s) =
    DiffEditor.resultOf (DiffEditor.fieldSort DiffEditor.right sort s) ∧
  DiffEditor.toasts
      (DiffEditor.stateOf (DiffEditor.fieldSort DiffEditor.all sort s)) =
    DiffEditor.toasts
      (DiffEditor.stateOf (DiffEditor.fieldSort DiffEditor.right sort s)) ∧
  DiffEditor.side DiffEditor.Modified
      (DiffEditor.stateOf (DiffEditor.fieldSort DiffEditor.all sort s)) =
    DiffEditor.side DiffEditor.Modified
      (DiffEditor.stateOf (DiffEditor.fieldSort DiffEditor.right sort s)) ∧
  DiffEditor.side DiffEditor.Original
      (DiffEditor.stateOf (DiffEditor.fieldSort DiffEditor.all sort s)) =
    DiffEditor.side DiffEditor.Original
      (DiffEditor.stateOf (DiffEditor.fieldSort DiffEditor.left sort s)).
Proof.
  intros Hed HL. unfold DiffEditor.fieldSort. rewrite Hed. cbn [negb].
  apply (DiffEditorFacts.sortEditor_returns DiffEditor.Original sort s) in HL.
  destruct (DiffEditorFacts.sortEditor_frame DiffEditor.Original sort s)
    as [(_ & _ & Hcb & Htoasts & _) Hother].
  destruct (DiffEditor.sortEditor DiffEditor.Original sort s)
    as [okL sL|sL]; [|by destruct HL].
  cbn [DiffEditor.stateOf DiffEditor.opposite] in Hcb, Htoasts, Hother.
  destruct (DiffEditorFacts.sortEditor_local DiffEditor.Modified sort s sL
              Hother Hcb) as [Hresult Hside].
  destruct (DiffEditorFacts.sortEditor_frame DiffEditor.Modified sort sL)
    as [(_ & _ & _ & HtoastsA & _) HotherA].
  destruct (DiffEditorFacts.sortEditor_frame DiffEditor.Modified sort s)
    as [(_ & _ & _ & HtoastsR & _) _].
  destruct (DiffEditor.sortEditor DiffEditor.Modified sort sL)
    as [okA sA|sA],
    (DiffEditor.sortEditor DiffEditor.Modified sort s) as [okR sR|sR];
    simpl in Hresult; try done;
    cbn [DiffEditor.stateOf DiffEditor.opposite] in *.
  - injection Hresult as ->.
    destruct okR, okL; simpl in *; by rewrite ?HtoastsA, ?HtoastsR, ?Htoasts.
  - destruct okL; simpl in *; by rewrite ?HtoastsA, ?HtoastsR, ?Htoasts.
Qed.

Lemma diff_fieldSort_all_answers_for_the_right_witness :
  DiffEditor.resultOf
    (DiffEditor.fieldSort (P := Sample.platform) DiffEditor.all asc
       (DiffEditor.createDiffEditor (lit "{'b':1,'a':2}") (u16 "{") []
          (DiffEditor.initialState true))) = Some false.
Proof.
  rewrite (proj1 (diff_fieldSort_all_answers_for_the_right Sample.platform
                    (DiffEditor.createDiffEditor (lit "{'b':1,'a':2}")
                       (u16 "{") [] (DiffEditor.initialState true)) asc
                    eq_refl (mk_is_Some _ _ eq_refl))).
  reflexivity.
Defined.

(** X18: in every state the diff editor component reaches, the
    references to the two editors are set together.  [fieldSort] and
    [copy] throw exactly when they are asked for an editor while the diff
    editor exists and these references are not set: from the call of
    [onMount] until the models are set, and for good when [onMount] has
    thrown.  In every other case they return; the exceptions of
    [JSON.parse] are caught.  A sort of one editor that answers false has
    shown the error notification and changed nothing else, and has shown
    nothing before the diff editor exists. *)
Theorem diff_operations_throw_while_mounting
    (P : Platform) (s : DiffEditor.State)
    (type : DiffEditor.MonacoDiffEditorEditorType) (sort : SortOrder) :
  DiffEditor.reachableState s →
  (is_Some (DiffEditor.originalEditorRef s) ↔
   is_Some (DiffEditor.modifiedEditorRef s)) ∧
  (DiffEditor.resultOf (DiffEditor.fieldSort type sort s) = None ↔
   DiffEditor.editorRef s = true ∧ DiffEditor.originalEditorRef s = None ∧
   type ≠ DiffEditor.other) ∧
  (DiffEditor.resultOf (DiffEditor.copy type s) = None ↔
   DiffEditor.editorRef s = true ∧ DiffEditor.originalEditorRef s = None ∧
   (type = DiffEditor.left ∨ type = DiffEditor.right)) ∧
  (type = DiffEditor.left ∨ type = DiffEditor.right →
   DiffEditor.resultOf (DiffEditor.fieldSort type sort s) = Some false →
   DiffEditor.stateOf (DiffEditor.fieldSort type sort s) =
     if DiffEditor.editorRef s
     then DiffEditor.toast ToastError DiffEditor.msgSortFailed s
     else s).
Proof.
  intros Hpair%DiffEditorFacts.reachableState_paired.
  assert (is_Some (DiffEditor.originalEditorRef s) ↔
          is_Some (DiffEditor.modifiedEditorRef s)) as Hboth.
  { destruct Hpair as [[-> ->]|[_ (edL & mL & edR & mR & -> & _ & -> & _)]];
      [done|]. split; by eexists. }
  split; [exact Hboth|].
  unfold DiffEditor.fieldSort, DiffEditor.copy.
  destruct (DiffEditor.editorRef s) eqn:Hed; cbn [negb].
  2:{ split_and!; [by split; [|intros [? _]]..|done]. }
  assert (∀ r s0,
            DiffEditor.resultOf
              match DiffEditor.sortEditor r sort s0 with
              | DiffEditor.Returned ok s' =>
                if negb ok
                then DiffEditor.Returned false
                       (DiffEditor.toast ToastError DiffEditor.msgSortFailed s')
                else DiffEditor.Returned true
                       (DiffEditor.toast ToastSuccess DiffEditor.msgSorted s')
              | DiffEditor.Thrown s' => DiffEditor.Thrown s'
              end = None ↔ DiffEditor.current r s0 = None) as Hfinish.
  { intros r s0.
    pose proof (DiffEditorFacts.sortEditor_returns r sort s0) as Hret.
    destruct (DiffEditor.sortEditor r sort s0) as [[] s'|s']; simpl in *.
    - split; [done|]. intros Hnone. rewrite Hnone in Hret.
      destruct Hret as [_ Hret]. by destruct Hret.
    - split; [done|]. intros Hnone. rewrite Hnone in Hret.
      destruct Hret as [_ Hret]. by destruct Hret.
    - split; [|done]. intros _.
      destruct (DiffEditor.current r s0); [|done].
      destruct Hret as [Hret _]. by destruct Hret. }
  assert (∀ r,
            DiffEditor.resultOf
              match DiffEditor.sortEditor r sort s with
              | DiffEditor.Returned ok s' =>
                if negb ok
                then DiffEditor.Returned false
                       (DiffEditor.toast ToastError DiffEditor.msgSortFailed s')
                else DiffEditor.Returned true
                       (DiffEditor.toast ToastSuccess DiffEditor.msgSorted s')
              | DiffEditor.Thrown s' => DiffEditor.Thrown s'
              end = Some false →
            DiffEditor.stateOf
              match DiffEditor.sortEditor r sort s with
              | DiffEditor.Returned ok s' =>
                if negb ok
                then DiffEditor.Returned false
                       (DiffEditor.toast ToastError DiffEditor.msgSortFailed s')
                else DiffEditor.Returned true
                       (DiffEditor.toast ToastSuccess DiffEditor.msgSorted s')
              | DiffEditor.Thrown s' => DiffEditor.Thrown s'
              end = DiffEditor.toast ToastError DiffEditor.msgSortFailed s)
    as Hfalse.
  { intros r. unfold DiffEditor.sortEditor.
    destruct (DiffEditor.current r s) as [ed|]; [|done]. cbv zeta.
    destruct (getValue ed); [done|]. by destruct (JSON_parse _). }
  assert (DiffEditor.modifiedEditorRef s = None ↔
          DiffEditor.originalEditorRef s = None) as Hnone.
  { rewrite <- !not_eq_None_Some in Hboth. split; intros Hn.
    - destruct (DiffEditor.originalEditorRef s) eqn:HL; [|done].
      exfalso. by apply (proj1 Hboth).
    - destruct (DiffEditor.modifiedEditorRef s) eqn:HR; [|done].
      exfalso. by apply (proj2 Hboth). }
  split_and!.
  - destruct type.
    + rewrite Hfinish. simpl. by split; [|intros (_ & ? & _)].
    + rewrite Hfinish. simpl. rewrite Hnone. by split; [|intros (_ & ? & _)].
    + pose proof (DiffEditorFacts.sortEditor_returns DiffEditor.Original
                    sort s) as HretL.
      destruct (DiffEditorFacts.sortEditor_frame DiffEditor.Original sort s)
        as [_ Hother].
      destruct (DiffEditor.sortEditor DiffEditor.Original sort s)
        as [okL sL|sL]; simpl in HretL.
      * cbn [DiffEditor.stateOf DiffEditor.opposite DiffEditor.side]
          in Hother. injection Hother as HR _.
        rewrite Hfinish. simpl. rewrite HR, Hnone.
        by split; [|intros (_ & ? & _)].
      * split; [|done]. intros _. split_and!; [done| |done].
        destruct (DiffEditor.originalEditorRef s); [|done].
        destruct HretL as [HretL _]. by destruct HretL.
    + split; [done|]. by intros (_ & _ & ?).
  - destruct type; simpl.
    + destruct (DiffEditor.originalEditorRef s); simpl.
      * split; [done|]. by intros (_ & ? & _).
      * split; [|done]. intros _. split_and!; auto.
    + destruct (DiffEditor.modifiedEditorRef s) eqn:HR; simpl.
      * split; [done|]. intros (_ & HL & _). apply Hnone in HL. congruence.
      * split; [|done]. intros _. split_and!; [done| |by right].
        by apply Hnone.
    + split; [done|]. by intros (_ & _ & [|]).
    + split; [done|]. by intros (_ & _ & [|]).
  - intros [-> | ->]; apply Hfalse.
Qed.

Lemma diff_operations_throw_while_mounting_witness :
  DiffEditor.resultOf
    (DiffEditor.copy DiffEditor.left
       (DiffEditor.perform (P := Sample.platform) DiffEditor.CreateEditor
          (DiffEditor.initialState true))) = None.
Proof.
  refine (proj2 (proj1 (proj2 (proj2
    (diff_operations_throw_while_mounting Sample.platform
       (DiffEditor.perform (P := Sample.platform) DiffEditor.CreateEditor
          (DiffEditor.initialState true)) DiffEditor.left asc _)))) _).
  - apply (DiffEditor.reachableState_perform DiffEditor.CreateEditor),
      DiffEditor.reachableState_initial.
  - split_and!; [reflexivity|reflexivity|by left].
Defined.

(** X19: once the diff editor exists, [clear] on both editors answers
    true, shows one notification and leaves every buffer that is there
    empty.  The parent of a side is told the empty text only when the
    buffer of that side held a text, the parent of the right side only
    when [onUpdateModifiedValue] is given as well: an edit of a buffer
    that is empty already is dropped, and before the references to the two
    editors are set there is nothing to edit.  [clear] on one editor leaves
    the other side as it was. *)
Theorem diff_clear_empties (s : DiffEditor.State) :
  DiffEditor.editorRef s = true →
  (DiffEditor.clear DiffEditor.all s).1 = true ∧
  DiffEditor.toasts (DiffEditor.clear DiffEditor.all s).2
    = {| kind := ToastSuccess; text := DiffEditor.msgCleared |}
        :: DiffEditor.toasts s ∧
  getValue <$> DiffEditor.originalEditorRef
                 (DiffEditor.clear DiffEditor.all s).2
    = (λ _, []) <$> DiffEditor.originalEditorRef s ∧
  getValue <$> DiffEditor.modifiedEditorRef
                 (DiffEditor.clear DiffEditor.all s).2
    = (λ _, []) <$> DiffEditor.modifiedEditorRef s ∧
  DiffEditor.originalUpdates (DiffEditor.clear DiffEditor.all s).2
    = match getValue <$> DiffEditor.originalEditorRef s with
      | Some (_ :: _) => [] :: DiffEditor.originalUpdates s
      | _ => DiffEditor.originalUpdates s
      end ∧
  DiffEditor.modifiedUpdates (DiffEditor.clear DiffEditor.all s).2
    = match getValue <$> DiffEditor.modifiedEditorRef s with
      | Some (_ :: _) =>
        if DiffEditor.onUpdateModifiedValue s
        then [] :: DiffEditor.modifiedUpdates s
        else DiffEditor.modifiedUpdates s
      | _ => DiffEditor.modifiedUpdates s
      end ∧
  DiffEditor.side DiffEditor.Modified (DiffEditor.clear DiffEditor.left s).2
    = DiffEditor.side DiffEditor.Modified s ∧
  DiffEditor.side DiffEditor.Original (DiffEditor.clear DiffEditor.right s).2
    = DiffEditor.side DiffEditor.Original s.
Proof.
  intros Hed.
  assert (∀ r s0,
            getValue <$> DiffEditor.current r
                           (DiffEditor.setEditorValue r [] s0)
              = (λ _, []) <$> DiffEditor.current r s0 ∧
            (DiffEditor.side r (DiffEditor.setEditorValue r [] s0)).2
              = match getValue <$> DiffEditor.current r s0 with
                | Some (_ :: _) =>
                  match r with
                  | DiffEditor.Original => [] :: DiffEditor.originalUpdates s0
                  | DiffEditor.Modified =>
                    if DiffEditor.onUpdateModifiedValue s0
                    then [] :: DiffEditor.modifiedUpdates s0
                    else DiffEditor.modifiedUpdates s0
                  end
                | _ => (DiffEditor.side r s0).2
                end) as Hclear.
  { intros r s0.
    destruct (DiffEditor.current r s0) as [ed|] eqn:Hcur.
    2:{ unfold DiffEditor.setEditorValue. by rewrite Hcur, Hcur. }
    destruct (model ed) as [m|] eqn:Hm.
    2:{ unfold DiffEditor.setEditorValue. rewrite Hcur, Hm, Hcur.
        unfold getValue. simpl. by rewrite Hm. }
    destruct (value m) as [|c rest] eqn:Hval.
    - rewrite DiffEditorFacts.diff_setEditorValue_dropped.
      + rewrite Hcur. unfold getValue. simpl. by rewrite Hm, Hval.
      + intros ed' Hed'. rewrite Hcur in Hed'. injection Hed' as <-.
        unfold getValue. by rewrite Hm.
    - pose proof (DiffEditorFacts.diff_setEditorValue_side r [] s0 ed m
                    Hcur Hm) as Hside.
      rewrite Hval in Hside.
      assert (c :: rest ≠ [] ∨ @nil N ≠ []) as Hne by (by left).
      specialize (Hside Hne).
      rewrite <- DiffEditorFacts.side_current, Hside. simpl.
      unfold getValue at 2. rewrite Hm, Hval. by destruct r. }
  unfold DiffEditor.clear, DiffEditor.clearEditor. rewrite Hed.
  cbn [negb fst snd].
  destruct (DiffEditorFacts.diff_setEditorValue_frame DiffEditor.Original [] s)
    as [(_ & _ & Hcb1 & Htoasts1 & _) Hother1].
  destruct (Hclear DiffEditor.Original s) as [HvalL HupL].
  set (s1 := DiffEditor.setEditorValue DiffEditor.Original [] s) in *.
  destruct (DiffEditorFacts.diff_setEditorValue_frame DiffEditor.Modified [] s1)
    as [(_ & _ & _ & Htoasts2 & _) Hother2].
  destruct (Hclear DiffEditor.Modified s1) as [HvalR HupR].
  destruct (DiffEditorFacts.diff_setEditorValue_frame DiffEditor.Modified [] s)
    as [_ Hother3].
  set (s2 := DiffEditor.setEditorValue DiffEditor.Modified [] s1) in *.
  cbn [DiffEditor.opposite DiffEditor.side DiffEditor.current fst snd]
    in Hother1, Hother2, Hother3, HvalL, HupL, HvalR, HupR.
  injection Hother1 as HR1 Hup1. injection Hother2 as HL2 HupL2.
  rewrite HR1, Hup1, Hcb1 in HupR. rewrite HR1 in HvalR.
  cbn [DiffEditor.toast DiffEditor.originalEditorRef
       DiffEditor.modifiedEditorRef DiffEditor.originalUpdates
       DiffEditor.modifiedUpdates DiffEditor.toasts DiffEditor.side].
  split_and!; try done.
  - by rewrite Htoasts2, Htoasts1.
  - by rewrite HL2.
  - by rewrite HupL2.
  - by rewrite HR1, Hup1.
Qed.

Lemma diff_clear_empties_witness :
  DiffEditor.originalUpdates
    (DiffEditor.clear DiffEditor.all
       (DiffEditor.createDiffEditor (u16 "1") [] []
          (DiffEditor.initialState false))).2 = [[]] ∧
  DiffEditor.modifiedUpdates
    (DiffEditor.clear DiffEditor.all
       (DiffEditor.createDiffEditor (u16 "1") [] []
          (DiffEditor.initialState false))).2 = [].
Proof.
  split.
  - refine (proj1 (proj2 (proj2 (proj2 (proj2
      (diff_clear_empties
         (DiffEditor.createDiffEditor (u16 "1") [] []
            (DiffEditor.initialState false)) eq_refl)))))).
  - reflexivity.
Defined.

(* ===================================================================== *)
(** ** Properties of the operation bar *)
(* ===================================================================== *)

(** X20: in every state the operation bar reaches, once the pointer has
    entered the trigger or the menu of the sort dropdown the dropdown is
    open and stays open however long the pointer rests, whatever timers
    earlier leaves have set; once the pointer has left, the dropdown
    keeps its state for 300 ms and is closed from then on.  The same holds
    of the more dropdown. *)
Theorem bar_dropdown_follows_the_pointer
    (s : OperationBar.State) (dt : N) :
  OperationBar.reachableState s →
  OperationBar.isSortDropdownOpen
    (OperationBar.advance dt (OperationBar.showSortDropdown s)) = true ∧
  OperationBar.isSortDropdownOpen
    (OperationBar.advance dt (OperationBar.unShowSortDropdown s)) =
    (if decide (300 ≤ dt) then false
     else OperationBar.isSortDropdownOpen s) ∧
  OperationBar.isMoreDropdownOpen
    (OperationBar.advance dt (OperationBar.showMoreDropdown s)) = true ∧
  OperationBar.isMoreDropdownOpen
    (OperationBar.advance dt (OperationBar.unShowMoreDropdown s)) =
    (if decide (300 ≤ dt) then false
     else OperationBar.isMoreDropdownOpen s).
Proof.
  intros Hhov%OperationBarFacts.reachableState_hovering.
  split_and!.
  - destruct (OperationBarFacts.bar_advance_isSortDropdownOpen dt
                (OperationBar.showSortDropdown s)) as [_ ->]; [done|].
    intros (tm & Hin & Htask & _)%Exists_exists.
    by apply (OperationBarFacts.showSortDropdown_cancels s tm).
  - destruct (OperationBarFacts.unShowSortDropdown_frame s)
      as (_ & _ & _ & Hnow & Hopen & _).
    destruct (OperationBarFacts.bar_advance_isSortDropdownOpen dt
                (OperationBar.unShowSortDropdown s)) as [Hfires Hnot].
    unfold OperationBar.fires in Hfires, Hnot. rewrite Hnow in Hfires, Hnot.
    case_decide as Hdt.
    + apply Hfires, Exists_exists.
      exists {| OperationBar.tid := OperationBar.nextTimerId s;
                OperationBar.due := OperationBar.now s + 300;
                OperationBar.task := OperationBar.CloseSortDropdown |}.
      split_and!; [|done|simpl; lia].
      unfold OperationBar.unShowSortDropdown.
      destruct (OperationBar.sortDropdownOpenTimeoutRef s); simpl;
        apply elem_of_app; right; left.
    + rewrite Hnot; [done|].
      intros (tm & Hin & Htask & Hdue)%Exists_exists.
      rewrite (OperationBarFacts.unShowSortDropdown_schedules s tm
                 Hhov Hin Htask) in Hdue.
      simpl in Hdue. lia.
  - destruct (OperationBarFacts.bar_advance_isMoreDropdownOpen dt
                (OperationBar.showMoreDropdown s)) as [_ ->]; [done|].
    intros (tm & Hin & Htask & _)%Exists_exists.
    by apply (OperationBarFacts.showMoreDropdown_cancels s tm).
  - destruct (OperationBarFacts.unShowMoreDropdown_frame s)
      as (_ & _ & _ & Hnow & Hopen & _).
    destruct (OperationBarFacts.bar_advance_isMoreDropdownOpen dt
                (OperationBar.unShowMoreDropdown s)) as [Hfires Hnot].
    unfold OperationBar.fires in Hfires, Hnot. rewrite Hnow in Hfires, Hnot.
    case_decide as Hdt.
    + apply Hfires, Exists_exists.
      exists {| OperationBar.tid := OperationBar.nextTimerId s;
                OperationBar.due := OperationBar.now s + 300;
                OperationBar.task := OperationBar.CloseMoreDropdown |}.
      split_and!; [|done|simpl; lia].
      unfold OperationBar.unShowMoreDropdown.
      destruct (OperationBar.moreDropdownOpenTimeoutRef s); simpl;
        apply elem_of_app; right; left.
    + rewrite Hnot; [done|].
      intros (tm & Hin & Htask & Hdue)%Exists_exists.
      rewrite (OperationBarFacts.unShowMoreDropdown_schedules s tm
                 Hhov Hin Htask) in Hdue.
      simpl in Hdue. lia.
Qed.

Lemma bar_dropdown_follows_the_pointer_witness :
  OperationBar.isSortDropdownOpen
    (OperationBar.advance 1000
       (OperationBar.showSortDropdown
          (OperationBar.advance 200
             (OperationBar.unShowSortDropdown
                (OperationBar.showSortDropdown
                   OperationBar.initialState))))) = true.
Proof.
  refine (proj1 (bar_dropdown_follows_the_pointer _ 1000 _)).
  apply (OperationBar.reachableState_perform (OperationBar.Wait 200)),
    (OperationBar.reachableState_perform OperationBar.UnShowSortDropdown),
    (OperationBar.reachableState_perform OperationBar.ShowSortDropdown),
    OperationBar.reachableState_initial.
Defined.

(** X21: a click on the copy button shows the answer of [onCopy] as the
    status of the button and sets a timer that resets the status 1000 ms
    later, without cancelling the timers of earlier clicks: [dt] ms after
    the click the status is back to [Default] once 1000 ms have passed or
    a reset timer of an earlier click has fired, and shows the answer
    until then.  The format button does the same with 2000 ms and the
    clear button with 1000 ms. *)
Theorem bar_status_is_reset (s : OperationBar.State) (ok : bool) (dt : N) :
  (OperationBar.copyStatus
     (OperationBar.advance dt
        (OperationBar.stateOf (OperationBar.clickCopy (Some ok) s))) =
   if decide (1000 ≤ dt ∨
              OperationBar.fires OperationBar.ResetCopyStatus dt s)
   then OperationBar.Default else OperationBar.statusOf ok) ∧
  (OperationBar.formatStatus
     (OperationBar.advance dt
        (OperationBar.stateOf (OperationBar.clickFormat (Some ok) s))) =
   if decide (2000 ≤ dt ∨
              OperationBar.fires OperationBar.ResetFormatStatus dt s)
   then OperationBar.Default else OperationBar.statusOf ok) ∧
  (OperationBar.clearStatus
     (OperationBar.advance dt
        (OperationBar.stateOf (OperationBar.clickClear (Some ok) s))) =
   if decide (1000 ≤ dt ∨
              OperationBar.fires OperationBar.ResetClearStatus dt s)
   then OperationBar.Default else OperationBar.statusOf ok).
Proof.
  assert (∀ t delay s',
            OperationBar.now s' = OperationBar.now s →
            OperationBar.timers s' =
              OperationBar.timers s ++
                [{| OperationBar.tid := OperationBar.nextTimerId s;
                    OperationBar.due := OperationBar.now s + delay;
                    OperationBar.task := t |}] →
            OperationBar.fires t dt s' ↔
            delay ≤ dt ∨ OperationBar.fires t dt s) as Hfires.
  { intros t delay s' Hnow Htimers. unfold OperationBar.fires.
    rewrite Hnow, Htimers, Exists_app, Exists_cons, Exists_nil. simpl.
    split; [intros [?|[[_ ?]|[]]]|intros [?|?]]; auto with lia. }
  split_and!.
  - destruct (OperationBarFacts.bar_advance_copyStatus dt
                (OperationBar.stateOf (OperationBar.clickCopy (Some ok) s)))
      as [Hyes Hno].
    rewrite (Hfires OperationBar.ResetCopyStatus 1000) in Hyes, Hno
      by done.
    case_decide; [by apply Hyes|by rewrite Hno].
  - destruct (OperationBarFacts.bar_advance_formatStatus dt
                (OperationBar.stateOf (OperationBar.clickFormat (Some ok) s)))
      as [Hyes Hno].
    rewrite (Hfires OperationBar.ResetFormatStatus 2000) in Hyes, Hno
      by done.
    case_decide; [by apply Hyes|by rewrite Hno].
  - destruct (OperationBarFacts.bar_advance_clearStatus dt
                (OperationBar.stateOf (OperationBar.clickClear (Some ok) s)))
      as [Hyes Hno].
    rewrite (Hfires OperationBar.ResetClearStatus 1000) in Hyes, Hno
      by done.
    case_decide; [by apply Hyes|by rewrite Hno].
Qed.

(* ===================================================================== *)
(** ** Properties of copying *)
(* ===================================================================== *)

(** X22: [copy] without a type, or with the default type, writes the
    buffer to the clipboard as it is, blank or invalid, and changes
    nothing.  With [compress], a true answer means that the text written
    to the clipboard is the text the buffer now holds, replaced in one
    step and reported to the parent, and a false answer that nothing was
    written and the buffer is as it was.  With [escape] the buffer is never
    changed, and a true answer wrote the escaped buffer. *)
Theorem copy_writes_what_the_buffer_holds
    (P : Platform) (escapeJson : jsstring → jsstring)
    (s : State) (ed : CodeEditor) (m : TextModel) :
  editorRef s = Some ed → model ed = Some m →
  copy escapeJson None s = Returned (true, Some (value m)) s ∧
  copy escapeJson (Some CopyType.default) s
    = Returned (true, Some (value m)) s ∧
  (∀ ok written s',
     copy escapeJson (Some CopyType.compress) s = Returned (ok, written) s' →
     if ok
     then ∃ compressed,
            written = Some compressed ∧
            editorRef s' =
              Some {| model := Some (replaceAll compressed m);
                      revealedLine := revealedLine ed |} ∧
            updates s' = compressed :: updates s
     else written = None ∧ editorRef s' = editorRef s ∧
          updates s' = updates s) ∧
  (∀ ok written s',
     copy escapeJson (Some CopyType.escape) s = Returned (ok, written) s' →
     editorRef s' = editorRef s ∧ updates s' = updates s ∧
     written = if ok then Some (escapeJson (value m)) else None).
Proof.
  intros Hed Hm. unfold copy. rewrite Hed. unfold getValue. rewrite Hm.
  cbv zeta.
  pose proof (editorValueValidate_editorRef (value m) s) as Hed1.
  rewrite Hed in Hed1.
  destruct (editorValueValidate_frame (value m) s)
    as (_ & _ & _ & _ & _ & _ & _ & Hup1).
  split_and!; [done|done| |].
  - intros ok written s'.
    destruct (trim (value m)) as [|c t] eqn:Htrim.
    { by intros [= <- <- <-]. }
    destruct (editorValueValidate (value m) s) as [[] s1]; cbn [negb snd] in *.
    + destruct (JSON_parse (value m)) as [jsonObj|]; [|done].
      assert (value m ≠ []) as Hne
        by (intros Hnil; rewrite Hnil in Htrim; by vm_compute in Htrim).
      intros [= <- <- <-]. eexists. split; [done|].
      rewrite (setEditorValue_editorRef _ s1 ed m Hed1 Hm (or_introl Hne)),
        (setEditorValue_updates _ s1 ed m Hed1 Hm (or_introl Hne)).
      by rewrite Hup1.
    + intros [= <- <- <-]. by rewrite Hed1, Hup1.
  - intros ok written s'.
    destruct (trim (value m)) as [|c t] eqn:Htrim.
    { by intros [= <- <- <-]. }
    destruct (editorValueValidate (value m) s) as [[] s1];
      cbn [negb snd] in *; intros [= <- <- <-]; by rewrite Hed1, Hup1.
Qed.

Lemma copy_writes_what_the_buffer_holds_witness :
  copy (P := Sample.platform) (λ text, text) None
    (Sample.editing (u16 "{"))
  = Returned (true, Some (u16 "{")) (Sample.editing (u16 "{")).
Proof.
  refine (proj1 (copy_writes_what_the_buffer_holds Sample.platform
                   (λ text, text) (Sample.editing (u16 "{")) _ _
                   eq_refl eq_refl)).
Defined.

(* ===================================================================== *)
(** ** Repair and the debounced validation *)
(* ===================================================================== *)

(** X23: when [autoFix] repairs a JSON or JSON5 buffer, the parse error is
    cleared at once, but the replacement of the content has restarted the
    debounced validation: 1000 ms later the parse error is the verdict of
    [editorValueValidate] on the repaired text, whatever [autoFix] had
    set. *)
Theorem autoFix_then_revalidates
    (P : Platform) (s : State) (ed : CodeEditor) (repaired : jsstring)
    (dt : N) :
  jsonBuffer s → debounced s →
  editorRef s = Some ed → getValue ed ≠ [] →
  jsonrepair (getValue ed) = Some repaired →
  (autoFix s).1 = true ∧
  parseJsonError (autoFix s).2 = None ∧
  pendingValidations (autoFix s).2 =
    [{| tid := nextTimerId s; due := now s + 1000;
        task := ValidateTask repaired |}] ∧
  parseJsonError (advance dt (autoFix s).2).2 =
    if decide (1000 ≤ dt)
    then parseJsonError (editorValueValidate repaired s).2
    else None.
Proof.
  intros Hjson Hdeb Hed Hval Hrepair.
  destruct (contentChange_schedules repaired s Hjson Hdeb)
    as (_ & _ & Hnow & _ & Hone).
  assert (contentChange repaired s = setEditorValue repaired s) as Hchange.
  { destruct Hjson as (ed' & m & Hed' & Hm & _).
    symmetry. apply (setEditorValue_contentChange repaired s ed' m Hed' Hm).
    left. rewrite Hed in Hed'. injection Hed' as <-.
    unfold getValue in Hval. by rewrite Hm in Hval. }
  rewrite Hchange in Hnow, Hone.
  pose proof (setEditorValue_currentLanguageId repaired s) as Hlang.
  assert (∃ s', autoFix s = (true, s') ∧ parseJsonError s' = None ∧
            timers s' = timers (setEditorValue repaired s) ∧
            now s' = now s ∧
            currentLanguageId s' = currentLanguageId s)
    as (s' & -> & Herr & Htimers & Hnow' & Hlang').
  { unfold autoFix. rewrite Hed.
    destruct (getValue ed) as [|c t] eqn:Hvalue; [done|].
    cbn [or_else]. rewrite Hrepair. eexists. split; [done|].
    cbn [toast setParseJsonError closeJsonErrorDetailsModel
         set_jsonErrorDetailsModel parseJsonError timers now].
    split_and!; try done. }
  cbn [fst snd].
  assert (pendingValidations s' =
            [{| tid := nextTimerId s; due := now s' + 1000;
                task := ValidateTask repaired |}]) as Hone'.
  { unfold pendingValidations in *. by rewrite Htimers, Hnow'. }
  split_and!; [done|done|by rewrite Hone', Hnow'|].
  rewrite (pending_parseJsonError dt s' _ _ Hone'), Herr.
  case_decide; [|done]. by apply editorValueValidate_language.
Qed.

Lemma autoFix_then_revalidates_witness :
  parseJsonError
    (advance (P := Sample.platform) 1000
       (autoFix (P := Sample.platform)
          (Sample.reviewing (u16 "{a:1,}"))).2).2 = None.
Proof.
  assert (jsonBuffer (Sample.reviewing (u16 "{a:1,}"))) as Hjson.
  { eexists _, _. split_and!; [reflexivity|reflexivity|]. left. reflexivity. }
  assert (debounced (Sample.reviewing (u16 "{a:1,}"))) as Hdeb.
  { split; [reflexivity|]. intros tm Hin. vm_compute in Hin. inversion Hin. }
  rewrite (proj2 (proj2 (proj2
    (autoFix_then_revalidates Sample.platform
       (Sample.reviewing (u16 "{a:1,}")) _ (lit "{'a':1}") 1000
       Hjson Hdeb eq_refl ltac:(by vm_compute) eq_refl)))).
  reflexivity.
Defined.
